(** * Pairing, classification and JSON recovery of the tutor-ai-database scripts

    A shallow embedding of the filename heuristics of
    [organize_documents.py], [quick_organize_files.py],
    [organize_question_solution_pairs.py] and
    [streamlined_education_pdf_to_json.py], and of the JSON recovery
    ladder of [process_with_deepseek]; then of the chunks of a text, the
    limit of a batch, the groups by base name, the solution matched to a
    question and the record of a pair.

    Conventions of the embedding.
    - A Python [str] is a [string]; the functions that scan text work on
      its [list ascii].  File names are taken to be ASCII: a character
      above 127 is neither a word character nor white space here and is
      left alone by [lower].
    - A Python [float] score is the exact rational it rounds: scores are
      quotients of two token counts, thresholds are rationals.
    - Python's [re] is embedded as a backtracking matcher over the
      constructs the scripts use. *)

From Stdlib Require Import Ascii String List ZArith QArith Lia Bool.
From stdpp Require Import base gmap strings list.
Import ListNotations.

Local Open Scope list_scope.

(** ** Characters *)

Module Chars.

Definition code (c : ascii) : N := N_of_ascii c.

Definition between (lo hi : N) (c : ascii) : bool :=
  ((lo <=? code c) && (code c <=? hi))%N.

Definition is_upper : ascii -> bool := between 65 90.
Definition is_lower : ascii -> bool := between 97 122.
Definition is_digit : ascii -> bool := between 48 57.

(** [\w] on ASCII text: letters, digits and the underscore. *)
Definition is_word (c : ascii) : bool :=
  is_upper c || is_lower c || is_digit c || (code c =? 95)%N.

(** [\s] and [str.isspace] on ASCII text: tab, line feed, vertical tab,
    form feed, carriage return, the four separators 28..31 and space. *)
Definition is_space (c : ascii) : bool :=
  between 9 13 c || between 28 32 c.

(** [str.lower] on one ASCII character. *)
Definition lower_char (c : ascii) : ascii :=
  if is_upper c then ascii_of_N (code c + 32) else c.

Definition lower (s : list ascii) : list ascii := map lower_char s.

Definition is_char (c : ascii) : ascii -> bool := Ascii.eqb c.

(** A pattern character under [(?i)]. *)
Definition is_nocase (c : ascii) : ascii -> bool :=
  fun x => Ascii.eqb (lower_char x) (lower_char c).

End Chars.

Import Chars.

(** ** Python string helpers *)

Module PyStr.

Definition chars (s : string) : list ascii := list_ascii_of_string s.
Definition str (l : list ascii) : string := string_of_list_ascii l.

(** [s.startswith(p)], returning what follows the prefix. *)
Fixpoint strip_prefix (p s : list ascii) : option (list ascii) :=
  match p, s with
  | [], _ => Some s
  | a :: p', c :: s' => if Ascii.eqb a c then strip_prefix p' s' else None
  | _ :: _, [] => None
  end.

(** [s.find(p)] from the left: [None] stands for -1. *)
Fixpoint find (p s : list ascii) : option nat :=
  match strip_prefix p s with
  | Some _ => Some 0
  | None =>
      match s with
      | [] => None
      | _ :: s' => option_map S (find p s')
      end
  end.

(** [p in s]. *)
Definition contains (p s : list ascii) : bool :=
  match find p s with Some _ => true | None => false end.

(** [s.rfind(c)] for a single character, -1 when absent. *)
Fixpoint rfind_char_from (c : ascii) (i : Z) (s : list ascii) (last : Z) : Z :=
  match s with
  | [] => last
  | x :: s' => rfind_char_from c (i + 1) s' (if Ascii.eqb x c then i else last)
  end.

Definition rfind_char (c : ascii) (s : list ascii) : Z :=
  rfind_char_from c 0 s (-1).

(** [s[i:j]] for [0 <= i]. *)
Definition slice (i j : Z) (s : list ascii) : list ascii :=
  firstn (Z.to_nat (j - i)) (skipn (Z.to_nat i) s).

(** [s.strip()]. *)
Fixpoint lstrip (s : list ascii) : list ascii :=
  match s with
  | c :: s' => if is_space c then lstrip s' else s
  | [] => []
  end.

Definition rstrip (s : list ascii) : list ascii := rev (lstrip (rev s)).
Definition strip (s : list ascii) : list ascii := rstrip (lstrip s).

(** [os.path.splitext] (posixpath): the extension starts at the last dot
    of the last path component, unless that component has only dots
    before it. *)
Definition splitext (p : list ascii) : list ascii * list ascii :=
  let sepIndex := rfind_char "/" p in
  let dotIndex := rfind_char "." p in
  if (dotIndex >? sepIndex)%Z then
    if existsb (fun c => negb (Ascii.eqb c "."))
         (slice (sepIndex + 1) dotIndex p)
    then (firstn (Z.to_nat dotIndex) p, skipn (Z.to_nat dotIndex) p)
    else (p, [])
  else (p, []).

(** [os.path.basename] (posixpath). *)
Definition basename (p : list ascii) : list ascii :=
  skipn (Z.to_nat (rfind_char "/" p + 1)) p.

End PyStr.

(** ** Regular expressions, as Python's [re] matches them *)

Module Re.

Inductive regex : Type :=
| Chr (p : ascii -> bool)      (* one character of a class *)
| Eps
| Seq (r1 r2 : regex)
| Alt (r1 r2 : regex)          (* r1|r2, r1 first *)
| Opt (r : regex)              (* r?, greedy *)
| StarC (p : ascii -> bool)    (* c*, greedy, c a class *)
| Bol                          (* ^ *)
| Eol                          (* $ *)
| WordB                        (* \b *)
| NotAhead (r : regex).        (* (?!r) *)

(** A continuation receives the character before the current position
    ([None] at the start of the text) and the text left; a match yields
    the text left after it. *)
Definition cont : Type := option ascii -> list ascii -> option (list ascii).

Definition word_at (c : option ascii) : bool :=
  match c with Some x => is_word x | None => false end.

Fixpoint starC (p : ascii -> bool) (k : cont) (prev : option ascii)
    (s : list ascii) : option (list ascii) :=
  match s with
  | c :: s' =>
      if p c then
        match starC p k (Some c) s' with
        | Some r => Some r
        | None => k prev s
        end
      else k prev s
  | [] => k prev s
  end.

Fixpoint rmatch (r : regex) (k : cont) (prev : option ascii)
    (s : list ascii) : option (list ascii) :=
  match r with
  | Chr p =>
      match s with
      | c :: s' => if p c then k (Some c) s' else None
      | [] => None
      end
  | Eps => k prev s
  | Seq r1 r2 => rmatch r1 (rmatch r2 k) prev s
  | Alt r1 r2 =>
      match rmatch r1 k prev s with
      | Some x => Some x
      | None => rmatch r2 k prev s
      end
  | Opt r1 =>
      match rmatch r1 k prev s with
      | Some x => Some x
      | None => k prev s
      end
  | StarC p => starC p k prev s
  | Bol => match prev with None => k prev s | Some _ => None end
  | Eol =>
      match s with
      | [] => k prev s
      | [c] => if Ascii.eqb c "010" then k prev s else None
      | _ => None
      end
  | WordB => if xorb (word_at prev) (word_at (head s)) then k prev s else None
  | NotAhead r1 =>
      match rmatch r1 (fun _ rest => Some rest) prev s with
      | Some _ => None
      | None => k prev s
      end
  end.

(** One match attempt at the current position. *)
Definition match_at (r : regex) (prev : option ascii) (s : list ascii)
  : option (list ascii) :=
  rmatch r (fun _ rest => Some rest) prev s.

(** [re.search(r, s)] as a truth value. *)
Fixpoint search_from (r : regex) (prev : option ascii) (s : list ascii) : bool :=
  match match_at r prev s with
  | Some _ => true
  | None =>
      match s with
      | [] => false
      | c :: s' => search_from r (Some c) s'
      end
  end.

Definition search (r : regex) (s : list ascii) : bool := search_from r None s.

(** Characters consumed by a match that left [rest] of [s]. *)
Definition consumed (s rest : list ascii) : nat := length s - length rest.

(** [re.sub(r, repl, s)] for a replacement without group references.
    None of the program's patterns matches the empty string; an empty
    match is passed over. [skip] counts the characters of the current
    match still to drop. *)
Fixpoint sub_from (r : regex) (repl : list ascii) (skip : nat)
    (prev : option ascii) (s : list ascii) : list ascii :=
  match s with
  | [] => []
  | c :: s' =>
      match skip with
      | S n => sub_from r repl n (Some c) s'
      | O =>
          match match_at r prev s with
          | Some rest =>
              match consumed s rest with
              | O => c :: sub_from r repl 0 (Some c) s'
              | S n => repl ++ sub_from r repl n (Some c) s'
              end
          | None => c :: sub_from r repl 0 (Some c) s'
          end
      end
  end.

Definition sub (r : regex) (repl s : list ascii) : list ascii :=
  sub_from r repl 0 None s.

(** [re.findall(r, s)] for a pattern without groups. *)
Fixpoint findall_from (r : regex) (skip : nat) (prev : option ascii)
    (s : list ascii) : list (list ascii) :=
  match s with
  | [] => []
  | c :: s' =>
      match skip with
      | S n => findall_from r n (Some c) s'
      | O =>
          match match_at r prev s with
          | Some rest =>
              match consumed s rest with
              | O => findall_from r 0 (Some c) s'
              | S n => firstn (S n) s :: findall_from r n (Some c) s'
              end
          | None => findall_from r 0 (Some c) s'
          end
      end
  end.

Definition findall (r : regex) (s : list ascii) : list (list ascii) :=
  findall_from r 0 None s.

(** Pattern builders. *)
Fixpoint lit (l : list ascii) : regex :=
  match l with
  | [] => Eps
  | c :: l' => Seq (Chr (is_char c)) (lit l')
  end.

Fixpoint lit_nocase (l : list ascii) : regex :=
  match l with
  | [] => Eps
  | c :: l' => Seq (Chr (is_nocase c)) (lit_nocase l')
  end.

Fixpoint alts (rs : list regex) (last : regex) : regex :=
  match rs with
  | [] => last
  | r :: rs' => Alt r (alts rs' last)
  end.

Definition plusC (p : ascii -> bool) : regex := Seq (Chr p) (StarC p).

(** [.] without DOTALL. *)
Definition dot : ascii -> bool := fun c => negb (Ascii.eqb c "010").

End Re.

Import PyStr Re.

Local Open Scope string_scope.
Local Open Scope list_scope.

(** ** Filename similarity

    [calculate_filename_similarity], whose text is the same in
    [organize_documents.py], [quick_organize_files.py] and
    [streamlined_education_pdf_to_json.py]. *)

Module Similarity.

Definition solution_indicators : list string :=
  ["solution"; "solutions"; "soln"; "solns"; "sol"; "sols";
   "answer"; "answers"; "ans"; "anss"].

Definition question_indicators : list string :=
  ["question"; "questions"; "qn"; "qns"; "problem"; "problems";
   "exercise"; "exercises"].

(** [(_|\s|-|^)] and [(?:_|\s|-|$)]. *)
Definition delim_or (edge : regex) : regex :=
  alts [Chr (is_char "_"); Chr is_space; Chr (is_char "-")] edge.

(** [r'(?i)(_|\s|-|^)' + keyword + r's?(?:_|\s|-|$)']. *)
Definition indicator_pattern (keyword : string) : regex :=
  Seq (delim_or Bol)
    (Seq (lit_nocase (chars keyword))
       (Seq (Opt (Chr (is_nocase "s"))) (delim_or Eol))).

(** One [for keyword in ...: base = re.sub(..., '', base)] loop. *)
Definition remove_indicators (keywords : list string) (base : list ascii)
  : list ascii :=
  fold_left (fun b keyword => sub (indicator_pattern keyword) [] b)
    keywords base.

(** The text whose words are compared: extension removed, lowercased,
    solution then question indicators removed. *)
Definition normalized (file : string) : list ascii :=
  let base := lower (fst (splitext (chars file))) in
  remove_indicators question_indicators
    (remove_indicators solution_indicators base).

(** [set(re.findall(r'\w+', base))]. *)
Definition word_set (base : list ascii) : gset string :=
  list_to_set (map str (findall (plusC is_word) base)).

Definition words (file : string) : gset string := word_set (normalized file).

Definition is_empty (ws : gset string) : bool := Nat.eqb (size ws) 0.

Definition calculate_filename_similarity (file1 file2 : string) : Q :=
  let words1 := words file1 in
  let words2 := words file2 in
  if is_empty words1 || is_empty words2 then 0%Q
  else
    let common_words := words1 ∩ words2 in
    (Z.of_nat (size common_words)
       # Pos.of_nat (Nat.max (size words1) (size words2)))%Q.

End Similarity.

(** ** Keyword classifiers anchored at word boundaries

    [is_solution_file], [is_question_file] of [organize_documents.py] and
    [streamlined_education_pdf_to_json.py] (same text in both), and
    [is_note_file], [classify_document] of [organize_documents.py]. *)

Module OrganizeDocuments.

Definition solution_keywords : list string :=
  ["solution"; "solutions"; "soln"; "solns"; "sol"; "sols";
   "answer"; "answers"; "ans"; "anss";
   "worked"; "worked example"; "worked examples";
   "key"; "keys"; "answer key"; "answer keys";
   "suggested solutions"; "suggested solution";
   "tutor"; "teacher"; "teachers"; "tutors"].

Definition question_keywords : list string :=
  ["question"; "questions"; "qn"; "qns";
   "problem"; "problems"; "exercise"; "exercises";
   "worksheet"; "worksheets"; "assignment"; "assignments";
   "practice"; "test"; "exam"; "quiz"; "tutorial";
   "student"; "package"; "revision"].

Definition note_keywords : list string :=
  ["note"; "notes"; "lecture"; "lectures"; "summary"; "summaries";
   "chapter"; "chapters"; "topic"; "topics"; "theory"; "concept";
   "learning package"; "guide"; "handbook"; "manual"; "reference";
   "cheat sheet"; "formula"; "definition"; "explanation"].

(** [r'\b' + re.escape(keyword) + r'\b']: the keywords hold letters and
    spaces only, so the escaped keyword matches itself. *)
Definition keyword_pattern (keyword : string) : regex :=
  Seq WordB (Seq (lit (chars keyword)) WordB).

(** The loop shared by the three predicates: true at the first keyword
    found in the lowercased name. *)
Definition has_keyword (keywords : list string) (filename : string) : bool :=
  let lower_filename := lower (chars filename) in
  existsb (fun keyword => search (keyword_pattern keyword) lower_filename)
    keywords.

Definition is_solution_file : string -> bool := has_keyword solution_keywords.
Definition is_question_file : string -> bool := has_keyword question_keywords.
Definition is_note_file : string -> bool := has_keyword note_keywords.

Inductive doc_type : Type :=
| combined_question_solution
| notes_with_solutions
| notes_with_questions
| solution
| question_paper
| standalone_note
| unknown.

(** The patterns of the last branch of [classify_document]. *)
Definition bmq_or_apq : regex := Alt (lit (chars "bmq")) (lit (chars "apq")).

(** [(bmq|apq).*sol] *)
Definition code_then_sol : regex :=
  Seq bmq_or_apq (Seq (StarC dot) (lit (chars "sol"))).

(** [(bmq|apq)(?!.*sol)] *)
Definition code_without_sol : regex :=
  Seq bmq_or_apq (NotAhead (Seq (StarC dot) (lit (chars "sol")))).

(** [(ch|chapter|topic).*\d] *)
Definition chapter_then_digit : regex :=
  Seq (alts [lit (chars "ch"); lit (chars "chapter")] (lit (chars "topic")))
    (Seq (StarC dot) (Chr is_digit)).

(** [(tutor|teacher|lecturer)] *)
Definition staff_word : regex :=
  alts [lit (chars "tutor"); lit (chars "teacher")] (lit (chars "lecturer")).

Definition classify_by_pattern (filename : string) : doc_type :=
  let lower_filename := lower (chars filename) in
  if search code_then_sol lower_filename then solution
  else if search code_without_sol lower_filename then question_paper
  else if search chapter_then_digit lower_filename then standalone_note
  else if search staff_word lower_filename then notes_with_solutions
  else unknown.

Definition classify_document (filename : string) : doc_type :=
  let is_solution := is_solution_file filename in
  let is_question := is_question_file filename in
  let is_note := is_note_file filename in
  if is_solution && is_question then combined_question_solution
  else if is_solution && is_note then notes_with_solutions
  else if is_question && is_note then notes_with_questions
  else if is_solution then solution
  else if is_question then question_paper
  else if is_note then standalone_note
  else classify_by_pattern filename.

End OrganizeDocuments.

(** ** Keyword classifiers by containment

    [is_solution_file] of [quick_organize_files.py] and
    [organize_question_solution_pairs.py] (same text in both) and
    [is_question_file] of [quick_organize_files.py]. *)

Module QuickOrganize.

Definition solution_keywords : list string :=
  ["solution"; "solutions"; "soln"; "solns"; "sol"; "sols";
   "answer"; "answers"; "ans"; "anss";
   "worked"; "worked example"; "worked examples";
   "key"; "keys"; "answer key"; "answer keys"].

Definition question_keywords : list string :=
  ["question"; "questions"; "qn"; "qns";
   "problem"; "problems"; "exercise"; "exercises";
   "worksheet"; "worksheets"; "assignment"; "assignments";
   "practice"; "test"; "exam"; "quiz"].

(** [for keyword in keywords: if keyword in lower_filename: return True]. *)
Definition has_keyword (keywords : list string) (filename : string) : bool :=
  let lower_filename := lower (chars filename) in
  existsb (fun keyword => contains (chars keyword) lower_filename) keywords.

Definition is_solution_file : string -> bool := has_keyword solution_keywords.
Definition is_question_file : string -> bool := has_keyword question_keywords.

End QuickOrganize.

(** ** Base names of [organize_question_solution_pairs.py] *)

Module OrganizePairs.

Definition words_alt (ws : list string) (last : string) : regex :=
  alts (map (fun w => lit_nocase (chars w)) ws) (lit_nocase (chars last)).

Definition opt_s : regex := Opt (Chr (is_nocase "s")).

(** [(?i)(_|\s|-|^)(solution|...|keys)s?(?:_|\s|-|$)] *)
Definition solution_indicator : regex :=
  Seq (Similarity.delim_or Bol)
    (Seq (words_alt ["solution"; "solutions"; "soln"; "solns"; "sol"; "sols";
                     "answer"; "answers"; "ans"; "anss"; "worked"; "key"]
            "keys")
       (Seq opt_s (Similarity.delim_or Eol))).

(** [(?:_|\s|-|^)20\d\d(?:_|\s|-|$)] *)
Definition year_indicator : regex :=
  Seq (Similarity.delim_or Bol)
    (Seq (lit (chars "20"))
       (Seq (Chr is_digit) (Seq (Chr is_digit) (Similarity.delim_or Eol)))).

(** [(?i)(?:_|\s|-|^)(chapter|...|tut)(?:\s*\d+)?(?:_|\s|-|$)] *)
Definition prefix_indicator : regex :=
  Seq (Similarity.delim_or Bol)
    (Seq (words_alt ["chapter"; "chp"; "ch"; "topic"; "section"; "sec";
                     "part"; "tutorial"] "tut")
       (Seq (Opt (Seq (StarC is_space) (plusC is_digit))) (Similarity.delim_or Eol))).

(** [(?i)(?:_|\s|-)(revision|...|sheet)s?(?:_|\s|-|$)] *)
Definition suffix_indicator : regex :=
  Seq (alts [Chr (is_char "_"); Chr is_space] (Chr (is_char "-")))
    (Seq (words_alt ["revision"; "rev"; "practice"; "prac"; "exercise"; "ex";
                     "worksheet"] "sheet")
       (Seq opt_s (Similarity.delim_or Eol))).

Definition extract_base_name (filename : string) : string :=
  let base := fst (splitext (chars filename)) in
  let base := sub solution_indicator [] base in
  let base := sub year_indicator [] base in
  let base := sub prefix_indicator [] base in
  let base := sub suffix_indicator [] base in
  let base := sub (Chr (fun c => negb (is_word c || is_space c))) (chars " ") base in
  let base := strip (sub (plusC is_space) (chars " ") base) in
  str base.

(** [set(base.lower().split())] *)
Definition split_words (base : string) : gset string :=
  list_to_set (map str (findall (plusC (fun c => negb (is_space c)))
                          (lower (chars base)))).

(** The score of the close-match search in [find_question_solution_pairs]. *)
Definition score (q_base base_name : string) : Q :=
  let q_words := split_words q_base in
  let s_words := split_words base_name in
  let common_words := q_words ∩ s_words in
  if (0 <? Nat.max (size q_words) (size s_words))%nat
  then (Z.of_nat (size common_words)
          # Pos.of_nat (Nat.max (size q_words) (size s_words)))%Q
  else 0%Q.

End OrganizePairs.

(** ** The pairing passes

    The two loops of [find_question_solution_pairs]
    ([streamlined_education_pdf_to_json.py]) and [find_pairs_and_classify]
    ([organize_documents.py], [quick_organize_files.py]).  The three
    functions differ in the role predicates that fill the two buckets and
    in what the second loop appends. *)

Module Pairing.

(** The two variables the loops update: [pairs] and [paired_files]. *)
Record state : Type := State {
  pairs : list (string * string);
  paired_files : gset string
}.

(** [pairs.append((x, y)); paired_files.add(file1); paired_files.add(file2)] *)
Definition add_pair (st : state) (x y file1 file2 : string) : state :=
  {| pairs := pairs st ++ [(x, y)];
     paired_files := paired_files st ∪ {[file1]} ∪ {[file2]} |}.

(** [a > b] on scores. *)
Definition gt (a b : Q) : bool := negb (Qle_bool a b).

(** Truth value of [best_match]: [None] and the empty string are false. *)
Definition truthy (best_match : option string) : bool :=
  match best_match with
  | Some f => negb (String.eqb f "")
  | None => false
  end.

Section Passes.

Variable is_sol is_q : string -> bool.
Variable similarity : string -> string -> Q.
Variable similarity_threshold : Q.

(** Body of [for q_file in question_files]. *)
Definition scan_question (paired : gset string) (sol_file : string)
    (best : option string * Q) (q_file : string) : option string * Q :=
  if bool_decide (q_file ∈ paired) then best
  else
    let sim := similarity sol_file q_file in
    if gt sim similarity_threshold && gt sim (snd best)
    then (Some q_file, sim)
    else best.

Definition best_for (paired : gset string) (sol_file : string)
    (question_files : list string) : option string * Q :=
  fold_left (scan_question paired sol_file) question_files (None, 0%Q).

(** Body of [for sol_file in solution_files]. *)
Definition match_solution (question_files : list string) (st : state)
    (sol_file : string) : state :=
  if bool_decide (sol_file ∈ paired_files st) then st
  else
    let best_match := fst (best_for (paired_files st) sol_file question_files) in
    match best_match with
    | Some q_file =>
        if truthy best_match
        then add_pair st sol_file q_file sol_file q_file
        else st
    | None => st
    end.

Definition first_pass (solution_files question_files : list string) : state :=
  fold_left (match_solution question_files) solution_files
    {| pairs := []; paired_files := ∅ |}.

(** Body of [for file2 in remaining_files[i+1:]].  With [ordered] the
    solution file is put first in both branches (streamlined); without it
    the pair is [[file1, file2]] in both. *)
Definition scan_remaining (ordered : bool) (file1 : string) (st : state)
    (file2 : string) : state :=
  if bool_decide (file2 ∈ paired_files st) then st
  else if gt (similarity file1 file2) similarity_threshold then
    if is_sol file1 && is_q file2 then add_pair st file1 file2 file1 file2
    else if is_q file1 && is_sol file2 then
      if ordered then add_pair st file2 file1 file1 file2
      else add_pair st file1 file2 file1 file2
    else st
  else st.

(** [for i, file1 in enumerate(remaining_files)]. *)
Fixpoint second_pass (ordered : bool) (remaining_files : list string)
    (st : state) : state :=
  match remaining_files with
  | [] => st
  | file1 :: rest =>
      second_pass ordered rest
        (if bool_decide (file1 ∈ paired_files st) then st
         else fold_left (scan_remaining ordered file1) rest st)
  end.

Definition unpaired_of (file_list : list string) (st : state) : list string :=
  List.filter (fun f => negb (bool_decide (f ∈ paired_files st))) file_list.

Definition find_pairs (ordered : bool) (file_list : list string)
  : list (string * string) * list string :=
  let solution_files := List.filter is_sol file_list in
  let question_files := List.filter is_q file_list in
  let st := first_pass solution_files question_files in
  let remaining_files := unpaired_of file_list st in
  let st := second_pass ordered remaining_files st in
  (pairs st, unpaired_of file_list st).

End Passes.

End Pairing.

(** [find_question_solution_pairs] and what [process_batch] does with it. *)
Module Streamlined.

Definition base (f : string) : string := str (basename (chars f)).

Definition is_sol (f : string) : bool :=
  OrganizeDocuments.is_solution_file (base f)
  && negb (OrganizeDocuments.is_question_file (base f)).

Definition is_q (f : string) : bool :=
  OrganizeDocuments.is_question_file (base f)
  && negb (OrganizeDocuments.is_solution_file (base f)).

Definition similarity (file1 file2 : string) : Q :=
  Similarity.calculate_filename_similarity (base file1) (base file2).

Definition find_question_solution_pairs (file_list : list string)
    (similarity_threshold : Q) : list (string * string) * list string :=
  Pairing.find_pairs is_sol is_q similarity similarity_threshold true file_list.

(** A step of the work [process_batch] hands out. *)
Inductive job : Type :=
| pair_job (question_path solution_path : string)
| single_job (file_path : string).

(** [for solution_path, question_path in pairs:
       process_question_solution_pair(question_path, solution_path, ...)]
    then [for file_path in unpaired_files], the [max_files] cut and the
    conversions themselves left out. *)
Definition process_batch (file_list : list string) : list job :=
  let '(pairs, unpaired_files) :=
    find_question_solution_pairs file_list (7 # 10)%Q in
  map (fun p => pair_job (snd p) (fst p)) pairs
  ++ map single_job unpaired_files.

End Streamlined.

(** [find_pairs_and_classify] of [organize_documents.py] and
    [quick_organize_files.py]; the argument is what [os.listdir] gave. *)
Module FindPairsAndClassify.

(** [f.lower().endswith('.pdf')] *)
Definition is_pdf (f : string) : bool :=
  match strip_prefix (rev (chars ".pdf")) (rev (lower (chars f))) with
  | Some _ => true
  | None => false
  end.

Definition pdf_files (listing : list string) : list string :=
  List.filter is_pdf listing.

Module Documents.

Definition is_sol (f : string) : bool :=
  OrganizeDocuments.is_solution_file f
  && negb (OrganizeDocuments.is_question_file f).

Definition is_q (f : string) : bool :=
  OrganizeDocuments.is_question_file f
  && negb (OrganizeDocuments.is_solution_file f).

Definition find_pairs_and_classify (listing : list string)
    (similarity_threshold : Q)
  : list (string * string) * list (string * OrganizeDocuments.doc_type) :=
  let '(pairs, standalone_files) :=
    Pairing.find_pairs is_sol is_q Similarity.calculate_filename_similarity
      similarity_threshold false (pdf_files listing) in
  (pairs,
   map (fun file => (file, OrganizeDocuments.classify_document file))
     standalone_files).

End Documents.

Module Quick.

Section Classify.

(** [classify_standalone_file] reads the PDF; its answer per file is taken
    as given. *)
Variable classification : Type.
Variable classify_standalone_file : string -> classification.

Definition find_pairs_and_classify (listing : list string)
    (similarity_threshold : Q)
  : list (string * string) * list (string * classification) :=
  let '(pairs, standalone_files) :=
    Pairing.find_pairs QuickOrganize.is_solution_file
      QuickOrganize.is_question_file
      Similarity.calculate_filename_similarity
      similarity_threshold false (pdf_files listing) in
  (pairs,
   map (fun file => (file, classify_standalone_file file)) standalone_files).



End Classify.

End Quick.

End FindPairsAndClassify.

(** ** JSON recovery after the model call

    [extract_json_from_text], [fix_json_string], [create_fallback_json] and
    [process_with_deepseek] of [streamlined_education_pdf_to_json.py]. *)

Module JsonRecovery.

(** What [json.loads] returns; a dict keeps its keys in order. *)
#[warnings="-register-all"]
Inductive json : Type :=
| JNull
| JBool (b : bool)
| JNum (n : Q)
| JStr (s : string)
| JArr (items : list json)
| JObj (fields : list (string * json)).

(** Python truth value: [not v] is [negb (truth v)]. *)
Definition truth (v : json) : bool :=
  match v with
  | JNull => false
  | JBool b => b
  | JNum n => negb (Qeq_bool n 0)
  | JStr s => negb (String.eqb s "")
  | JArr items => match items with [] => false | _ => true end
  | JObj fields => match fields with [] => false | _ => true end
  end.

Fixpoint get (key : string) (fields : list (string * json)) : option json :=
  match fields with
  | [] => None
  | (k, v) :: rest => if String.eqb k key then Some v else get key rest
  end.

(** [d[key] = v] *)
Fixpoint set (key : string) (v : json) (fields : list (string * json))
  : list (string * json) :=
  match fields with
  | [] => [(key, v)]
  | (k, w) :: rest =>
      if String.eqb k key then (k, v) :: rest else (k, w) :: set key v rest
  end.

(** [d.update(other)] *)
Definition update (d other : list (string * json)) : list (string * json) :=
  fold_left (fun acc kv => set (fst kv) (snd kv) acc) other d.

(** [key in v] for a value known to be a dict. *)
Definition has_key (key : string) (v : json) : bool :=
  match v with
  | JObj fields => match get key fields with Some _ => true | None => false end
  | _ => false
  end.

(** [text.find(p, start)], -1 when absent. *)
Definition find_from (p text : list ascii) (start : Z) : Z :=
  match find p (skipn (Z.to_nat start) text) with
  | Some i => start + Z.of_nat i
  | None => -1
  end.

(** A call that either returns or raises an [Exception]. *)
Inductive attempt (A : Type) : Type :=
| Returned (a : A)
| Raised.
Arguments Returned {A} a.
Arguments Raised {A}.

(** What [subprocess.run(..., check=True)] did. *)
Inductive run_result : Type :=
| Completed (stdout : string)
| Failed.

Section Recovery.

(** [json.loads] on a [str]; [None] is [JSONDecodeError]. *)
Variable json_loads : string -> option json.

(** The textual rewrites of [fix_json_string], from the removal of the
    thinking block to the escaping of backslashes, applied to a [str]. *)
Variable rewrite_text : string -> string.

(** Group 1 of [re.search(r'"content"\s*:\s*(\{[^}]*\})', s, re.DOTALL)]. *)
Variable content_group : string -> option string.

(** The entries [create_fallback_json] scrapes from the text with its
    definition, formula and question patterns. *)
Variable scraped_concepts scraped_questions : string -> list json.

Definition loads_or_skip (json_str : list ascii) (otherwise : json) : json :=
  match json_loads (str json_str) with
  | Some v => v
  | None => otherwise
  end.

Definition braces_span (text : list ascii) : json :=
  let first_brace := find_from (chars "{") text 0 in
  let last_brace := rfind_char "}" text in
  if negb (first_brace =? -1)%Z && negb (last_brace =? -1)%Z
     && (first_brace <? last_brace)%Z
  then loads_or_skip (slice first_brace (last_brace + 1) text) JNull
  else JNull.

Definition single_backticks (text : list ascii) : json :=
  let json_start := find_from (chars "`{") text 0 in
  if negb (json_start =? -1)%Z then
    let json_start := (json_start + 1)%Z in
    let json_end := find_from (chars "}`") text json_start in
    if negb (json_end =? -1)%Z
    then loads_or_skip (strip (slice json_start (json_end + 1) text))
           (braces_span text)
    else braces_span text
  else braces_span text.

Definition triple_backticks (text : list ascii) : json :=
  let json_start := find_from (chars "```json") text 0 in
  if negb (json_start =? -1)%Z then
    let json_start := (json_start + 7)%Z in
    let json_end := find_from (chars "```") text json_start in
    if negb (json_end =? -1)%Z
    then loads_or_skip (strip (slice json_start json_end text))
           (single_backticks text)
    else single_backticks text
  else single_backticks text.

(** [extract_json_from_text] on a [str]; [JNull] is Python's [None]. *)
Definition extract_json_from_text (text : string) : json :=
  if String.eqb text "" then JNull else triple_backticks (chars text).

(** The last lines of [fix_json_string]. *)
Definition braced (json_str : list ascii) : list ascii :=
  let json_str := strip json_str in
  let json_str :=
    match strip_prefix (chars "{") json_str with
    | Some _ => json_str
    | None => (chars "{" ++ json_str)%list
    end in
  match strip_prefix (chars "}") (rev json_str) with
  | Some _ => json_str
  | None => (json_str ++ chars "}")%list
  end.

(** [fix_json_string] applied to what [extract_json_from_text] returned:
    [re.sub] raises [TypeError] on a value that is not a [str]. *)
Definition fix_json_string (json_str : json) : attempt string :=
  if negb (truth json_str) then Returned "{}"
  else
    match json_str with
    | JStr s => Returned (str (braced (chars (rewrite_text s))))
    | _ => Raised
    end.

Definition summary_of (text : string) : string :=
  if (200 <? String.length text)%nat
  then str (firstn 200 (chars text) ++ chars "...")%list
  else text.

Definition create_fallback_json (text : string)
    (metadata : list (string * json)) : json :=
  let concepts := scraped_concepts text in
  let questions := scraped_questions text in
  JObj [("metadata", JObj metadata);
        ("content",
         JObj [("summary", JStr (summary_of text));
               ("key_concepts", JArr (firstn 5 concepts));
               ("practice_questions", JArr (firstn 3 questions))]);
        ("related_topics", JArr []);
        ("extraction_method", JStr "fallback")].

(** [if "metadata" in parsed_json: parsed_json["metadata"].update(metadata)
     else: parsed_json["metadata"] = metadata]; a value that is not a
    dict, or a [metadata] entry that is not one, raises. *)
Definition add_metadata (parsed_json : json)
    (metadata : list (string * json)) : attempt json :=
  match parsed_json with
  | JObj fields =>
      match get "metadata" fields with
      | Some (JObj own) =>
          Returned (JObj (set "metadata" (JObj (update own metadata)) fields))
      | Some _ => Raised
      | None => Returned (JObj (set "metadata" (JObj metadata) fields))
      end
  | _ => Raised
  end.

(** [content_parsed["metadata"] = metadata] *)
Definition set_metadata (content_parsed : json)
    (metadata : list (string * json)) : attempt json :=
  match content_parsed with
  | JObj fields => Returned (JObj (set "metadata" (JObj metadata) fields))
  | _ => Raised
  end.

(** The text ['{"content": '], built around the quote character. *)
Definition content_open : string :=
  ("{" ++ String "034" ("content" ++ String "034" ": "))%string.

(** The [except json.JSONDecodeError] branch. *)
Definition content_only (fixed_json text : string)
    (metadata : list (string * json)) : json :=
  let fallback_json := create_fallback_json text metadata in
  match content_group fixed_json with
  | Some group1 =>
      match json_loads (content_open ++ group1 ++ "}")%string with
      | Some content_parsed =>
          match set_metadata content_parsed metadata with
          | Returned r => r
          | Raised => fallback_json
          end
      | None => fallback_json
      end
  | None => fallback_json
  end.

(** [process_with_deepseek] from the result of the model call on. *)
Definition process_with_deepseek (run : run_result) (text : string)
    (metadata : list (string * json)) : json :=
  match run with
  | Failed => create_fallback_json text metadata
  | Completed stdout =>
      let output := str (strip (chars stdout)) in
      let json_text := extract_json_from_text output in
      match fix_json_string json_text with
      | Raised => create_fallback_json text metadata
      | Returned fixed_json =>
          match json_loads fixed_json with
          | Some parsed_json =>
              match add_metadata parsed_json metadata with
              | Returned r => r
              | Raised => create_fallback_json text metadata
              end
          | None => content_only fixed_json text metadata
          end
      end
  end.

End Recovery.

(** A [json.loads] that knows the empty object only, to run the section
    on an output without JSON. *)
Definition loads_empty_object (s : string) : option json :=
  if String.eqb s "{}" then Some (JObj []) else None.

End JsonRecovery.

(** * Further functions of the scripts *)

(** ** Chunks of text and the difficulty of a question

    [chunk_text] and [estimate_difficulty] of
    [streamlined_education_pdf_to_json.py]. *)

Module Chunks.

(** Put a character in front of the first piece. *)
Definition add_head (c : ascii) (pieces : list (list ascii))
  : list (list ascii) :=
  match pieces with
  | p :: rest => (c :: p) :: rest
  | [] => [[c]]
  end.

(** [text.split("\n\n")] *)
Fixpoint split_blank (s : list ascii) : list (list ascii) :=
  match s with
  | [] => [[]]
  | c :: s' =>
      match s' with
      | d :: s'' =>
          if Ascii.eqb c "010" && Ascii.eqb d "010"
          then [] :: split_blank s''
          else add_head c (split_blank s')
      | [] => [[c]]
      end
  end.

(** [sep.join(items)] *)
Fixpoint join (sep : list ascii) (items : list (list ascii)) : list ascii :=
  match items with
  | [] => []
  | x :: rest =>
      match rest with
      | [] => x
      | _ :: _ => x ++ sep ++ join sep rest
      end
  end.

Definition blank_line : list ascii := ["010"%char; "010"%char].

(** One of [.!?], the class of the lookbehind. *)
Definition is_stop (c : ascii) : bool :=
  Ascii.eqb c "." || Ascii.eqb c "!" || Ascii.eqb c "?".

(** [re.split(r'(?<=[.!?])\s+', s)]: a separator is a run of white space
    that starts right after one of [.!?].  [after_stop] says that the
    character before is one of them, [in_gap] that a separator is being
    read. *)
Fixpoint sentences_from (after_stop in_gap : bool) (s : list ascii)
  : list (list ascii) :=
  match s with
  | [] => [[]]
  | c :: s' =>
      if is_space c && (in_gap || after_stop) then
        if in_gap then sentences_from false true s'
        else [] :: sentences_from false true s'
      else add_head c (sentences_from (is_stop c) false s')
  end.

Definition split_sentences (s : list ascii) : list (list ascii) :=
  sentences_from false false s.

(** The variables of the loop: [chunks], [current_chunk], [current_size]. *)
Record state : Type := State {
  chunks : list (list ascii);
  current_chunk : list (list ascii);
  current_size : Z
}.

Definition len (s : list ascii) : Z := Z.of_nat (length s).

(** What both loops do with a sentence or a paragraph: start a new chunk
    when it does not fit, add it to the current one when it does. *)
Definition place (max_chunk_size : Z) (st : state) (piece : list ascii)
  : state :=
  if (current_size st + len piece + 2 >? max_chunk_size)%Z then
    {| chunks := chunks st ++ [join blank_line (current_chunk st)];
       current_chunk := [piece];
       current_size := len piece |}
  else
    {| chunks := chunks st;
       current_chunk := current_chunk st ++ [piece];
       current_size := (current_size st + len piece + 2)%Z |}.

(** Body of [for paragraph in paragraphs]. *)
Definition place_paragraph (max_chunk_size : Z) (st : state)
    (paragraph : list ascii) : state :=
  if (len paragraph >? max_chunk_size)%Z
  then fold_left (place max_chunk_size) (split_sentences paragraph) st
  else place max_chunk_size st paragraph.

Definition chunk_text (text : string) (max_chunk_size : Z) : list string :=
  if String.eqb text "" then ["No text content available."]
  else
    let paragraphs := split_blank (chars text) in
    let st :=
      fold_left (place_paragraph max_chunk_size) paragraphs
        {| chunks := []; current_chunk := []; current_size := 0 |} in
    let chunks :=
      match current_chunk st with
      | [] => chunks st
      | _ :: _ => chunks st ++ [join blank_line (current_chunk st)]
      end in
    match chunks with
    | [] => ["No meaningful content could be extracted."]
    | _ :: _ => map str chunks
    end.

Definition advanced_terms : list string :=
  ["prove"; "derive"; "show that"; "hence"; "therefore"; "deduce";
   "complex"; "advanced"].

Definition estimate_difficulty (question : string) : string :=
  let lower_q := lower (chars question) in
  let advanced_count :=
    length (List.filter (fun term => contains (chars term) lower_q)
              advanced_terms) in
  let length_factor := (Z.of_nat (String.length question) # 200)%Q in
  let difficulty_score :=
    (inject_Z (Z.of_nat advanced_count) + length_factor)%Q in
  if Pairing.gt difficulty_score 3 then "Hard"
  else if Pairing.gt difficulty_score (15 # 10) then "Medium"
  else "Easy".

End Chunks.

(** ** Directory names of the pairs

    The names [organize_files] gives the directory of a pair: from the
    first file of the pair in [organize_documents.py] and
    [quick_organize_files.py] (same text), from the base name in
    [organize_question_solution_pairs.py]. *)

Module OrganizeFiles.

(** [re.sub(r'[^\w\s-]', '', os.path.splitext(group[0])[0])] then
    [re.sub(r'\s+', '_', pair_name)]; the directory is this name followed
    by an underscore and the number of the pair. *)
Definition pair_name (first_file : string) : string :=
  let pair_name :=
    sub (Chr (fun c => negb (is_word c || is_space c || is_char "-" c))) []
      (fst (splitext (chars first_file))) in
  str (sub (plusC is_space) (chars "_") pair_name).

(** [base_name.replace(' ', '_')] *)
Definition base_dir_name (base_name : string) : string :=
  str (map (fun c => if Ascii.eqb c " " then "_"%char else c)
         (chars base_name)).

End OrganizeFiles.

(** ** The batch and its limit

    The two loops of [process_batch] in
    [streamlined_education_pdf_to_json.py] with their counter; [converts]
    tells whether the call for a job returns ([true]) or raises. *)

Module Batch.

Section Run.

Variable converts : Streamlined.job -> bool.
Variable max_files : Z.

(** One [for] loop: [break] once [processed_count >= max_files]; a
    conversion that raises is reported and not counted.  The result is the
    conversions that were started and the counter. *)
Fixpoint run (jobs : list Streamlined.job) (processed_count : Z)
  : list Streamlined.job * Z :=
  match jobs with
  | [] => ([], processed_count)
  | job :: rest =>
      if (processed_count >=? max_files)%Z then ([], processed_count)
      else
        let '(started, n) :=
          run rest (if converts job then processed_count + 1
                    else processed_count)%Z in
        (job :: started, n)
  end.

Definition process_batch (file_list : list string)
  : list Streamlined.job * Z :=
  let '(pairs, unpaired_files) :=
    Streamlined.find_question_solution_pairs file_list (7 # 10)%Q in
  let '(started_pairs, processed_count) :=
    run (map (fun p => Streamlined.pair_job (snd p) (fst p)) pairs) 0 in
  let '(started_files, processed_count) :=
    run (map Streamlined.single_job unpaired_files) processed_count in
  (started_pairs ++ started_files, processed_count).

End Run.

End Batch.

(** ** Groups by base name

    [find_question_solution_pairs] of
    [organize_question_solution_pairs.py]; a dict is the list of its
    items in the order the keys came in. *)

Module PairsByBaseName.

(** [d[key] = v] *)
Fixpoint store (key v : string) (d : list (string * string))
  : list (string * string) :=
  match d with
  | [] => [(key, v)]
  | (k, w) :: rest =>
      if String.eqb k key then (k, v) :: rest else (k, w) :: store key v rest
  end.

(** [d[key].append(f)] on a [defaultdict(list)] *)
Fixpoint append_to (key f : string) (d : list (string * list string))
  : list (string * list string) :=
  match d with
  | [] => [(key, [f])]
  | (k, files) :: rest =>
      if String.eqb k key then (k, files ++ [f]) :: rest
      else (k, files) :: append_to key f rest
  end.

(** [key in d] *)
Definition has_key (key : string) (d : list (string * list string)) : bool :=
  existsb (fun kv => String.eqb (fst kv) key) d.

(** [f in files] *)
Definition mem (f : string) (files : list string) : bool :=
  existsb (String.eqb f) files.

(** Body of [for q_base in pairs.keys()]. *)
Definition scan_base (base_name : string) (best : option string * Q)
    (q_base : string) : option string * Q :=
  let score := OrganizePairs.score q_base base_name in
  if Pairing.gt score (1 # 2) && Pairing.gt score (snd best)
  then (Some q_base, score)
  else best.

(** Body of [for base_name, s_file in solution_bases.items()]. *)
Definition place_solution (pairs : list (string * list string))
    (item : string * string) : list (string * list string) :=
  let base_name := fst item in
  let s_file := snd item in
  if has_key base_name pairs then append_to base_name s_file pairs
  else
    let best_match :=
      fst (fold_left (scan_base base_name) (map fst pairs) (None, 0%Q)) in
    match best_match with
    | Some q_base =>
        if Pairing.truthy best_match then append_to q_base s_file pairs
        else append_to base_name s_file pairs
    | None => append_to base_name s_file pairs
    end.

(** [{extract_base_name(f): f for f in solution_files}] *)
Definition solution_bases (solution_files : list string)
  : list (string * string) :=
  fold_left (fun d f => store (OrganizePairs.extract_base_name f) f d)
    solution_files [].

(** The groups before the files are told apart by the size of the group. *)
Definition groups (listing : list string) : list (string * list string) :=
  let pdf_files := FindPairsAndClassify.pdf_files listing in
  let solution_files := List.filter QuickOrganize.is_solution_file pdf_files in
  let question_files :=
    List.filter (fun f => negb (mem f solution_files)) pdf_files in
  let pairs :=
    fold_left
      (fun d q_file => append_to (OrganizePairs.extract_base_name q_file) q_file d)
      question_files [] in
  fold_left place_solution (solution_bases solution_files) pairs.

Definition find_question_solution_pairs (listing : list string)
  : list (string * list string) * list string :=
  let pairs := groups listing in
  let unpaired :=
    flat_map (fun kv => match snd kv with [f] => [f] | _ => [] end) pairs in
  let pairs := List.filter (fun kv => (1 <? length (snd kv))%nat) pairs in
  (pairs, unpaired).

End PairsByBaseName.

(** ** The solution of a question

    [find_matching_solution] of [streamlined_education_pdf_to_json.py]. *)

Module MatchingSolution.

(** [re.split(r, s)] for a pattern without groups that does not match the
    empty string: the pieces between the matches.  [skip] counts the
    characters of the current match still to drop, [piece] is the piece in
    hand. *)
Fixpoint split_from (r : regex) (skip : nat) (prev : option ascii)
    (s piece : list ascii) : list (list ascii) :=
  match s with
  | [] => [piece]
  | c :: s' =>
      match skip with
      | S n => split_from r n (Some c) s' piece
      | O =>
          match match_at r prev s with
          | Some rest =>
              match consumed s rest with
              | O => split_from r 0 (Some c) s' (piece ++ [c])
              | S n => piece :: split_from r n (Some c) s' []
              end
          | None => split_from r 0 (Some c) s' (piece ++ [c])
          end
      end
  end.

Definition split (r : regex) (s : list ascii) : list (list ascii) :=
  split_from r 0 None s [].

(** [(?=r)] *)
Definition ahead (r : regex) : regex := NotAhead (NotAhead r).

Definition newline : regex := Chr (is_char "010").

(** [\d+\.|\(\d+\)|\[\d+\]|Solution] *)
Definition solution_start : regex :=
  alts [Seq (plusC is_digit) (Chr (is_char "."));
        Seq (Chr (is_char "(")) (Seq (plusC is_digit) (Chr (is_char ")")));
        Seq (Chr (is_char "[")) (Seq (plusC is_digit) (Chr (is_char "]")))]
    (lit (chars "Solution")).

(** [\n\s*\n\s*(?=\d+\.|\(\d+\)|\[\d+\]|Solution)] *)
Definition chunk_break : regex :=
  Seq newline
    (Seq (StarC is_space)
       (Seq newline (Seq (StarC is_space) (ahead solution_start)))).

Definition solution_chunks (solution_text : string) : list (list ascii) :=
  split chunk_break (chars solution_text).

(** [re.sub(r'[^\w\s]', ' ', question.lower()).split()] *)
Definition question_words (question : string) : list (list ascii) :=
  findall (plusC (fun c => negb (is_space c)))
    (sub (Chr (fun c => negb (is_word c || is_space c))) (chars " ")
       (lower (chars question))).

Definition common_words : list string :=
  ["what"; "when"; "where"; "which"; "find"; "calculate"; "determine"].

(** [len(w) > 3 and w not in [...]] *)
Definition significant (w : list ascii) : bool :=
  (3 <? length w)%nat && negb (existsb (String.eqb (str w)) common_words).

Definition significant_words (question : string) : list (list ascii) :=
  List.filter significant (question_words question).

(** [sum(1 for word in significant_words if word in chunk_lower)] *)
Definition score (words : list (list ascii)) (chunk : list ascii) : Z :=
  Z.of_nat (length (List.filter (fun word => contains word (lower chunk)) words)).

(** Body of [for chunk in solution_chunks]. *)
Definition scan_chunk (words : list (list ascii)) (best : list ascii * Z)
    (chunk : list ascii) : list ascii * Z :=
  if (score words chunk >? snd best)%Z then (chunk, score words chunk)
  else best.

(** [min(3, len(significant_words) / 2)] *)
Definition enough (words : list (list ascii)) : Q :=
  let half := (Z.of_nat (length words) # 2)%Q in
  if Pairing.gt 3 half then half else 3%Q.

Definition find_matching_solution (question solution_text : string) : string :=
  let words := significant_words question in
  let best :=
    fold_left (scan_chunk words) (solution_chunks solution_text) ([], 0%Z) in
  if Pairing.gt (inject_Z (snd best)) (enough words)
  then str (strip (fst best))
  else "".

End MatchingSolution.

(** ** A question file with its solution file

    [process_question_solution_pair] of
    [streamlined_education_pdf_to_json.py], from the two extracted texts
    and the dict that [extract_metadata] returned on; writing the result
    to a file is left out. *)

Module QuestionSolutionPair.

Import JsonRecovery.

(** The lines of a text, joined by newlines. *)
Definition unlines (lines : list string) : string :=
  String.concat (String "010" "") lines.

(** The prompt, with [question_text[:5000]] and [solution_text[:5000]]. *)
Definition pair_prompt (question_text solution_text : string) : string :=
  unlines
    ["";
     "You are an expert educational content analyzer. You need to extract questions from a question document and match them with their solutions from a solution document.";
     "";
     "QUESTION DOCUMENT:";
     str (firstn 5000 (chars question_text));
     "";
     "SOLUTION DOCUMENT:";
     str (firstn 5000 (chars solution_text));
     "";
     "Please analyze these documents and create a structured JSON with the following:";
     "1. A brief summary of the topic covered";
     "2. Key mathematical concepts presented";
     "3. A list of practice questions with their corresponding solutions";
     "";
     "For each practice question, include:";
     "- The complete question text";
     "- The corresponding solution from the solution document";
     "- An estimated difficulty level (Easy, Medium, Hard)";
     "";
     "Focus on creating clear mappings between questions and their solutions.";
     ""].

(** [metadata["document_type"] = ...] and the two file names. *)
Definition pair_metadata (question_path solution_path : string)
    (extracted : list (string * json)) : list (string * json) :=
  set "solution_file" (JStr (Streamlined.base solution_path))
    (set "question_file" (JStr (Streamlined.base question_path))
       (set "document_type" (JStr "question_solution_pair") extracted)).

Definition combined_summary (question_path solution_path : string) : string :=
  ("Combined document containing questions from "
   ++ Streamlined.base question_path
   ++ " and solutions from "
   ++ Streamlined.base solution_path)%string.

(** The entry of one question in the structured fallback. *)
Definition practice_question (solution_text : string) (i : Z)
    (question : string) : json :=
  let solution :=
    MatchingSolution.find_matching_solution question solution_text in
  JObj [("question_number", JNum (inject_Z i));
        ("question_text", JStr question);
        ("solution",
         JStr (if String.eqb solution "" then "Solution not found"
               else solution));
        ("difficulty_level", JStr (Chunks.estimate_difficulty question))].

(** [for i, question in enumerate(questions, i)] *)
Fixpoint practice_questions (solution_text : string) (i : Z)
    (questions : list string) : list json :=
  match questions with
  | [] => []
  | question :: rest =>
      practice_question solution_text i question
      :: practice_questions solution_text (i + 1) rest
  end.

Definition basic_fallback
    (question_path solution_path question_text solution_text : string)
    (metadata : list (string * json)) : json :=
  JObj [("metadata", JObj metadata);
        ("content",
         JObj [("summary", JStr (combined_summary question_path solution_path));
               ("question_document",
                JStr (str (firstn 1000 (chars question_text))));
               ("solution_document",
                JStr (str (firstn 1000 (chars solution_text))))]);
        ("extraction_method", JStr "basic_fallback")].

Section Pair.

Variable json_loads : string -> option json.
Variable rewrite_text : string -> string.
Variable content_group : string -> option string.
Variable scraped_concepts scraped_questions : string -> list json.

(** [extract_questions], whose patterns are not modelled: any function
    from the text to a list of questions. *)
Variable extract_questions : string -> list string.

(** [extract_json_from_text] on any value: a dict comes back as it is, a
    false value gives [None], and [text.find] raises on what is left that
    is not a [str]. *)
Definition extract_json_from_value (text : json) : attempt json :=
  match text with
  | JObj _ => Returned text
  | JStr s => Returned (extract_json_from_text json_loads s)
  | _ => if negb (truth text) then Returned JNull else Raised
  end.

Definition structured_fallback
    (question_path solution_path question_text solution_text : string)
    (metadata : list (string * json)) : json :=
  JObj [("metadata", JObj metadata);
        ("content",
         JObj [("summary", JStr (combined_summary question_path solution_path));
               ("key_concepts", JArr []);
               ("practice_questions",
                JArr (practice_questions solution_text 1
                        (extract_questions question_text)))]);
        ("extraction_method", JStr "structured_fallback")].

Definition process_question_solution_pair (run : run_result)
    (question_path solution_path question_text solution_text : string)
    (extracted : list (string * json)) : json :=
  let metadata := pair_metadata question_path solution_path extracted in
  let prompt := pair_prompt question_text solution_text in
  let ai_response :=
    process_with_deepseek json_loads rewrite_text content_group
      scraped_concepts scraped_questions run prompt metadata in
  match extract_json_from_value ai_response with
  | Returned result =>
      if negb (truth result)
      then structured_fallback question_path solution_path question_text
             solution_text metadata
      else result
  | Raised =>
      basic_fallback question_path solution_path question_text solution_text
        metadata
  end.

End Pair.

End QuestionSolutionPair.

(** * Predicates of the statements *)

(** ** Keywords in a text *)

(** The character before the position reached after reading [read]. *)
Definition last_or (prev : option ascii) (read : list ascii) : option ascii :=
  match last read with
  | Some c => Some c
  | None => prev
  end.

(** A keyword that starts and ends with a word character. *)
Definition wordy (kw : list ascii) : bool :=
  word_at (head kw) && word_at (last kw).

(** [kw] stands in [text] with no word character on either side. *)
Definition whole_word (kw text : list ascii) : Prop :=
  exists pre post, text = (pre ++ kw ++ post)%list
                   /\ word_at (last pre) = false
                   /\ word_at (head post) = false.

(** [kw] occurs somewhere in [text]. *)
Definition substring (kw text : list ascii) : Prop :=
  exists pre post, text = (pre ++ kw ++ post)%list.

(** ** Pairs and partitions *)

Module PairingProps.

Import Pairing.

(** The files of a list of pairs, and what it is for pairs and a list of
    unpaired files to split an input. *)
Definition members (ps : list (string * string)) : list string :=
  flat_map (fun p => [fst p; snd p]) ps.

Definition in_pair (f : string) (p : string * string) : Prop :=
  f = fst p \/ f = snd p.

(** No file is in two pairs. *)
Definition apart (ps : list (string * string)) : Prop :=
  forall i j p q f,
    ps !! i = Some p -> ps !! j = Some q ->
    in_pair f p -> in_pair f q -> i = j.


(** A state whose set of paired files is the files of its pairs, with no
    file in two pairs and every file from the input. *)
Record sound (input : list string) (st : state) : Prop := Sound {
  paired_are_members :
    forall f, f ∈ paired_files st <-> In f (members (pairs st));
  pairs_apart : apart (pairs st);
  members_of_input : forall f, In f (members (pairs st)) -> In f input
}.

Section Roles.

Variable is_sol is_q : string -> bool.
Variable similarity : string -> string -> Q.
Variable similarity_threshold : Q.

(** Every pair of the first loop is a solution file then a question file. *)
Definition roles (p : string * string) : Prop :=
  is_sol (fst p) = true /\ is_q (snd p) = true.

(** The solution files of [done] that stayed unpaired have no unpaired
    question file above the threshold. *)
Definition settled (question_files done : list string) (st : state) : Prop :=
  forall sol_file, In sol_file done -> sol_file ∉ paired_files st ->
  forall q_file, In q_file question_files -> q_file ∉ paired_files st ->
    gt (similarity sol_file q_file) similarity_threshold = false.

(** No two unpaired files of [files] with complementary roles are above
    the threshold. *)
Definition quiet (files : list string) (st : state) : Prop :=
  forall file1 file2, In file1 files -> In file2 files ->
    file1 ∉ paired_files st -> file2 ∉ paired_files st ->
    gt (similarity file1 file2) similarity_threshold = true ->
    is_sol file1 && is_q file2 = false /\ is_q file1 && is_sol file2 = false.

End Roles.

End PairingProps.

(** ** Predicates of the further properties *)

(** The dict under the key [metadata] of a result, when there is one. *)
Definition result_metadata (v : JsonRecovery.json)
  : option (list (string * JsonRecovery.json)) :=
  match v with
  | JsonRecovery.JObj fields =>
      match JsonRecovery.get "metadata" fields with
      | Some (JsonRecovery.JObj m) => Some m
      | _ => None
      end
  | _ => None
  end.

(** The sentences and paragraphs that [chunk_text] places one by one: a
    paragraph longer than the chunk size counts by its sentences. *)
Definition pieces (text : string) (max_chunk_size : Z) : list (list ascii) :=
  flat_map
    (fun paragraph =>
       if (Chunks.len paragraph >? max_chunk_size)%Z
       then Chunks.split_sentences paragraph
       else [paragraph])
    (Chunks.split_blank (chars text)).

(** The size [chunk_text] counts for a list of pieces: two more than its
    length for each. *)
Definition counted (items : list (list ascii)) : Z :=
  fold_right (fun p n => (Chunks.len p + 2 + n)%Z) 0%Z items.

(** What [re.sub] does with a run-of-a-class pattern: each run of the
    class becomes one replacement.  [in_run] says that the character
    before was of the class. *)
Fixpoint squeeze (p : ascii -> bool) (repl : list ascii) (in_run : bool)
    (s : list ascii) : list ascii :=
  match s with
  | [] => []
  | c :: s' =>
      if p c then
        if in_run then squeeze p repl true s'
        else repl ++ squeeze p repl true s'
      else c :: squeeze p repl false s'
  end.

(** The text after the characters of the class it starts with. *)
Fixpoint skip_class (p : ascii -> bool) (s : list ascii) : list ascii :=
  match s with
  | c :: s' => if p c then skip_class p s' else s
  | [] => []
  end.

(** No two spaces in a row. *)
Fixpoint single_spaced (l : list ascii) : Prop :=
  match l with
  | a :: t =>
      match t with
      | b :: _ => ~ (a = " "%char /\ b = " "%char) /\ single_spaced t
      | [] => True
      end
  | [] => True
  end.

(** Words separated by single spaces: word characters and spaces only, no
    space at either end and no two spaces in a row. *)
Definition spaced_words (l : list ascii) : Prop :=
  Forall (fun c => is_word c = true \/ c = " "%char) l
  /\ (forall c, head l = Some c -> is_word c = true)
  /\ (forall c, last l = Some c -> is_word c = true)
  /\ single_spaced l.

(** A file that [find_question_solution_pairs] of
    [organize_question_solution_pairs.py] reports, in a group or alone. *)
Definition reported (result : list (string * list string) * list string)
    (f : string) : Prop :=
  (exists kv, In kv (fst result) /\ In f (snd kv)) \/ In f (snd result).

(** [f] is in [files] with no later file of the same base name. *)
Definition last_of_its_base (f : string) (files : list string) : Prop :=
  exists before after,
    files = before ++ f :: after
    /\ forall g, In g after ->
         OrganizePairs.extract_base_name g <> OrganizePairs.extract_base_name f.


(** The files grouped under [key]: [pairs[key]] where the key is present. *)
Fixpoint group_of (key : string) (d : list (string * list string))
  : list string :=
  match d with
  | [] => []
  | (k, files) :: rest =>
      if String.eqb k key then files else group_of key rest
  end.


(** What the loops of the pairing keep about the scores. *)
Module ChoiceProps.

Import Pairing.

Section Choice.

Variable similarity : string -> string -> Q.
Variable similarity_threshold : Q.

(** The best match so far carries its own score, above the threshold. *)
Definition scored (sol_file : string) (best : option string * Q) : Prop :=
  match fst best with
  | Some q_file =>
      snd best = similarity sol_file q_file
      /\ gt (snd best) similarity_threshold = true
  | None => True
  end.

(** A pair above the threshold. *)
Definition above (p : string * string) : Prop :=
  gt (similarity (fst p) (snd p)) similarity_threshold = true.

(** No question file left unpaired scores higher with the solution file of
    a pair than its partner. *)
Definition preferred (question_files : list string) (st : state) : Prop :=
  forall sol_file q_file, In (sol_file, q_file) (pairs st) ->
  forall other, In other question_files -> other ∉ paired_files st ->
    (similarity sol_file other <= similarity sol_file q_file)%Q.

End Choice.

End ChoiceProps.

(** What [chunk_text] keeps while it places the pieces. *)
Module ChunkProps.

Import Chunks.

(** The state while [seen] has been placed: the size counted is at least
    the length of the chunk in hand; that chunk fits or is a single piece;
    so does every chunk put aside. *)
Definition within (max_chunk_size : Z) (seen : list (list ascii)) (st : state)
  : Prop :=
  (len (join blank_line (current_chunk st)) <= current_size st)%Z
  /\ ((current_size st <= max_chunk_size)%Z
      \/ exists p, current_chunk st = [p] /\ In p seen)
  /\ Forall (fun c => (len c <= max_chunk_size)%Z \/ In c seen) (chunks st).

(** Every piece of [seen] is inside a chunk put aside or is in hand. *)
Definition kept (seen : list (list ascii)) (st : state) : Prop :=
  forall piece, In piece seen ->
    (exists c, In c (chunks st) /\ substring piece c)
    \/ In piece (current_chunk st).

End ChunkProps.

(** A value that [json_loads] gave for a piece of the text. *)
Definition parsed_from (json_loads : string -> option JsonRecovery.json)
    (text : list ascii) (v : JsonRecovery.json) : Prop :=
  exists piece, substring piece text /\ json_loads (str piece) = Some v.


(** Every character, to check a class on. *)
Definition all_ascii : list ascii := map ascii_of_nat (seq 0 256).

(** Every character that a match of [r] consumes is of the class [q]:
    the classes of [r], those under a lookahead apart, lie within [q]. *)
Fixpoint consumes_only (q : ascii -> bool) (r : regex) : bool :=
  match r with
  | Chr p | StarC p => forallb (fun c => implb (p c) (q c)) all_ascii
  | Seq r1 r2 | Alt r1 r2 => consumes_only q r1 && consumes_only q r2
  | Opt r1 => consumes_only q r1
  | Eps | Bol | Eol | WordB | NotAhead _ => true
  end.

(** * Properties *)

(** ** Similarity *)

Section SimilarityFacts.

Import Similarity.

Lemma is_empty_true (ws : gset string) : is_empty ws = true <-> ws = ∅.
Proof.
  unfold is_empty. rewrite Nat.eqb_eq, size_empty_iff.
  split; [apply leibniz_equiv | intros ->; reflexivity].
Qed.

Lemma is_empty_false (ws : gset string) : is_empty ws = false <-> ws ≠ ∅.
Proof.
  rewrite <- is_empty_true. destruct (is_empty ws); split; congruence.
Qed.

Lemma size_pos_of_nonempty (ws : gset string) : ws ≠ ∅ -> (0 < size ws)%nat.
Proof.
  intros H. destruct (size ws) eqn:E; [|lia].
  apply size_empty_iff, leibniz_equiv in E. contradiction.
Qed.

Lemma Zpos_of_nat (n : nat) : (0 < n)%nat -> Z.pos (Pos.of_nat n) = Z.of_nat n.
Proof.
  intros H. rewrite <- positive_nat_Z. rewrite Nat2Pos.id; [reflexivity | lia].
Qed.

(** The score of two names with words on both sides. *)
Lemma similarity_nonempty (file1 file2 : string) :
  words file1 ≠ ∅ -> words file2 ≠ ∅ ->
  calculate_filename_similarity file1 file2
  = (Z.of_nat (size (words file1 ∩ words file2))
       # Pos.of_nat (Nat.max (size (words file1)) (size (words file2))))%Q.
Proof.
  intros H1 H2. unfold calculate_filename_similarity.
  apply is_empty_false in H1, H2. rewrite H1, H2. reflexivity.
Qed.

Lemma similarity_empty (file1 file2 : string) :
  words file1 = ∅ \/ words file2 = ∅ ->
  calculate_filename_similarity file1 file2 = 0%Q.
Proof.
  intros H. unfold calculate_filename_similarity.
  destruct H as [H|H]; apply is_empty_true in H; rewrite H;
    [reflexivity | now rewrite orb_true_r].
Qed.

Lemma similarity_sym (file1 file2 : string) :
  calculate_filename_similarity file1 file2
  = calculate_filename_similarity file2 file1.
Proof.
  unfold calculate_filename_similarity.
  rewrite (orb_comm (is_empty (words file2))).
  rewrite (intersection_comm_L (words file2)).
  rewrite (Nat.max_comm (size (words file2))). reflexivity.
Qed.

Lemma similarity_range (file1 file2 : string) :
  (0 <= calculate_filename_similarity file1 file2 <= 1)%Q.
Proof.
  unfold calculate_filename_similarity.
  destruct (is_empty (words file1)) eqn:E1; [split; discriminate|].
  destruct (is_empty (words file2)) eqn:E2; [split; discriminate|].
  cbn [orb]. apply is_empty_false, size_pos_of_nonempty in E1.
  assert (Hle : (size (words file1 ∩ words file2) <= size (words file1))%nat)
    by (apply subseteq_size, intersection_subseteq_l).
  unfold Qle; cbn [Qnum Qden]. rewrite Zpos_of_nat by lia. split; lia.
Qed.

End SimilarityFacts.

(** ** Matching a keyword *)

Section MatcherFacts.

Lemma last_or_cons prev c read : last_or prev (c :: read) = last_or (Some c) read.
Proof.
  unfold last_or. destruct read as [|d read]; [reflexivity|].
  change (last (c :: d :: read)) with (last (d :: read)).
  destruct (last (d :: read)) eqn:E; [reflexivity|].
  apply last_None in E. discriminate.
Qed.

Lemma strip_prefix_spec (p s rest : list ascii) :
  strip_prefix p s = Some rest <-> s = (p ++ rest)%list.
Proof.
  revert s. induction p as [|a p IH]; intros s; cbn.
  - split; congruence.
  - destruct s as [|c s]; [split; discriminate|].
    destruct (Ascii.eqb a c) eqn:E.
    + apply Ascii.eqb_eq in E as ->. rewrite IH. split; congruence.
    + apply Ascii.eqb_neq in E. split; [discriminate | congruence].
Qed.

Lemma rmatch_lit (kw : list ascii) (k : cont) prev s :
  rmatch (lit kw) k prev s
  = match strip_prefix kw s with
    | Some rest => k (last_or prev kw) rest
    | None => None
    end.
Proof.
  revert prev s. induction kw as [|a kw IH]; intros prev s; cbn.
  - reflexivity.
  - destruct s as [|c s]; [reflexivity|]. unfold is_char.
    destruct (Ascii.eqb a c) eqn:E; [|reflexivity].
    rewrite IH. apply Ascii.eqb_eq in E as ->.
    rewrite last_or_cons. reflexivity.
Qed.

Lemma search_from_spec (r : regex) prev s :
  search_from r prev s = true
  <-> exists pre post, s = (pre ++ post)%list
                       /\ match_at r (last_or prev pre) post <> None.
Proof.
  revert prev. induction s as [|c s IH]; intros prev; cbn [search_from].
  - destruct (match_at r prev []) eqn:E.
    + split; [|reflexivity]. intros _. exists [], []. split; [reflexivity|].
      cbn. congruence.
    + split; [discriminate|]. intros (pre & post & Hs & Hm).
      symmetry in Hs. apply app_eq_nil in Hs as [-> ->]. contradiction.
  - destruct (match_at r prev (c :: s)) eqn:E.
    + split; [|reflexivity]. intros _. exists [], (c :: s).
      split; [reflexivity|]. cbn. congruence.
    + rewrite IH. split.
      * intros (pre & post & -> & Hm). exists (c :: pre), post.
        split; [reflexivity|]. now rewrite last_or_cons.
      * intros (pre & post & Hs & Hm). destruct pre as [|d pre].
        -- cbn in Hs, Hm. subst post. contradiction.
        -- cbn in Hs. injection Hs as <- ->. exists pre, post.
           split; [reflexivity|]. now rewrite last_or_cons in Hm.
Qed.

Lemma match_keyword (kw : list ascii) prev s :
  wordy kw = true ->
  match_at (OrganizeDocuments.keyword_pattern (str kw)) prev s <> None
  <-> word_at prev = false
      /\ exists rest, s = (kw ++ rest)%list /\ word_at (head rest) = false.
Proof.
  intros Hw. apply andb_true_iff in Hw as [Hh Hl].
  unfold match_at, OrganizeDocuments.keyword_pattern, chars.
  rewrite list_ascii_of_string_of_list_ascii. cbn [rmatch].
  rewrite rmatch_lit.
  destruct (strip_prefix kw s) as [rest|] eqn:E.
  - apply strip_prefix_spec in E. subst s.
    assert (Hhead : word_at (head (kw ++ rest)%list) = true).
    { destruct kw; [discriminate Hh | exact Hh]. }
    assert (Hlast : word_at (last_or prev kw) = true).
    { unfold last_or. destruct (last kw); [exact Hl | discriminate Hl]. }
    rewrite Hhead, Hlast.
    destruct (word_at prev); cbn [xorb negb].
    { split; [congruence | intros [? _]; congruence]. }
    destruct (word_at (head rest)) eqn:Er; cbn [xorb negb].
    + split; [congruence|]. intros [_ (rest' & Hr & Hf)].
      apply app_inv_head in Hr. subst rest'. congruence.
    + split; [|congruence]. intros _. split; [reflexivity|]. now exists rest.
  - destruct (xorb _ _); (split; [congruence|]);
      intros [_ (rest & -> & _)];
      (assert (strip_prefix kw (kw ++ rest)%list = Some rest)
         by now apply strip_prefix_spec); congruence.
Qed.

Lemma word_at_last_or_nil pre : last_or None pre = last pre.
Proof. unfold last_or. now destruct (last pre). Qed.

Lemma search_keyword (kw text : list ascii) :
  wordy kw = true ->
  search (OrganizeDocuments.keyword_pattern (str kw)) text = true
  <-> whole_word kw text.
Proof.
  intros Hw. unfold search. rewrite search_from_spec. unfold whole_word.
  split.
  - intros (pre & post & -> & Hm). apply match_keyword in Hm as [Hp Hr]; [|exact Hw].
    destruct Hr as (rest & -> & Hr). exists pre, rest.
    rewrite word_at_last_or_nil in Hp. auto.
  - intros (pre & post & -> & Hp & Hr). exists pre, (kw ++ post)%list.
    split; [reflexivity|]. apply match_keyword; [exact Hw|].
    rewrite word_at_last_or_nil. split; [exact Hp|]. now exists post.
Qed.

Lemma find_spec (p s : list ascii) :
  find p s <> None <-> substring p s.
Proof.
  unfold substring. induction s as [|c s IH]; cbn [find].
  - destruct (strip_prefix p []) as [rest|] eqn:E.
    + split; [|congruence]. intros _. apply strip_prefix_spec in E.
      exists [], rest. exact E.
    + split; [congruence|]. intros (pre & post & H).
      destruct pre; [|discriminate H]. cbn in H.
      apply strip_prefix_spec in H. congruence.
  - destruct (strip_prefix p (c :: s)) as [rest|] eqn:E.
    + split; [|congruence]. intros _. apply strip_prefix_spec in E.
      exists [], rest. exact E.
    + destruct (find p s) as [i|] eqn:F; cbn [option_map].
      * split; [|congruence]. intros _.
        destruct IH as [IH _]. destruct IH as (pre & post & ->); [congruence|].
        now exists (c :: pre), post.
      * split; [congruence|]. intros (pre & post & H).
        destruct pre as [|d pre].
        -- cbn in H. apply strip_prefix_spec in H. congruence.
        -- cbn in H. injection H as <- ->. destruct IH as [_ IH].
           exfalso. apply IH; [|reflexivity]. now exists pre, post.
Qed.

Lemma contains_spec (p s : list ascii) :
  contains p s = true <-> substring p s.
Proof.
  rewrite <- find_spec. unfold contains.
  destruct (find p s); split; congruence.
Qed.

Lemma str_chars (s : string) : str (chars s) = s.
Proof. apply string_of_list_ascii_of_string. Qed.

Lemma boundary_has_keyword (keywords : list string) (filename : string) :
  forallb (fun kw => wordy (chars kw)) keywords = true ->
  OrganizeDocuments.has_keyword keywords filename = true
  <-> exists kw, In kw keywords
                 /\ whole_word (chars kw) (lower (chars filename)).
Proof.
  intros Hw. unfold OrganizeDocuments.has_keyword. rewrite existsb_exists.
  rewrite forallb_forall in Hw.
  split; intros (kw & Hin & H); exists kw; (split; [exact Hin|]).
  - rewrite <- (str_chars kw) in H. apply search_keyword in H; auto.
  - rewrite <- (str_chars kw). apply search_keyword; auto.
Qed.

Lemma containment_has_keyword (keywords : list string) (filename : string) :
  QuickOrganize.has_keyword keywords filename = true
  <-> exists kw, In kw keywords
                 /\ substring (chars kw) (lower (chars filename)).
Proof.
  unfold QuickOrganize.has_keyword. rewrite existsb_exists.
  split; intros (kw & Hin & H); exists kw; (split; [exact Hin|]);
    now apply contains_spec.
Qed.

End MatcherFacts.

(** ** What a substitution leaves in place *)

Module KeptFacts.

Lemma in_all_ascii (c : ascii) : In c all_ascii.
Proof.
  unfold all_ascii. apply in_map_iff. exists (nat_of_ascii c).
  split; [apply ascii_nat_embedding|].
  apply in_seq. pose proof (nat_ascii_bounded c). lia.
Qed.

Lemma class_within (p q : ascii -> bool) :
  forallb (fun c => implb (p c) (q c)) all_ascii = true ->
  forall c, p c = true -> q c = true.
Proof.
  intros H c Hp. rewrite forallb_forall in H.
  specialize (H c (in_all_ascii c)). now rewrite Hp in H.
Qed.

Lemma starC_consumes (p q : ascii -> bool) :
  forallb (fun c => implb (p c) (q c)) all_ascii = true ->
  forall (k : cont) s prev x,
    starC p k prev s = Some x ->
    exists m s' prev',
      s = m ++ s' /\ forallb q m = true /\ k prev' s' = Some x.
Proof.
  intros H k. induction s as [|c s IH]; intros prev x Hm; cbn [starC] in Hm.
  - now exists [], [], prev.
  - destruct (p c) eqn:E; [|now exists [], (c :: s), prev].
    destruct (starC p k (Some c) s) as [y|] eqn:Es.
    + injection Hm as <-.
      destruct (IH _ _ Es) as (m & s' & prev' & -> & Hq & Hk).
      exists (c :: m), s', prev'. split; [reflexivity|]. split; [|exact Hk].
      cbn [forallb]. now rewrite (class_within p q H c E).
    + now exists [], (c :: s), prev.
Qed.

(** A match splits the text into what it consumed, of the class, and what
    it handed to its continuation. *)
Lemma rmatch_consumes (q : ascii -> bool) (r : regex) :
  consumes_only q r = true ->
  forall (k : cont) prev s x,
    rmatch r k prev s = Some x ->
    exists m s' prev',
      s = m ++ s' /\ forallb q m = true /\ k prev' s' = Some x.
Proof.
  induction r as [p| |r1 IH1 r2 IH2|r1 IH1 r2 IH2|r1 IH1|p| | | |r1 _];
    intros H k prev s x Hm; cbn [rmatch consumes_only] in *.
  - destruct s as [|c s]; [discriminate|].
    destruct (p c) eqn:E; [|discriminate].
    exists [c], s, (Some c). split; [reflexivity|]. split; [|exact Hm].
    cbn [forallb]. now rewrite (class_within p q H c E).
  - now exists [], s, prev.
  - apply andb_true_iff in H. destruct H as [H1 H2].
    destruct (IH1 H1 _ _ _ _ Hm) as (m1 & s1 & p1 & -> & Q1 & Hm1).
    destruct (IH2 H2 _ _ _ _ Hm1) as (m2 & s2 & p2 & -> & Q2 & Hm2).
    exists (m1 ++ m2), s2, p2. split; [now rewrite app_assoc|].
    split; [|exact Hm2]. rewrite forallb_app. now rewrite Q1, Q2.
  - apply andb_true_iff in H. destruct H as [H1 H2].
    destruct (rmatch r1 k prev s) as [y|] eqn:E1.
    + injection Hm as <-. now apply (IH1 H1 _ _ _ _ E1).
    + now apply (IH2 H2 _ _ _ _ Hm).
  - destruct (rmatch r1 k prev s) as [y|] eqn:E1.
    + injection Hm as <-. now apply (IH1 H _ _ _ _ E1).
    + now exists [], s, prev.
  - now apply (starC_consumes p q H k s prev x).
  - destruct prev; [discriminate|]. now exists [], s, None.
  - destruct s as [|c [|d t]].
    + now exists [], [], prev.
    + destruct (Ascii.eqb c "010"); [|discriminate].
      now exists [], [c], prev.
    + discriminate.
  - destruct (xorb _ _); [|discriminate]. now exists [], s, prev.
  - destruct (rmatch r1 _ prev s); [discriminate|]. now exists [], s, prev.
Qed.

Lemma match_at_consumes (q : ascii -> bool) (r : regex) prev s rest :
  consumes_only q r = true ->
  match_at r prev s = Some rest ->
  exists m, s = m ++ rest /\ forallb q m = true.
Proof.
  intros H Hm. unfold match_at in Hm.
  destruct (rmatch_consumes q r H _ _ _ _ Hm) as (m & s' & _ & -> & Hq & E).
  injection E as <-. now exists m.
Qed.

Lemma consumed_app (m rest : list ascii) : consumed (m ++ rest) rest = length m.
Proof. unfold consumed. rewrite length_app. lia. Qed.

(** [re.sub] with the empty replacement removes nothing of the class [d]
    when the pattern consumes no character of it. *)
Lemma sub_from_keeps (d : ascii -> bool) (r : regex) :
  consumes_only (fun c => negb (d c)) r = true ->
  forall s skip prev,
    forallb (fun c => negb (d c)) (firstn skip s) = true ->
    List.filter d (sub_from r [] skip prev s) = List.filter d s.
Proof.
  intros H. induction s as [|c s IH]; intros skip prev Hs; [reflexivity|].
  cbn [sub_from]. destruct skip as [|n].
  - destruct (match_at r prev (c :: s)) as [rest|] eqn:E.
    + destruct (consumed (c :: s) rest) as [|n] eqn:En.
      * cbn [List.filter]. now rewrite IH.
      * destruct (match_at_consumes _ r _ _ _ H E) as (m & Hm & Hq).
        rewrite Hm, consumed_app in En.
        destruct m as [|c' m]; [discriminate En|].
        cbn [app] in Hm. injection Hm as <- ->.
        cbn [length] in En. injection En as <-.
        cbn [forallb] in Hq. apply andb_true_iff in Hq.
        destruct Hq as [Hc Hq]. cbn [app List.filter].
        apply negb_true_iff in Hc. rewrite Hc. apply IH.
        rewrite firstn_app, firstn_all, Nat.sub_diag. cbn [firstn].
        now rewrite app_nil_r.
    + cbn [List.filter]. now rewrite IH.
  - cbn [firstn forallb] in Hs. apply andb_true_iff in Hs.
    destruct Hs as [Hc Hs]. apply negb_true_iff in Hc.
    cbn [List.filter]. rewrite Hc. now apply IH.
Qed.

Lemma sub_keeps (d : ascii -> bool) (r : regex) (s : list ascii) :
  consumes_only (fun c => negb (d c)) r = true ->
  List.filter d (sub r [] s) = List.filter d s.
Proof.
  intros H. unfold sub. now apply sub_from_keeps.
Qed.

Lemma remove_indicators_keeps (d : ascii -> bool) (keywords : list string) :
  forallb (fun keyword =>
             consumes_only (fun c => negb (d c))
               (Similarity.indicator_pattern keyword)) keywords = true ->
  forall base,
    List.filter d (Similarity.remove_indicators keywords base)
    = List.filter d base.
Proof.
  unfold Similarity.remove_indicators.
  induction keywords as [|keyword keywords IH]; intros H base; [reflexivity|].
  cbn [forallb] in H. apply andb_true_iff in H. destruct H as [Hk H].
  cbn [fold_left]. rewrite (IH H). now apply sub_keeps.
Qed.

Lemma lower_char_digit (c : ascii) :
  is_digit (lower_char c) = is_digit c
  /\ (is_digit c = true -> lower_char c = c).
Proof.
  destruct c as [[] [] [] [] [] [] [] []];
    (split; [reflexivity|intros H; first [reflexivity|discriminate H]]).
Qed.

Lemma lower_keeps_digits (l : list ascii) :
  List.filter is_digit (lower l) = List.filter is_digit l.
Proof.
  unfold lower. induction l as [|c l IH]; [reflexivity|].
  cbn [map List.filter]. destruct (lower_char_digit c) as [E Hc].
  rewrite E, IH. destruct (is_digit c) eqn:D; [|reflexivity].
  now rewrite (Hc eq_refl).
Qed.

(** The indicator patterns consume letters and delimiters, no digit. *)
Lemma indicators_consume_no_digit :
  forallb (fun keyword =>
             consumes_only (fun c => negb (is_digit c))
               (Similarity.indicator_pattern keyword))
    (Similarity.solution_indicators ++ Similarity.question_indicators)
  = true.
Proof. vm_compute. reflexivity. Qed.

Lemma normalized_keeps_digits (file : string) :
  List.filter is_digit (Similarity.normalized file)
  = List.filter is_digit (fst (splitext (chars file))).
Proof.
  unfold Similarity.normalized.
  pose proof indicators_consume_no_digit as H. rewrite forallb_app in H.
  apply andb_true_iff in H. destruct H as [Hs Hq].
  rewrite (remove_indicators_keeps _ _ Hq), (remove_indicators_keeps _ _ Hs).
  apply lower_keeps_digits.
Qed.

End KeptFacts.

Section SimilarityClaims.

Import Similarity.

(** C5. The similarity of two filenames does not depend on their order,
    and it is a function of the two names: equal arguments give equal
    scores. *)
Theorem similarity_symmetric_and_deterministic :
  forall a b : string,
    calculate_filename_similarity a b = calculate_filename_similarity b a
    /\ (forall a' b' : string, a' = a -> b' = b ->
        calculate_filename_similarity a' b'
        = calculate_filename_similarity a b).
Proof.
  intros a b. split.
  - apply similarity_sym.
  - intros a' b' -> ->. reflexivity.
Qed.

(** C6. The score is the number of common words over the larger of the two
    word counts, it is 0 when a word set is empty, and it lies between 0
    and 1. *)
Theorem similarity_is_overlap_over_larger_set :
  forall a b : string,
    (words a = ∅ \/ words b = ∅ -> calculate_filename_similarity a b = 0%Q)
    /\ (words a ≠ ∅ -> words b ≠ ∅ ->
        calculate_filename_similarity a b
        = (Z.of_nat (size (words a ∩ words b))
             # Pos.of_nat (Nat.max (size (words a)) (size (words b))))%Q)
    /\ (0 <= calculate_filename_similarity a b <= 1)%Q.
Proof.
  intros a b. split; [|split].
  - apply similarity_empty.
  - apply similarity_nonempty.
  - apply similarity_range.
Qed.

(** C7, as stated, fails: [solution.pdf] has the base name [solution], and
    its similarity with itself is 0. *)
Lemma self_similarity_counterexample :
  fst (splitext (chars "solution.pdf")) = chars "solution"
  /\ chars "solution" <> []
  /\ calculate_filename_similarity "solution.pdf" "solution.pdf" = 0%Q
  /\ ~ (calculate_filename_similarity "solution.pdf" "solution.pdf" == 1)%Q.
Proof.
  split; [reflexivity|]. split; [discriminate|].
  assert (E : calculate_filename_similarity "solution.pdf" "solution.pdf" = 0%Q)
    by (vm_compute; reflexivity).
  split; [exact E|]. rewrite E. discriminate.
Qed.

(** C7, amended. A filename whose normalized name has at least one word has
    similarity 1 with itself. *)
Theorem self_similarity_of_nonempty_words :
  forall a : string,
    words a ≠ ∅ -> (calculate_filename_similarity a a == 1)%Q.
Proof.
  intros a H. rewrite similarity_nonempty by assumption.
  rewrite (idemp_L (∩) (words a)).
  rewrite Nat.max_id. apply size_pos_of_nonempty in H.
  unfold Qeq; cbn [Qnum Qden]. rewrite Zpos_of_nat by lia. lia.
Qed.

Lemma self_similarity_of_nonempty_words_witness :
  (calculate_filename_similarity "Paper1_Qn.pdf" "Paper1_Qn.pdf" == 1)%Q.
Proof.
  apply (self_similarity_of_nonempty_words "Paper1_Qn.pdf").
  apply is_empty_false. vm_compute. reflexivity.
Defined.

(** C4, as stated, fails: the two names of the scenario score 0. *)
Lemma year_scenario_counterexample :
  calculate_filename_similarity
    "2021_JC_Prelim_Qn.pdf" "2022_JC_Prelim_Ans.pdf" = 0%Q
  /\ ~ (calculate_filename_similarity
          "2021_JC_Prelim_Qn.pdf" "2022_JC_Prelim_Ans.pdf" == 1)%Q.
Proof.
  assert (E : calculate_filename_similarity
                "2021_JC_Prelim_Qn.pdf" "2022_JC_Prelim_Ans.pdf" = 0%Q)
    by (vm_compute; reflexivity).
  split; [exact E|]. rewrite E. discriminate.
Qed.

(** C4, amended. [calculate_filename_similarity] has no year pattern: its
    normalization removes no digit, so every digit of the name before the
    extension is in the text that is split into words.  The two names of
    the scenario normalize to the single words [2021_jc_prelim] and
    [2022_jc_prelim] and score 0; with spaces for underscores the years
    stay as words and the score is 2/3.  For these two names
    [extract_base_name] returns [JC_Prelim_Qn] and [JC_Prelim], with
    score 0. *)
Theorem year_is_kept_by_similarity :
  (forall file : string,
      List.filter is_digit (normalized file)
      = List.filter is_digit (fst (splitext (chars file))))
  /\ words "2021_JC_Prelim_Qn.pdf" = {["2021_jc_prelim"]}
  /\ words "2022_JC_Prelim_Ans.pdf" = {["2022_jc_prelim"]}
  /\ calculate_filename_similarity
       "2021_JC_Prelim_Qn.pdf" "2022_JC_Prelim_Ans.pdf" = 0%Q
  /\ calculate_filename_similarity
       "2021 JC Prelim Qn.pdf" "2022 JC Prelim Ans.pdf" = (2 # 3)%Q
  /\ OrganizePairs.extract_base_name "2021_JC_Prelim_Qn.pdf" = "JC_Prelim_Qn"
  /\ OrganizePairs.extract_base_name "2022_JC_Prelim_Ans.pdf" = "JC_Prelim"
  /\ OrganizePairs.score "JC_Prelim_Qn" "JC_Prelim" = 0%Q.
Proof.
  split; [exact KeptFacts.normalized_keeps_digits|].
  repeat split; vm_compute; reflexivity.
Qed.

End SimilarityClaims.

Section ClassifierClaims.

Lemma question_keywords_wordy :
  forallb (fun kw => wordy (chars kw)) OrganizeDocuments.question_keywords = true.
Proof. reflexivity. Qed.

Lemma solution_keywords_wordy :
  forallb (fun kw => wordy (chars kw)) OrganizeDocuments.solution_keywords = true.
Proof. reflexivity. Qed.

Lemma note_keywords_wordy :
  forallb (fun kw => wordy (chars kw)) OrganizeDocuments.note_keywords = true.
Proof. reflexivity. Qed.

Lemma quick_question_keywords_wordy :
  forallb (fun kw => wordy (chars kw)) QuickOrganize.question_keywords = true.
Proof. reflexivity. Qed.

(** C3, as stated, fails for [quick_organize_files.py]: [examine.pdf] holds
    no question keyword as a whole word, and [is_question_file] is true
    there because [exam] is inside [examine]. *)
Lemma examine_counterexample :
  QuickOrganize.is_question_file "examine.pdf" = true
  /\ ~ (exists kw, In kw QuickOrganize.question_keywords
                   /\ whole_word (chars kw) (lower (chars "examine.pdf"))).
Proof.
  split; [reflexivity|]. intros H.
  apply (boundary_has_keyword _ "examine.pdf" quick_question_keywords_wordy) in H.
  vm_compute in H. discriminate H.
Qed.

(** C3, amended. In [organize_documents.py] and
    [streamlined_education_pdf_to_json.py] a keyword matches the lowercased
    name exactly where it stands with no word character (letter, digit or
    underscore) on either side, so [examine.pdf] is not a question file;
    in [quick_organize_files.py] and [organize_question_solution_pairs.py]
    a keyword matches wherever it occurs in the lowercased name. *)
Theorem keyword_matching_per_script :
  forall filename : string,
    (OrganizeDocuments.is_question_file filename = true
     <-> exists kw, In kw OrganizeDocuments.question_keywords
                    /\ whole_word (chars kw) (lower (chars filename)))
    /\ (OrganizeDocuments.is_solution_file filename = true
        <-> exists kw, In kw OrganizeDocuments.solution_keywords
                       /\ whole_word (chars kw) (lower (chars filename)))
    /\ (OrganizeDocuments.is_note_file filename = true
        <-> exists kw, In kw OrganizeDocuments.note_keywords
                       /\ whole_word (chars kw) (lower (chars filename)))
    /\ (QuickOrganize.is_question_file filename = true
        <-> exists kw, In kw QuickOrganize.question_keywords
                       /\ substring (chars kw) (lower (chars filename)))
    /\ (QuickOrganize.is_solution_file filename = true
        <-> exists kw, In kw QuickOrganize.solution_keywords
                       /\ substring (chars kw) (lower (chars filename)))
    /\ OrganizeDocuments.is_question_file "examine.pdf" = false.
Proof.
  intros filename. repeat split.
  - apply boundary_has_keyword, question_keywords_wordy.
  - apply boundary_has_keyword, question_keywords_wordy.
  - apply boundary_has_keyword, solution_keywords_wordy.
  - apply boundary_has_keyword, solution_keywords_wordy.
  - apply boundary_has_keyword, note_keywords_wordy.
  - apply boundary_has_keyword, note_keywords_wordy.
  - apply containment_has_keyword.
  - apply containment_has_keyword.
  - apply containment_has_keyword.
  - apply containment_has_keyword.
Qed.

(** C8. [classify_document] follows the priority table: solution and
    question keywords give the combined type; then solution with note,
    question with note, solution alone, question alone, note alone; with
    no keyword the filename patterns decide, and when none of them is
    found the type is unknown. *)
Theorem classify_document_decision_table :
  forall filename : string,
    let is_solution := OrganizeDocuments.is_solution_file filename in
    let is_question := OrganizeDocuments.is_question_file filename in
    let is_note := OrganizeDocuments.is_note_file filename in
    let result := OrganizeDocuments.classify_document filename in
    let name := lower (chars filename) in
    (is_solution = true -> is_question = true ->
     result = OrganizeDocuments.combined_question_solution)
    /\ (is_solution = true -> is_question = false -> is_note = true ->
        result = OrganizeDocuments.notes_with_solutions)
    /\ (is_solution = false -> is_question = true -> is_note = true ->
        result = OrganizeDocuments.notes_with_questions)
    /\ (is_solution = true -> is_question = false -> is_note = false ->
        result = OrganizeDocuments.solution)
    /\ (is_solution = false -> is_question = true -> is_note = false ->
        result = OrganizeDocuments.question_paper)
    /\ (is_solution = false -> is_question = false -> is_note = true ->
        result = OrganizeDocuments.standalone_note)
    /\ (is_solution = false -> is_question = false -> is_note = false ->
        result = OrganizeDocuments.classify_by_pattern filename
        /\ (search OrganizeDocuments.code_then_sol name = true ->
            result = OrganizeDocuments.solution)
        /\ (search OrganizeDocuments.code_then_sol name = false ->
            search OrganizeDocuments.code_without_sol name = true ->
            result = OrganizeDocuments.question_paper)
        /\ (search OrganizeDocuments.code_then_sol name = false ->
            search OrganizeDocuments.code_without_sol name = false ->
            search OrganizeDocuments.chapter_then_digit name = true ->
            result = OrganizeDocuments.standalone_note)
        /\ (search OrganizeDocuments.code_then_sol name = false ->
            search OrganizeDocuments.code_without_sol name = false ->
            search OrganizeDocuments.chapter_then_digit name = false ->
            search OrganizeDocuments.staff_word name = true ->
            result = OrganizeDocuments.notes_with_solutions)
        /\ (search OrganizeDocuments.code_then_sol name = false ->
            search OrganizeDocuments.code_without_sol name = false ->
            search OrganizeDocuments.chapter_then_digit name = false ->
            search OrganizeDocuments.staff_word name = false ->
            result = OrganizeDocuments.unknown)).
Proof.
  intros filename is_solution is_question is_note result name.
  subst result. unfold OrganizeDocuments.classify_document.
  fold is_solution is_question is_note.
  repeat split; intros; unfold OrganizeDocuments.classify_by_pattern;
    fold name;
    repeat match goal with H : _ = true |- _ => rewrite H; clear H
                      | H : _ = false |- _ => rewrite H; clear H end;
    try reflexivity;
    destruct is_note; reflexivity.
Qed.

(** One filename for each row of the table. *)
Example classify_document_rows :
  map OrganizeDocuments.classify_document
    ["exam ans.pdf"; "notes ans.pdf"; "notes exam.pdf"; "ans.pdf";
     "exam.pdf"; "notes.pdf"; "bmq1_sol.pdf"; "bmq1.pdf"; "ch3.pdf";
     "tutors1.pdf"; "x.pdf"; ""; ".pdf"]
  = [OrganizeDocuments.combined_question_solution;
     OrganizeDocuments.notes_with_solutions;
     OrganizeDocuments.notes_with_questions;
     OrganizeDocuments.solution;
     OrganizeDocuments.question_paper;
     OrganizeDocuments.standalone_note;
     OrganizeDocuments.solution;
     OrganizeDocuments.question_paper;
     OrganizeDocuments.standalone_note;
     OrganizeDocuments.notes_with_solutions;
     OrganizeDocuments.unknown;
     OrganizeDocuments.unknown;
     OrganizeDocuments.unknown].
Proof. vm_compute. reflexivity. Qed.

End ClassifierClaims.

(** ** The pairing passes *)

Module PairingFacts.

Import Pairing PairingProps.

Lemma members_snoc ps x y : members (ps ++ [(x, y)]) = (members ps ++ [x; y])%list.
Proof. unfold members. rewrite flat_map_app. reflexivity. Qed.

Lemma in_members ps f :
  In f (members ps) <-> exists p, In p ps /\ in_pair f p.
Proof.
  unfold members, in_pair. rewrite in_flat_map. split.
  - intros (p & Hp & Hf). exists p. cbn in Hf. intuition congruence.
  - intros (p & Hp & Hf). exists p. cbn. intuition congruence.
Qed.

Lemma apart_snoc ps x y :
  apart ps -> ~ In x (members ps) -> ~ In y (members ps) ->
  apart (ps ++ [(x, y)]).
Proof.
  intros Hap Hx Hy i j p q f Hi Hj Hp Hq.
  assert (Hold : forall k r, (ps ++ [(x, y)]) !! k = Some r ->
            (ps !! k = Some r) \/ (k = length ps /\ r = (x, y))).
  { intros k r Hk. apply lookup_app_Some in Hk as [Hk|[Hlen Hk]]; [now left|].
    right. destruct (k - length ps)%nat eqn:E; cbn in Hk; [|discriminate].
    split; [lia | congruence]. }
  assert (Hnew : forall k r g, ps !! k = Some r -> in_pair g r ->
            in_pair g (x, y) -> False).
  { intros k r g Hk Hr [Hg|Hg]; cbn in Hg; subst g.
    - apply Hx, in_members. exists r. split; [|exact Hr].
      apply list_elem_of_In. eapply list_elem_of_lookup_2; eauto.
    - apply Hy, in_members. exists r. split; [|exact Hr].
      apply list_elem_of_In. eapply list_elem_of_lookup_2; eauto. }
  apply Hold in Hi as [Hi|[-> ->]]; apply Hold in Hj as [Hj|[-> ->]].
  - eapply Hap; eauto.
  - exfalso. eapply Hnew; eauto.
  - exfalso. eapply Hnew; eauto.
  - reflexivity.
Qed.

Lemma gt_spec (a b : Q) : gt a b = true <-> (b < a)%Q.
Proof.
  unfold gt. rewrite negb_true_iff. split.
  - intros H. apply Qnot_le_lt. intros Hle.
    apply Qle_bool_iff in Hle. congruence.
  - intros H. destruct (Qle_bool a b) eqn:E; [|reflexivity].
    apply Qle_bool_iff in E. exfalso. eapply Qlt_not_le; eauto.
Qed.

Lemma sound_init input : sound input {| pairs := []; paired_files := ∅ |}.
Proof.
  split; cbn.
  - intros f. split; [set_solver | contradiction].
  - intros i j p q f Hi. rewrite lookup_nil in Hi. discriminate.
  - contradiction.
Qed.

Lemma sound_add_pair input st x y file1 file2 :
  sound input st ->
  x ∉ paired_files st -> y ∉ paired_files st ->
  In x input -> In y input ->
  (file1 = x /\ file2 = y) \/ (file1 = y /\ file2 = x) ->
  sound input (add_pair st x y file1 file2).
Proof.
  intros [Hm Ha Hi] Hx Hy Hxi Hyi Hf. split; cbn [add_pair pairs paired_files].
  - intros f. rewrite members_snoc, in_app_iff, <- Hm. cbn [In].
    rewrite !elem_of_union, !elem_of_singleton.
    destruct Hf as [[-> ->]|[-> ->]]; intuition congruence.
  - apply apart_snoc; [exact Ha | now rewrite <- Hm | now rewrite <- Hm].
  - intros f. rewrite members_snoc, in_app_iff. cbn [In].
    intros [H|[<-|[<-|[]]]]; auto.
Qed.

Lemma paired_add_pair st x y file1 file2 f :
  f ∈ paired_files st -> f ∈ paired_files (add_pair st x y file1 file2).
Proof. cbn. set_solver. Qed.

Section Passes.

Variable is_sol is_q : string -> bool.
Variable similarity : string -> string -> Q.
Variable similarity_threshold : Q.

Abbreviation scan_question := (scan_question similarity similarity_threshold).
Abbreviation best_for := (best_for similarity similarity_threshold).
Abbreviation match_solution := (match_solution similarity similarity_threshold).
Abbreviation first_pass := (first_pass similarity similarity_threshold).
Abbreviation scan_remaining :=
  (scan_remaining is_sol is_q similarity similarity_threshold).
Abbreviation second_pass :=
  (second_pass is_sol is_q similarity similarity_threshold).
Abbreviation find_pairs :=
  (find_pairs is_sol is_q similarity similarity_threshold).
Abbreviation roles := (roles is_sol is_q).
Abbreviation settled := (settled similarity similarity_threshold).
Abbreviation quiet := (quiet is_sol is_q similarity similarity_threshold).

(** *** The search for the best question file *)

Lemma best_some paired sol_file question_files :
  forall best q_file,
    fst (fold_left (scan_question paired sol_file) question_files best)
    = Some q_file ->
    fst best = Some q_file
    \/ (In q_file question_files /\ q_file ∉ paired).
Proof.
  induction question_files as [|q qs IH]; intros best q_file H; cbn in H.
  - now left.
  - apply IH in H as [H|[H1 H2]].
    + unfold Pairing.scan_question in H. case_bool_decide as Hq; [now left|].
      destruct (_ && _); [|now left].
      cbn in H. injection H as <-. right. split; [now left | exact Hq].
    + right. split; [now right | exact H2].
Qed.

Lemma best_for_some paired sol_file question_files q_file :
  fst (best_for paired sol_file question_files) = Some q_file ->
  In q_file question_files /\ q_file ∉ paired.
Proof.
  intros H. apply best_some in H as [H|H]; [discriminate H | exact H].
Qed.

Lemma best_none paired sol_file question_files :
  forall best,
    fst (fold_left (scan_question paired sol_file) question_files best) = None ->
    fst best = None
    /\ forall q_file, In q_file question_files -> q_file ∉ paired ->
         gt (similarity sol_file q_file) similarity_threshold
         && gt (similarity sol_file q_file) (snd best) = false.
Proof.
  induction question_files as [|q qs IH]; intros best H; cbn in H.
  - split; [exact H | contradiction].
  - apply IH in H as [H1 H2]. unfold Pairing.scan_question in H1, H2.
    case_bool_decide as Hq.
    + split; [exact H1|]. intros q' [<-|Hin] Hq'; [contradiction | auto].
    + destruct (_ && _) eqn:E; [discriminate H1|].
      split; [exact H1|]. intros q' [<-|Hin] Hq'; [exact E | auto].
Qed.

Lemma best_for_none paired sol_file question_files :
  (0 <= similarity_threshold)%Q ->
  fst (best_for paired sol_file question_files) = None ->
  forall q_file, In q_file question_files -> q_file ∉ paired ->
    gt (similarity sol_file q_file) similarity_threshold = false.
Proof.
  intros Hthr H q_file Hin Hq. apply best_none in H as [_ H].
  specialize (H q_file Hin Hq). cbn [snd] in H.
  destruct (gt (similarity sol_file q_file) similarity_threshold) eqn:E;
    [|reflexivity].
  cbn in H. apply gt_spec in E.
  assert (E0 : gt (similarity sol_file q_file) 0 = true).
  { apply gt_spec. eapply Qle_lt_trans; eauto. }
  congruence.
Qed.

(** *** The first loop *)

Lemma match_solution_grows question_files st sol_file f :
  f ∈ paired_files st ->
  f ∈ paired_files (match_solution question_files st sol_file).
Proof.
  intros H. unfold Pairing.match_solution. case_bool_decide; [exact H|].
  destruct (fst _) as [q|]; [|exact H].
  destruct (truthy _); [now apply paired_add_pair | exact H].
Qed.

Lemma match_solution_sound input question_files st sol_file :
  incl question_files input -> In sol_file input ->
  sound input st ->
  sound input (match_solution question_files st sol_file).
Proof.
  intros Hq Hs Hst. unfold Pairing.match_solution.
  case_bool_decide as Hp; [exact Hst|].
  destruct (fst _) as [q|] eqn:E; [|exact Hst].
  destruct (truthy _); [|exact Hst].
  apply best_for_some in E as [Hin Hnp].
  apply sound_add_pair; auto.
Qed.

Lemma match_solution_roles question_files st sol_file :
  Forall (fun q => is_q q = true) question_files ->
  is_sol sol_file = true ->
  Forall roles (pairs st) ->
  Forall roles (pairs (match_solution question_files st sol_file)).
Proof.
  intros Hq Hs Hst. unfold Pairing.match_solution.
  case_bool_decide as Hp; [exact Hst|].
  destruct (fst _) as [q|] eqn:E; [|exact Hst].
  destruct (truthy _); [|exact Hst].
  apply best_for_some in E as [Hin _]. cbn [add_pair pairs].
  apply Forall_app. split; [exact Hst|]. constructor; [|constructor].
  split; [exact Hs|]. cbn. rewrite Forall_forall in Hq.
  apply Hq, list_elem_of_In, Hin.
Qed.

Lemma settled_grows question_files done st st' :
  (forall f, f ∈ paired_files st -> f ∈ paired_files st') ->
  settled question_files done st -> settled question_files done st'.
Proof.
  intros Hg H s Hs Hsp q Hq Hqp. apply H; auto.
Qed.

(** [if best_match:] is false for the empty name, which no bucket of
    question files holds. *)
Lemma match_solution_settled question_files done st sol_file :
  (0 <= similarity_threshold)%Q ->
  ~ In "" question_files ->
  settled question_files done st ->
  settled question_files (done ++ [sol_file])
    (match_solution question_files st sol_file).
Proof.
  intros Hthr Hne H s Hs Hsp q Hq Hqp.
  apply in_app_iff in Hs as [Hs|[<-|[]]].
  - revert s Hs Hsp q Hq Hqp. change (settled question_files done
      (match_solution question_files st sol_file)).
    eapply settled_grows; [|exact H].
    intros f. apply match_solution_grows.
  - unfold Pairing.match_solution in Hsp, Hqp.
    case_bool_decide as Hp; [contradiction|].
    destruct (fst _) as [q'|] eqn:E.
    + assert (Ht : truthy (Some q') = true).
      { apply best_for_some in E as [Hin _]. cbn.
        destruct (String.eqb q' "") eqn:Eq; [|reflexivity].
        apply String.eqb_eq in Eq. subst q'. contradiction. }
      rewrite Ht in Hsp. exfalso. apply Hsp. cbn. set_solver.
    + eapply best_for_none; eauto.
Qed.

Lemma first_pass_from input question_files :
  incl question_files input ->
  Forall (fun q => is_q q = true) question_files ->
  forall todo done st,
    incl todo input -> Forall (fun s => is_sol s = true) todo ->
    sound input st -> Forall roles (pairs st) ->
    let st' := fold_left (match_solution question_files) todo st in
    sound input st' /\ Forall roles (pairs st')
    /\ ((0 <= similarity_threshold)%Q -> ~ In "" question_files ->
        settled question_files done st ->
        settled question_files (done ++ todo) st').
Proof.
  intros Hq Hqr. induction todo as [|s todo IH]; intros done st Hin Hs Hst Hr.
  - cbn. rewrite app_nil_r. auto.
  - cbn [fold_left]. inversion Hs as [|? ? Hs1 Hs2]; subst.
    assert (Hin' : incl todo input) by (intros x Hx; apply Hin; now right).
    assert (Hsi : In s input) by (apply Hin; now left).
    specialize (IH (done ++ [s]) (match_solution question_files st s) Hin' Hs2
                  (match_solution_sound _ _ _ _ Hq Hsi Hst)
                  (match_solution_roles _ _ _ Hqr Hs1 Hr)).
    cbn zeta in IH. destruct IH as (IH1 & IH2 & IH3).
    split; [exact IH1|]. split; [exact IH2|].
    intros Hthr Hne Hset. rewrite <- app_assoc in IH3. apply IH3; auto.
    now apply match_solution_settled.
Qed.

Lemma first_pass_facts input :
  let solution_files := List.filter is_sol input in
  let question_files := List.filter is_q input in
  let st := first_pass solution_files question_files in
  sound input st /\ Forall roles (pairs st)
  /\ ((0 <= similarity_threshold)%Q -> is_q "" = false ->
      settled question_files solution_files st).
Proof.
  intros solution_files question_files st.
  assert (Hq : incl question_files input)
    by (intros x Hx; now apply filter_In in Hx).
  assert (Hs : incl solution_files input)
    by (intros x Hx; now apply filter_In in Hx).
  assert (Hqr : Forall (fun q => is_q q = true) question_files).
  { apply Forall_forall. intros x Hx. apply list_elem_of_In in Hx.
    now apply filter_In in Hx. }
  assert (Hsr : Forall (fun s => is_sol s = true) solution_files).
  { apply Forall_forall. intros x Hx. apply list_elem_of_In in Hx.
    now apply filter_In in Hx. }
  destruct (first_pass_from input question_files Hq Hqr
              solution_files [] {| pairs := []; paired_files := ∅ |}
              Hs Hsr (sound_init input) (List.Forall_nil _)) as (H1 & H2 & H3).
  split; [exact H1|]. split; [exact H2|].
  intros Hthr Hne. apply H3; auto.
  - intros Hin. apply filter_In in Hin as [_ Hin]. congruence.
  - intros s [].
Qed.

(** *** The second loop *)

Lemma scan_remaining_quiet ordered files st file1 rest :
  quiet files st -> In file1 files -> incl rest files ->
  file1 ∉ paired_files st ->
  fold_left (scan_remaining ordered file1) rest st = st.
Proof.
  intros Hq H1 Hr Hp. induction rest as [|file2 rest IH]; [reflexivity|].
  cbn [fold_left].
  assert (E : scan_remaining ordered file1 st file2 = st).
  { unfold Pairing.scan_remaining. case_bool_decide as Hp2; [reflexivity|].
    destruct (gt _ _) eqn:Eg; [|reflexivity].
    destruct (Hq file1 file2) as [-> ->]; auto. apply Hr. now left. }
  rewrite E. apply IH. intros x Hx. apply Hr. now right.
Qed.

Lemma second_pass_quiet ordered files st remaining_files :
  quiet files st -> incl remaining_files files ->
  second_pass ordered remaining_files st = st.
Proof.
  intros Hq. induction remaining_files as [|file1 rest IH]; intros Hin;
    [reflexivity|].
  cbn [Pairing.second_pass].
  assert (Hrest : incl rest files) by (intros x Hx; apply Hin; now right).
  case_bool_decide as Hp; [now apply IH|].
  rewrite (scan_remaining_quiet ordered files); auto.
  apply Hin. now left.
Qed.

Lemma settled_quiet input st :
  (forall a b, similarity a b = similarity b a) ->
  settled (List.filter is_q input) (List.filter is_sol input) st ->
  quiet input st.
Proof.
  intros Hsym Hs file1 file2 H1 H2 Hp1 Hp2 Hg.
  split.
  - destruct (is_sol file1 && is_q file2) eqn:E; [|reflexivity].
    apply andb_true_iff in E as [E1 E2].
    assert (gt (similarity file1 file2) similarity_threshold = false)
      by (apply Hs; auto; apply filter_In; auto).
    congruence.
  - destruct (is_q file1 && is_sol file2) eqn:E; [|reflexivity].
    apply andb_true_iff in E as [E1 E2]. rewrite Hsym in Hg.
    assert (gt (similarity file2 file1) similarity_threshold = false)
      by (apply Hs; auto; apply filter_In; auto).
    congruence.
Qed.

(** The second loop keeps the order of roles when it is told to. *)
Lemma scan_remaining_roles file1 st rest :
  Forall roles (pairs st) ->
  Forall roles (pairs (fold_left (scan_remaining true file1) rest st)).
Proof.
  revert st. induction rest as [|file2 rest IH]; intros st H; [exact H|].
  cbn [fold_left]. apply IH. unfold Pairing.scan_remaining.
  case_bool_decide; [exact H|]. destruct (gt _ _); [|exact H].
  destruct (is_sol file1 && is_q file2) eqn:E1.
  - apply andb_true_iff in E1 as [? ?]. cbn [add_pair pairs].
    apply Forall_app. split; [exact H|]. now repeat constructor.
  - destruct (is_q file1 && is_sol file2) eqn:E2; [|exact H].
    apply andb_true_iff in E2 as [? ?]. cbn [add_pair pairs].
    apply Forall_app. split; [exact H|]. now repeat constructor.
Qed.

Lemma second_pass_roles remaining_files st :
  Forall roles (pairs st) ->
  Forall roles (pairs (second_pass true remaining_files st)).
Proof.
  revert st. induction remaining_files as [|file1 rest IH]; intros st H;
    [exact H|].
  cbn [Pairing.second_pass]. apply IH.
  case_bool_decide; [exact H | now apply scan_remaining_roles].
Qed.

(** *** The result *)

Lemma unpaired_of_spec input st f :
  In f (unpaired_of input st) <-> In f input /\ f ∉ paired_files st.
Proof.
  unfold unpaired_of. rewrite filter_In, negb_true_iff, bool_decide_eq_false.
  reflexivity.
Qed.





Lemma find_pairs_roles input :
  Forall roles (fst (find_pairs true input)).
Proof.
  unfold Pairing.find_pairs. cbn [fst].
  destruct (first_pass_facts input) as (_ & Hr & _).
  now apply second_pass_roles.
Qed.

End Passes.

End PairingFacts.

Section PairingClaims.

Import PairingProps PairingFacts FindPairsAndClassify.

Lemma streamlined_similarity_sym (a b : string) :
  Streamlined.similarity a b = Streamlined.similarity b a.
Proof. apply similarity_sym. Qed.







(** The scenario of the witness: one pair, one file left. *)
Example pairing_scenario :
  Streamlined.find_question_solution_pairs
    ["d/Paper1 Question.pdf"; "d/Paper1 Solution.pdf"; "Notes.pdf"] (6 # 10)%Q
  = ([("d/Paper1 Solution.pdf", "d/Paper1 Question.pdf")], ["Notes.pdf"]).
Proof. vm_compute. reflexivity. Qed.

(** A file with both kinds of keyword is paired with itself by
    [quick_organize_files.py]. *)
Example quick_pairs_a_file_with_itself :
  fst (Quick.find_pairs_and_classify unit (fun _ => tt)
         ["exam_solution.pdf"] (8 # 10)%Q)
  = [("exam_solution.pdf", "exam_solution.pdf")].
Proof. vm_compute. reflexivity. Qed.

(** C10. Every pair of [find_question_solution_pairs] is a solution file
    followed by a question file, whichever loop made it, and
    [process_batch] hands the second to [process_question_solution_pair]
    as the question and the first as the solution. *)
Theorem pairs_are_solution_then_question :
  forall (file_list : list string) (threshold : Q),
    Forall (fun p => Streamlined.is_sol (fst p) = true
                     /\ Streamlined.is_q (snd p) = true)
      (fst (Streamlined.find_question_solution_pairs file_list threshold))
    /\ forall question_path solution_path,
         In (Streamlined.pair_job question_path solution_path)
           (Streamlined.process_batch file_list) ->
         Streamlined.is_q question_path = true
         /\ Streamlined.is_sol solution_path = true.
Proof.
  intros file_list threshold. split.
  - apply find_pairs_roles.
  - intros q s. unfold Streamlined.process_batch.
    pose proof (find_pairs_roles Streamlined.is_sol Streamlined.is_q
                  Streamlined.similarity (7 # 10)%Q file_list) as H.
    unfold Streamlined.find_question_solution_pairs.
    destruct (Pairing.find_pairs _ _ _ _ _ _) as [ps un]. cbn [fst] in H.
    rewrite in_app_iff, !in_map_iff.
    intros [(p & Hp & Hin)|(f & Hf & _)]; [|discriminate Hf].
    injection Hp as <- <-. rewrite Forall_forall in H.
    apply list_elem_of_In in Hin. destruct (H p Hin). auto.
Qed.

(** A pair made by the second loop, question file first in the input. *)
Example second_loop_orders_the_pair :
  Streamlined.find_question_solution_pairs ["b qn.pdf"; "a sol.pdf"] (-1)%Q
  = ([("a sol.pdf", "b qn.pdf")], []).
Proof. vm_compute. reflexivity. Qed.


End PairingClaims.

(** ** JSON recovery *)

Section RecoveryClaims.

Import JsonRecovery.

Variable json_loads : string -> option json.
Variable rewrite_text : string -> string.
Variable content_group : string -> option string.
Variable scraped_concepts scraped_questions : string -> list json.

Local Abbreviation extract := (extract_json_from_text json_loads).
Local Abbreviation process :=
  (process_with_deepseek json_loads rewrite_text content_group
     scraped_concepts scraped_questions).
Local Abbreviation fallback :=
  (create_fallback_json scraped_concepts scraped_questions).

Lemma get_set (key : string) (v : json) (fields : list (string * json)) :
  get key (set key v fields) = Some v.
Proof.
  induction fields as [|[k w] fields IH]; cbn.
  - now rewrite String.eqb_refl.
  - destruct (String.eqb k key) eqn:E; cbn; rewrite E; [reflexivity | exact IH].
Qed.

Lemma fallback_keys (text : string) (metadata : list (string * json)) :
  has_key "metadata" (fallback text metadata) = true
  /\ has_key "content" (fallback text metadata) = true.
Proof. split; reflexivity. Qed.

(** The part of C2 that holds: whatever the model printed,
    [process_with_deepseek] returns a dict with the key [metadata]. *)
Lemma process_with_deepseek_has_metadata
    (run : run_result) (text : string) (metadata : list (string * json)) :
  has_key "metadata" (process run text metadata) = true.
Proof.
  unfold process_with_deepseek. destruct run as [stdout|]; [|reflexivity].
  destruct (fix_json_string _ _) as [fixed_json|]; [|reflexivity].
  destruct (json_loads fixed_json) as [parsed_json|].
  - unfold add_metadata. destruct parsed_json; try reflexivity.
    destruct (get "metadata" fields) as [[]|]; try reflexivity;
      cbn [has_key]; now rewrite get_set.
  - unfold content_only. destruct (content_group fixed_json); [|reflexivity].
    destruct (json_loads _) as [content_parsed|]; [|reflexivity].
    unfold set_metadata. destruct content_parsed; try reflexivity.
    cbn [has_key]. now rewrite get_set.
Qed.

(** C2 on an output without JSON: when [extract_json_from_text] finds
    nothing (or a value that is false in Python), [fix_json_string] gives
    the text of the empty object, which [json.loads] accepts, and the
    result is the dict with the single key [metadata]: the key [content]
    is missing. *)
Theorem output_without_json_lacks_content :
  forall (stdout text : string) (metadata : list (string * json)),
    json_loads "{}" = Some (JObj []) ->
    truth (extract (str (strip (chars stdout)))) = false ->
    process (Completed stdout) text metadata = JObj [("metadata", JObj metadata)]
    /\ has_key "content" (process (Completed stdout) text metadata) = false.
Proof.
  intros stdout text metadata Hloads Hfalse.
  assert (E : process (Completed stdout) text metadata
              = JObj [("metadata", JObj metadata)]).
  { unfold process_with_deepseek, fix_json_string.
    rewrite Hfalse. cbn [negb]. rewrite Hloads. reflexivity. }
  split; [exact E|]. rewrite E. reflexivity.
Qed.

End RecoveryClaims.

Lemma output_without_json_lacks_content_witness :
  JsonRecovery.process_with_deepseek JsonRecovery.loads_empty_object
    (fun s => s) (fun _ => None) (fun _ => []) (fun _ => [])
    (JsonRecovery.Completed "") "Vectors: a vector is a quantity."
    [("subject", JsonRecovery.JStr "Mathematics")]
  = JsonRecovery.JObj
      [("metadata",
        JsonRecovery.JObj [("subject", JsonRecovery.JStr "Mathematics")])]
  /\ JsonRecovery.has_key "content"
       (JsonRecovery.process_with_deepseek JsonRecovery.loads_empty_object
          (fun s => s) (fun _ => None) (fun _ => []) (fun _ => [])
          (JsonRecovery.Completed "") "Vectors: a vector is a quantity."
          [("subject", JsonRecovery.JStr "Mathematics")])
     = false.
Proof.
  exact (output_without_json_lacks_content JsonRecovery.loads_empty_object
           (fun s => s) (fun _ => None) (fun _ => []) (fun _ => [])
           "" "Vectors: a vector is a quantity."
           [("subject", JsonRecovery.JStr "Mathematics")] eq_refl eq_refl).
Defined.

(** The same on prose with a brace that never closes. *)
Example prose_output_lacks_content :
  JsonRecovery.process_with_deepseek JsonRecovery.loads_empty_object
    (fun s => s) (fun _ => None) (fun _ => []) (fun _ => [])
    (JsonRecovery.Completed "Sorry, I cannot produce {JSON for this.")
    "Vectors: a vector is a quantity." []
  = JsonRecovery.JObj [("metadata", JsonRecovery.JObj [])].
Proof. vm_compute. reflexivity. Qed.

(** * Further properties *)

(** ** The score at its two ends *)

Section SimilarityEnds.

Import Similarity.

Lemma equal_of_full_overlap (A B : gset string) :
  size (A ∩ B) = Nat.max (size A) (size B) -> A = B.
Proof.
  intros H.
  assert (HA : (size (A ∩ B) <= size A)%nat)
    by (apply subseteq_size, intersection_subseteq_l).
  assert (HB : (size (A ∩ B) <= size B)%nat)
    by (apply subseteq_size, intersection_subseteq_r).
  assert (EA : A ∩ B = A).
  { apply set_subseteq_size_eq; [apply intersection_subseteq_l | lia]. }
  assert (EB : A ∩ B = B).
  { apply set_subseteq_size_eq; [apply intersection_subseteq_r | lia]. }
  congruence.
Qed.

(** X1. Two filenames score exactly 1 when, and only when, their
    normalized names have the same words and at least one. *)
Theorem similarity_one_iff_same_words :
  forall a b : string,
    (calculate_filename_similarity a b == 1)%Q
    <-> words a = words b /\ words a ≠ ∅.
Proof.
  intros a b. split.
  - intros H. destruct (decide (words a = ∅)) as [Ea|Ea].
    { rewrite similarity_empty in H by now left. discriminate H. }
    destruct (decide (words b = ∅)) as [Eb|Eb].
    { rewrite similarity_empty in H by now right. discriminate H. }
    rewrite similarity_nonempty in H by assumption.
    pose proof (size_pos_of_nonempty _ Ea) as Hpos.
    unfold Qeq in H; cbn [Qnum Qden] in H. rewrite Zpos_of_nat in H by lia.
    split; [|exact Ea]. apply equal_of_full_overlap. lia.
  - intros [E Ha]. rewrite similarity_nonempty by congruence.
    rewrite <- E. rewrite (idemp_L (∩) (words a)), Nat.max_id.
    apply size_pos_of_nonempty in Ha.
    unfold Qeq; cbn [Qnum Qden]. rewrite Zpos_of_nat by lia. lia.
Qed.

(** X2. Two filenames score 0 when, and only when, their normalized names
    share no word (an empty side included). *)
Theorem similarity_zero_iff_no_common_word :
  forall a b : string,
    (calculate_filename_similarity a b == 0)%Q
    <-> words a ∩ words b = ∅.
Proof.
  intros a b. split.
  - intros H. destruct (decide (words a = ∅)) as [Ea|Ea].
    { rewrite Ea. apply (left_absorb_L ∅ (∩)). }
    destruct (decide (words b = ∅)) as [Eb|Eb].
    { rewrite Eb. apply (right_absorb_L ∅ (∩)). }
    rewrite similarity_nonempty in H by assumption.
    unfold Qeq in H; cbn [Qnum Qden] in H.
    apply leibniz_equiv, size_empty_iff. lia.
  - intros H. destruct (decide (words a = ∅)) as [Ea|Ea].
    { rewrite similarity_empty by now left. reflexivity. }
    destruct (decide (words b = ∅)) as [Eb|Eb].
    { rewrite similarity_empty by now right. reflexivity. }
    rewrite similarity_nonempty by assumption. rewrite H, size_empty.
    reflexivity.
Qed.

End SimilarityEnds.

(** ** What the pairs are *)

Module PairingChoice.

Import Pairing PairingProps PairingFacts ChoiceProps.

Lemma gt_false_le (a b : Q) : gt a b = false -> (a <= b)%Q.
Proof.
  unfold gt. rewrite negb_false_iff. apply Qle_bool_iff.
Qed.

Section Choice.

Variable is_sol is_q : string -> bool.
Variable similarity : string -> string -> Q.
Variable similarity_threshold : Q.

Abbreviation scan_question := (scan_question similarity similarity_threshold).
Abbreviation best_for := (best_for similarity similarity_threshold).
Abbreviation match_solution := (match_solution similarity similarity_threshold).
Abbreviation first_pass := (first_pass similarity similarity_threshold).
Abbreviation scan_remaining :=
  (scan_remaining is_sol is_q similarity similarity_threshold).
Abbreviation second_pass :=
  (second_pass is_sol is_q similarity similarity_threshold).
Abbreviation find_pairs :=
  (find_pairs is_sol is_q similarity similarity_threshold).

Abbreviation scored := (scored similarity similarity_threshold).
Abbreviation above := (above similarity similarity_threshold).
Abbreviation preferred := (preferred similarity).

Lemma scan_question_scored paired sol_file best q_file :
  scored sol_file best -> scored sol_file (scan_question paired sol_file best q_file).
Proof.
  intros H. unfold Pairing.scan_question. case_bool_decide; [exact H|].
  destruct (_ && _) eqn:E; [|exact H].
  apply andb_true_iff in E as [E _]. split; [reflexivity | exact E].
Qed.

Lemma best_for_scored paired sol_file question_files :
  scored sol_file (best_for paired sol_file question_files).
Proof.
  unfold Pairing.best_for.
  assert (H : scored sol_file (None, 0%Q)) by exact I.
  revert H. generalize (@None string, 0%Q).
  induction question_files as [|q qs IH]; intros best H; [exact H|].
  cbn [fold_left]. apply IH, scan_question_scored, H.
Qed.

Lemma scan_question_grows paired sol_file best q_file :
  (snd best <= snd (scan_question paired sol_file best q_file))%Q.
Proof.
  unfold Pairing.scan_question. case_bool_decide; [apply Qle_refl|].
  destruct (_ && _) eqn:E; [|apply Qle_refl].
  apply andb_true_iff in E as [_ E]. apply gt_spec in E.
  now apply Qlt_le_weak.
Qed.

(** Every unpaired question file above the threshold scores at most the
    best score. *)
Lemma best_is_highest paired sol_file question_files :
  forall best,
    let final := fold_left (scan_question paired sol_file) question_files best in
    (snd best <= snd final)%Q
    /\ forall q_file, In q_file question_files -> q_file ∉ paired ->
         gt (similarity sol_file q_file) similarity_threshold = true ->
         (similarity sol_file q_file <= snd final)%Q.
Proof.
  induction question_files as [|q qs IH]; intros best; cbn [fold_left].
  - split; [apply Qle_refl | contradiction].
  - destruct (IH (scan_question paired sol_file best q)) as [Hm Hq].
    pose proof (scan_question_grows paired sol_file best q) as Hg.
    split; [eapply Qle_trans; eauto|].
    intros q' [<-|Hin] Hp Ht; [|now apply Hq].
    eapply Qle_trans; [|exact Hm].
    unfold Pairing.scan_question. rewrite bool_decide_eq_false_2 by exact Hp.
    rewrite Ht. cbn [andb].
    destruct (gt (similarity sol_file q) (snd best)) eqn:E;
      [apply Qle_refl | now apply gt_false_le].
Qed.

(** *** Pairs are above the threshold *)

Lemma match_solution_above question_files st sol_file :
  Forall above (pairs st) ->
  Forall above (pairs (match_solution question_files st sol_file)).
Proof.
  intros H. unfold Pairing.match_solution. case_bool_decide; [exact H|].
  pose proof (best_for_scored (paired_files st) sol_file question_files) as Hs.
  unfold ChoiceProps.scored in Hs. destruct (fst _) as [q|]; [|exact H].
  destruct (truthy _); [|exact H]. destruct Hs as [Hs Ht].
  cbn [add_pair pairs]. apply Forall_app. split; [exact H|].
  constructor; [|constructor]. unfold ChoiceProps.above. cbn [fst snd]. now rewrite <- Hs.
Qed.

Lemma first_pass_above solution_files question_files :
  Forall above (pairs (first_pass solution_files question_files)).
Proof.
  unfold Pairing.first_pass.
  assert (H : Forall above (pairs {| pairs := []; paired_files := ∅ |}))
    by constructor.
  revert H. generalize {| pairs := []; paired_files := ∅ |}.
  induction solution_files as [|s sols IH]; intros st H; [exact H|].
  cbn [fold_left]. apply IH, match_solution_above, H.
Qed.

Lemma scan_remaining_above ordered file1 rest :
  (forall a b, similarity a b = similarity b a) ->
  forall st, Forall above (pairs st) ->
    Forall above (pairs (fold_left (scan_remaining ordered file1) rest st)).
Proof.
  intros Hsym. induction rest as [|file2 rest IH]; intros st H; [exact H|].
  cbn [fold_left]. apply IH. unfold Pairing.scan_remaining.
  case_bool_decide; [exact H|]. destruct (gt _ _) eqn:E; [|exact H].
  assert (H12 : above (file1, file2)) by exact E.
  assert (H21 : above (file2, file1))
    by (unfold ChoiceProps.above; cbn [fst snd]; now rewrite Hsym).
  destruct (is_sol file1 && is_q file2).
  - cbn [add_pair pairs]. apply Forall_app. split; [exact H|].
    now repeat constructor.
  - destruct (is_q file1 && is_sol file2); [|exact H].
    destruct ordered; cbn [add_pair pairs]; apply Forall_app;
      (split; [exact H|]); now repeat constructor.
Qed.

Lemma second_pass_above ordered remaining_files :
  (forall a b, similarity a b = similarity b a) ->
  forall st, Forall above (pairs st) ->
    Forall above (pairs (second_pass ordered remaining_files st)).
Proof.
  intros Hsym. induction remaining_files as [|file1 rest IH]; intros st H;
    [exact H|].
  cbn [Pairing.second_pass]. apply IH.
  case_bool_decide; [exact H | now apply scan_remaining_above].
Qed.

Lemma find_pairs_above ordered input :
  (forall a b, similarity a b = similarity b a) ->
  Forall (fun p => (similarity_threshold < similarity (fst p) (snd p))%Q)
    (fst (find_pairs ordered input)).
Proof.
  intros Hsym. unfold Pairing.find_pairs. cbn [fst].
  eapply List.Forall_impl; [|apply second_pass_above;
                              [exact Hsym | apply first_pass_above]].
  intros p Hp. now apply gt_spec.
Qed.

(** *** The first loop takes the best question file left *)

Lemma match_solution_preferred question_files st sol_file :
  preferred question_files st ->
  preferred question_files (match_solution question_files st sol_file).
Proof.
  intros H. unfold Pairing.match_solution. case_bool_decide; [exact H|].
  pose proof (best_for_scored (paired_files st) sol_file question_files) as Hs.
  pose proof (best_is_highest (paired_files st) sol_file question_files
                (None, 0%Q)) as [_ Hmax].
  cbn zeta in Hmax. fold (best_for (paired_files st) sol_file question_files)
    in Hmax.
  unfold ChoiceProps.scored in Hs. destruct (fst _) as [q|]; [|exact H].
  destruct (truthy _); [|exact H]. destruct Hs as [Hs Ht].
  intros s' q' Hin other Ho Hp. cbn [add_pair pairs paired_files] in Hin, Hp.
  assert (Hold : other ∉ paired_files st) by set_solver.
  apply in_app_iff in Hin as [Hin|[Hin|[]]].
  - eapply H; eauto.
  - injection Hin as <- <-. rewrite <- Hs.
    destruct (gt (similarity sol_file other) similarity_threshold) eqn:E.
    + now apply Hmax.
    + apply gt_false_le in E. apply gt_spec in Ht.
      eapply Qle_trans; [exact E | now apply Qlt_le_weak].
Qed.

Lemma first_pass_preferred solution_files question_files :
  preferred question_files (first_pass solution_files question_files).
Proof.
  unfold Pairing.first_pass.
  assert (H : preferred question_files {| pairs := []; paired_files := ∅ |})
    by (intros s q []).
  revert H. generalize {| pairs := []; paired_files := ∅ |}.
  induction solution_files as [|s sols IH]; intros st H; [exact H|].
  cbn [fold_left]. apply IH, match_solution_preferred, H.
Qed.

Lemma find_pairs_preferred ordered input :
  (0 <= similarity_threshold)%Q -> is_q "" = false ->
  (forall a b, similarity a b = similarity b a) ->
  forall sol_file q_file other,
    In (sol_file, q_file) (fst (find_pairs ordered input)) ->
    In other (snd (find_pairs ordered input)) -> is_q other = true ->
    (similarity sol_file other <= similarity sol_file q_file)%Q.
Proof.
  intros Hthr Hne Hsym s q other. unfold Pairing.find_pairs. cbn [fst snd].
  destruct (first_pass_facts is_sol is_q similarity similarity_threshold input)
    as (_ & _ & Hq).
  rewrite (second_pass_quiet is_sol is_q similarity similarity_threshold
             ordered input).
  - intros Hin Ho Hrole. apply unpaired_of_spec in Ho as [Hoi Hop].
    eapply first_pass_preferred; eauto. apply filter_In. auto.
  - apply settled_quiet; auto.
  - intros f Hf. now apply unpaired_of_spec in Hf.
Qed.

End Choice.

End PairingChoice.

Section PairingChoiceClaims.

Import PairingChoice FindPairsAndClassify.

(** X3. Every pair that the three pairing functions return scores above
    the threshold, whichever loop made it. *)
Theorem pairs_score_above_threshold :
  forall (files : list string) (threshold : Q),
    Forall (fun p => (threshold < Streamlined.similarity (fst p) (snd p))%Q)
      (fst (Streamlined.find_question_solution_pairs files threshold))
    /\ Forall (fun p => (threshold
                         < Similarity.calculate_filename_similarity
                             (fst p) (snd p))%Q)
         (fst (Documents.find_pairs_and_classify files threshold))
    /\ forall (C : Type) (classify : string -> C),
         Forall (fun p => (threshold
                           < Similarity.calculate_filename_similarity
                               (fst p) (snd p))%Q)
           (fst (Quick.find_pairs_and_classify C classify files threshold)).
Proof.
  intros files threshold. split; [|split].
  - apply find_pairs_above, streamlined_similarity_sym.
  - unfold Documents.find_pairs_and_classify.
    pose proof (find_pairs_above Documents.is_sol Documents.is_q
                  Similarity.calculate_filename_similarity threshold false
                  (pdf_files files) similarity_sym) as H.
    now destruct (Pairing.find_pairs _ _ _ _ _ _).
  - intros C classify. unfold Quick.find_pairs_and_classify.
    pose proof (find_pairs_above QuickOrganize.is_solution_file
                  QuickOrganize.is_question_file
                  Similarity.calculate_filename_similarity threshold false
                  (pdf_files files) similarity_sym) as H.
    now destruct (Pairing.find_pairs _ _ _ _ _ _).
Qed.

(** X4. With a threshold that is not negative,
    [find_question_solution_pairs] gives each paired solution file the
    best question file there was: no question file left unpaired scores
    higher with it than its partner. *)
Theorem solution_file_gets_best_question_left :
  forall (file_list : list string) (threshold : Q) (sol_file q_file other : string),
    (0 <= threshold)%Q ->
    In (sol_file, q_file)
      (fst (Streamlined.find_question_solution_pairs file_list threshold)) ->
    In other
      (snd (Streamlined.find_question_solution_pairs file_list threshold)) ->
    Streamlined.is_q other = true ->
    (Streamlined.similarity sol_file other
     <= Streamlined.similarity sol_file q_file)%Q.
Proof.
  intros file_list threshold s q other Hthr Hin Ho Hrole.
  eapply (find_pairs_preferred Streamlined.is_sol Streamlined.is_q
            Streamlined.similarity threshold true file_list); eauto.
  apply streamlined_similarity_sym.
Qed.

Lemma solution_file_gets_best_question_left_witness :
  (Streamlined.similarity "a b sol.pdf" "a c qn.pdf"
   <= Streamlined.similarity "a b sol.pdf" "a b qn.pdf")%Q.
Proof.
  assert (E : Streamlined.find_question_solution_pairs
                ["a c qn.pdf"; "a b sol.pdf"; "a b qn.pdf"] (4 # 10)%Q
              = ([("a b sol.pdf", "a b qn.pdf")], ["a c qn.pdf"]))
    by (vm_compute; reflexivity).
  assert (Hthr : (0 <= 4 # 10)%Q) by (unfold Qle; cbn; lia).
  refine (solution_file_gets_best_question_left
            ["a c qn.pdf"; "a b sol.pdf"; "a b qn.pdf"] (4 # 10)%Q
            "a b sol.pdf" "a b qn.pdf" "a c qn.pdf" Hthr _ _ eq_refl).
  - rewrite E. left. reflexivity.
  - rewrite E. left. reflexivity.
Defined.

End PairingChoiceClaims.

Section ThresholdClaims.

Import PairingFacts PairingChoice FindPairsAndClassify.


End ThresholdClaims.

(** ** The recovered record *)

Section RecoveryMore.

Import JsonRecovery.

Variable json_loads : string -> option json.
Variable rewrite_text : string -> string.
Variable content_group : string -> option string.
Variable scraped_concepts scraped_questions : string -> list json.

Local Abbreviation extract := (extract_json_from_text json_loads).
Local Abbreviation process :=
  (process_with_deepseek json_loads rewrite_text content_group
     scraped_concepts scraped_questions).
Local Abbreviation fallback :=
  (create_fallback_json scraped_concepts scraped_questions).

Lemma length_str (l : list ascii) : String.length (str l) = length l.
Proof.
  induction l as [|c l IH]; [reflexivity|].
  cbn [str string_of_list_ascii String.length length]. f_equal. exact IH.
Qed.

Lemma length_chars (s : string) : length (chars s) = String.length s.
Proof.
  induction s as [|c s IH]; [reflexivity|].
  cbn [chars list_ascii_of_string String.length length]. f_equal. exact IH.
Qed.

(** X5. The record built when parsing fails holds at most 5 key concepts
    and 3 practice questions, the first ones scraped, and a summary of at
    most 203 characters: the text itself up to 200 characters, its first
    200 followed by three dots beyond. *)
Theorem fallback_record_is_capped :
  forall (text : string) (metadata : list (string * json)),
    exists summary concepts questions,
      fallback text metadata
      = JObj [("metadata", JObj metadata);
              ("content",
               JObj [("summary", JStr summary);
                     ("key_concepts", JArr concepts);
                     ("practice_questions", JArr questions)]);
              ("related_topics", JArr []);
              ("extraction_method", JStr "fallback")]
      /\ (length concepts <= 5)%nat
      /\ (length questions <= 3)%nat
      /\ concepts = firstn 5 (scraped_concepts text)
      /\ questions = firstn 3 (scraped_questions text)
      /\ (String.length summary <= 203)%nat
      /\ ((String.length text <= 200)%nat -> summary = text)
      /\ ((200 < String.length text)%nat ->
          chars summary = firstn 200 (chars text) ++ chars "...").
Proof.
  intros text metadata.
  exists (summary_of text), (firstn 5 (scraped_concepts text)),
    (firstn 3 (scraped_questions text)).
  split; [reflexivity|]. split; [apply firstn_le_length|].
  split; [apply firstn_le_length|]. split; [reflexivity|].
  split; [reflexivity|]. unfold summary_of.
  destruct (200 <? String.length text)%nat eqn:E.
  - apply Nat.ltb_lt in E. split; [|split].
    + rewrite length_str, length_app, firstn_length_le
        by (rewrite length_chars; lia). cbn. lia.
    + lia.
    + intros _. unfold str, chars.
      now rewrite list_ascii_of_string_of_list_ascii.
  - apply Nat.ltb_ge in E. split; [lia|]. split; [reflexivity | lia].
Qed.

(** *** The braces around the repaired text *)

Lemma braced_shape (l : list ascii) :
  exists body, braced l = chars "{" ++ body ++ chars "}".
Proof.
  unfold braced. set (t := strip l).
  assert (H1 : exists b, match strip_prefix (chars "{") t with
                         | Some _ => t
                         | None => chars "{" ++ t
                         end = "{"%char :: b).
  { destruct (strip_prefix (chars "{") t) as [r|] eqn:E.
    - apply strip_prefix_spec in E. exists r. exact E.
    - now exists t. }
  destruct H1 as [b ->].
  destruct (strip_prefix (chars "}") (rev ("{"%char :: b))) as [r|] eqn:E.
  - apply strip_prefix_spec in E. apply (f_equal (@rev ascii)) in E.
    rewrite rev_involutive in E. cbn in E.
    destruct (rev r) as [|y t'] eqn:Er; cbn in E; [discriminate E|].
    injection E as _ E. exists t'. now subst b.
  - exists b. reflexivity.
Qed.

(** X6. Whenever [fix_json_string] returns, its text starts with an
    opening brace and ends with a closing one. *)
Theorem fixed_text_is_braced :
  forall (json_str : json) (fixed : string),
    fix_json_string rewrite_text json_str = Returned fixed ->
    exists body, chars fixed = chars "{" ++ body ++ chars "}".
Proof.
  intros json_str fixed. unfold fix_json_string.
  destruct (negb (truth json_str)).
  - intros H. injection H as <-. now exists [].
  - destruct json_str; try discriminate. intros H. injection H as <-.
    destruct (braced_shape (chars (rewrite_text s))) as [body E].
    exists body. unfold chars at 1, str.
    now rewrite list_ascii_of_string_of_list_ascii.
Qed.

End RecoveryMore.

Lemma fixed_text_is_braced_witness :
  exists body, chars "{a: 1}" = chars "{" ++ body ++ chars "}".
Proof.
  apply (fixed_text_is_braced (fun s => s) (JsonRecovery.JStr "a: 1")
           "{a: 1}").
  vm_compute. reflexivity.
Defined.

(** ** What reaches the caller *)

Section RecoveryFlow.

Import JsonRecovery.

Variable json_loads : string -> option json.
Variable rewrite_text : string -> string.
Variable content_group : string -> option string.
Variable scraped_concepts scraped_questions : string -> list json.

Local Abbreviation parsed_from := (parsed_from json_loads).
Local Abbreviation extract := (extract_json_from_text json_loads).
Local Abbreviation process :=
  (process_with_deepseek json_loads rewrite_text content_group
     scraped_concepts scraped_questions).
Local Abbreviation fallback :=
  (create_fallback_json scraped_concepts scraped_questions).

Lemma get_set_other (key k : string) (v : json) (fields : list (string * json)) :
  k <> key -> get k (set key v fields) = get k fields.
Proof.
  intros Hne. induction fields as [|[k' w] fields IH]; cbn.
  - destruct (String.eqb key k) eqn:E; [|reflexivity].
    apply String.eqb_eq in E. congruence.
  - destruct (String.eqb k' key) eqn:E; cbn.
    + apply String.eqb_eq in E. subst k'.
      destruct (String.eqb key k) eqn:E'; [|reflexivity].
      apply String.eqb_eq in E'. congruence.
    + now rewrite IH.
Qed.

Lemma get_update_absent (k : string) (other d : list (string * json)) :
  ~ In k (map fst other) -> get k (update d other) = get k d.
Proof.
  unfold update. revert d. induction other as [|[k' v'] other IH]; intros d H.
  - reflexivity.
  - cbn [fold_left fst snd]. rewrite IH.
    + apply get_set_other. intros ->. apply H. now left.
    + intros Hin. apply H. now right.
Qed.

(** [d.update(other)] gives every key of [other] its value in [other]. *)
Lemma get_update (k : string) (v : json) (other d : list (string * json)) :
  List.NoDup (map fst other) -> get k other = Some v ->
  get k (update d other) = Some v.
Proof.
  unfold update. revert d. induction other as [|[k' v'] other IH];
    intros d Hnd Hget; [discriminate Hget|].
  cbn [fold_left fst snd]. cbn [get] in Hget.
  inversion Hnd as [|? ? Hnot Hnd']; subst.
  destruct (String.eqb k' k) eqn:E.
  - apply String.eqb_eq in E. subst k'. injection Hget as ->.
    change (get k (update (set k v d) other) = Some v).
    rewrite get_update_absent by exact Hnot. apply get_set.
  - now apply IH.
Qed.

(** X7. Whatever the model printed, [process_with_deepseek] returns a dict
    whose [metadata] entry is a dict that gives every key of the caller's
    metadata the caller's value. *)
Theorem caller_metadata_is_kept :
  forall (run : run_result) (text : string) (metadata : list (string * json))
         (key : string) (value : json),
    List.NoDup (map fst metadata) ->
    get key metadata = Some value ->
    exists m, result_metadata (process run text metadata) = Some m
              /\ get key m = Some value.
Proof.
  intros run text metadata key value Hnd Hget.
  assert (Hfb : exists m, result_metadata (fallback text metadata) = Some m
                          /\ get key m = Some value)
    by (exists metadata; split; [reflexivity | exact Hget]).
  unfold process_with_deepseek. destruct run as [stdout|]; [|exact Hfb].
  destruct (fix_json_string _ _) as [fixed_json|]; [|exact Hfb].
  destruct (json_loads fixed_json) as [parsed_json|].
  - unfold add_metadata. destruct parsed_json; try exact Hfb.
    destruct (get "metadata" fields) as [[]|] eqn:E; try exact Hfb.
    + exists (update fields0 metadata). unfold result_metadata.
      rewrite get_set. split; [reflexivity | now apply get_update].
    + exists metadata. unfold result_metadata. rewrite get_set. auto.
  - unfold content_only. destruct (content_group fixed_json); [|exact Hfb].
    destruct (json_loads _) as [content_parsed|]; [|exact Hfb].
    unfold set_metadata. destruct content_parsed; try exact Hfb.
    exists metadata. unfold result_metadata. rewrite get_set. auto.
Qed.

(** X8. When the output of the model holds JSON that parses to a value
    other than a string and that is true in Python (a dict or a list with
    something in it, a number other than 0), that value is not returned:
    the result is the record scraped from the text. *)
Theorem parsed_output_is_replaced_by_fallback :
  forall (stdout text : string) (metadata : list (string * json)),
    truth (extract (str (strip (chars stdout)))) = true ->
    (forall s, extract (str (strip (chars stdout))) <> JStr s) ->
    process (Completed stdout) text metadata = fallback text metadata.
Proof.
  intros stdout text metadata Ht Hs. unfold process_with_deepseek.
  unfold fix_json_string. rewrite Ht. cbn [negb].
  destruct (extract _) eqn:E; try reflexivity.
  exfalso. now apply (Hs s).
Qed.

(** *** Where the extracted value comes from *)

Lemma substring_refl (l : list ascii) : substring l l.
Proof. exists [], []. now rewrite app_nil_r. Qed.

Lemma substring_trans (a b c : list ascii) :
  substring a b -> substring b c -> substring a c.
Proof.
  intros (p1 & q1 & ->) (p2 & q2 & ->). exists (p2 ++ p1), (q1 ++ q2).
  now rewrite <- !app_assoc.
Qed.

Lemma substring_slice (i j : Z) (l : list ascii) : substring (slice i j l) l.
Proof.
  unfold slice. exists (firstn (Z.to_nat i) l),
    (skipn (Z.to_nat (j - i)) (skipn (Z.to_nat i) l)).
  now rewrite firstn_skipn, firstn_skipn.
Qed.

Lemma lstrip_suffix (l : list ascii) : exists pre, l = pre ++ lstrip l.
Proof.
  induction l as [|c l [pre IH]]; [now exists []|]. cbn.
  destruct (is_space c); [|now exists []].
  exists (c :: pre). cbn. now f_equal.
Qed.

Lemma substring_strip (l : list ascii) : substring (strip l) l.
Proof.
  unfold strip, rstrip. destruct (lstrip_suffix l) as [pre Hl].
  destruct (lstrip_suffix (rev (lstrip l))) as [post Hr].
  exists pre, (rev post). rewrite Hl at 1. f_equal.
  rewrite <- rev_app_distr, <- Hr. now rewrite rev_involutive.
Qed.

Lemma chars_str (l : list ascii) : chars (str l) = l.
Proof. apply list_ascii_of_string_of_list_ascii. Qed.

Lemma loads_or_skip_from (text piece : list ascii) (otherwise : json) :
  substring piece text ->
  otherwise = JNull \/ parsed_from text otherwise ->
  loads_or_skip json_loads piece otherwise = JNull
  \/ parsed_from text (loads_or_skip json_loads piece otherwise).
Proof.
  intros Hp Ho. unfold loads_or_skip.
  destruct (json_loads (str piece)) eqn:E; [|exact Ho].
  right. now exists piece.
Qed.

(** X9. [extract_json_from_text] returns [None] or what [json.loads] made
    of a piece of the text: the value is never made up. *)
Theorem extracted_value_is_parsed_from_text :
  forall text : string,
    extract text = JNull \/ parsed_from (chars text) (extract text).
Proof.
  intros text. unfold extract_json_from_text.
  destruct (String.eqb text ""); [now left|].
  set (t := chars text).
  assert (Hb : braces_span json_loads t = JNull
               \/ parsed_from t (braces_span json_loads t)).
  { unfold braces_span. destruct (_ && _); [|now left].
    apply loads_or_skip_from; [apply substring_slice | now left]. }
  assert (Hs : single_backticks json_loads t = JNull
               \/ parsed_from t (single_backticks json_loads t)).
  { unfold single_backticks. destruct (negb _); [|exact Hb].
    destruct (negb _); [|exact Hb].
    apply loads_or_skip_from; [|exact Hb].
    eapply substring_trans; [apply substring_strip | apply substring_slice]. }
  unfold triple_backticks. destruct (negb _); [|exact Hs].
  destruct (negb _); [|exact Hs].
  apply loads_or_skip_from; [|exact Hs].
  eapply substring_trans; [apply substring_strip | apply substring_slice].
Qed.

End RecoveryFlow.

Lemma caller_metadata_is_kept_witness :
  exists m,
    result_metadata
      (JsonRecovery.process_with_deepseek
         (fun _ => Some (JsonRecovery.JObj
                           [("metadata",
                             JsonRecovery.JObj
                               [("subject", JsonRecovery.JStr "Physics")])]))
         (fun s => s) (fun _ => None) (fun _ => []) (fun _ => [])
         (JsonRecovery.Completed "") "Vectors."
         [("subject", JsonRecovery.JStr "Mathematics")])
    = Some m
    /\ JsonRecovery.get "subject" m = Some (JsonRecovery.JStr "Mathematics").
Proof.
  apply (caller_metadata_is_kept
           (fun _ => Some (JsonRecovery.JObj
                             [("metadata",
                               JsonRecovery.JObj
                                 [("subject", JsonRecovery.JStr "Physics")])]))
           (fun s => s) (fun _ => None) (fun _ => []) (fun _ => [])
           (JsonRecovery.Completed "") "Vectors."
           [("subject", JsonRecovery.JStr "Mathematics")]
           "subject" (JsonRecovery.JStr "Mathematics")).
  - repeat constructor. intros [].
  - reflexivity.
Defined.

Lemma parsed_output_is_replaced_by_fallback_witness :
  JsonRecovery.process_with_deepseek
    (fun _ => Some (JsonRecovery.JObj [("content", JsonRecovery.JNull)]))
    (fun s => s) (fun _ => None) (fun _ => []) (fun _ => [])
    (JsonRecovery.Completed "{}") "Vectors." []
  = JsonRecovery.create_fallback_json (fun _ => []) (fun _ => []) "Vectors." [].
Proof.
  apply (parsed_output_is_replaced_by_fallback
           (fun _ => Some (JsonRecovery.JObj [("content", JsonRecovery.JNull)]))
           (fun s => s) (fun _ => None) (fun _ => []) (fun _ => [])
           "{}" "Vectors." []).
  - reflexivity.
  - intros s H. vm_compute in H. discriminate H.
Defined.

(** ** Chunks *)

Module ChunkFacts.

Import Chunks ChunkProps.

Lemma place_paragraphs_are_pieces (max_chunk_size : Z) (paragraphs : list (list ascii)) :
  forall st,
    fold_left (place_paragraph max_chunk_size) paragraphs st
    = fold_left (place max_chunk_size)
        (flat_map (fun paragraph =>
                     if (len paragraph >? max_chunk_size)%Z
                     then split_sentences paragraph
                     else [paragraph]) paragraphs) st.
Proof.
  induction paragraphs as [|p ps IH]; intros st; [reflexivity|].
  cbn [fold_left flat_map]. rewrite fold_left_app, IH.
  unfold place_paragraph. now destruct (len p >? max_chunk_size)%Z.
Qed.

(** The chunks of a text that is not empty: the pieces placed one by one,
    then the chunk in hand. *)
Lemma chunk_text_unfold (text : string) (max_chunk_size : Z) :
  text <> "" ->
  let st := fold_left (place max_chunk_size) (pieces text max_chunk_size)
              {| chunks := []; current_chunk := []; current_size := 0 |} in
  current_chunk st <> []
  -> chunk_text text max_chunk_size
     = map str (chunks st ++ [join blank_line (current_chunk st)]).
Proof.
  intros Hne st Hcur. unfold chunk_text.
  destruct (String.eqb text "") eqn:E; [apply String.eqb_eq in E; congruence|].
  rewrite place_paragraphs_are_pieces. fold (pieces text max_chunk_size).
  fold st. destruct (current_chunk st) as [|c cs] eqn:Ec; [congruence|].
  destruct (chunks st ++ _) eqn:Ea; [|reflexivity].
  apply app_eq_nil in Ea as [_ Ea]. discriminate Ea.
Qed.

Lemma place_current_nonempty (max_chunk_size : Z) (st : state) (piece : list ascii) :
  current_chunk (place max_chunk_size st piece) <> [].
Proof.
  unfold place. destruct (_ >? _)%Z; cbn; [discriminate|].
  intros H. apply app_eq_nil in H as [_ H]. discriminate H.
Qed.

Lemma fold_place_current_nonempty (max_chunk_size : Z) (items : list (list ascii)) :
  forall st, (items <> [] \/ current_chunk st <> []) ->
    current_chunk (fold_left (place max_chunk_size) items st) <> [].
Proof.
  induction items as [|p ps IH]; intros st H; cbn [fold_left].
  - destruct H; congruence.
  - apply IH. right. apply place_current_nonempty.
Qed.

Lemma split_blank_nonempty (s : list ascii) : split_blank s <> [].
Proof.
  destruct s as [|c [|d s]]; [discriminate | discriminate |].
  change (split_blank (c :: d :: s))
    with (if Ascii.eqb c "010" && Ascii.eqb d "010"
          then [] :: split_blank s
          else add_head c (split_blank (d :: s))).
  destruct (_ && _); [discriminate|].
  unfold add_head. destruct (split_blank (d :: s)); discriminate.
Qed.

Lemma sentences_from_nonempty (a g : bool) (s : list ascii) :
  sentences_from a g s <> [].
Proof.
  revert a g. induction s as [|c s IH]; intros a g; cbn; [discriminate|].
  destruct (is_space c && (g || a)).
  - destruct g; [apply IH | discriminate].
  - destruct (sentences_from (is_stop c) false s); discriminate.
Qed.

Lemma pieces_nonempty (text : string) (max_chunk_size : Z) :
  pieces text max_chunk_size <> [].
Proof.
  unfold pieces. pose proof (split_blank_nonempty (chars text)) as H.
  destruct (split_blank (chars text)) as [|p ps]; [congruence|].
  cbn [flat_map]. destruct (len p >? max_chunk_size)%Z.
  - pose proof (sentences_from_nonempty false false p) as Hs.
    unfold split_sentences. destruct (sentences_from false false p);
      [congruence | discriminate].
  - discriminate.
Qed.

(** A text that is not empty always ends with the chunk in hand. *)
Lemma chunk_text_chunks (text : string) (max_chunk_size : Z) :
  text <> "" ->
  let st := fold_left (place max_chunk_size) (pieces text max_chunk_size)
              {| chunks := []; current_chunk := []; current_size := 0 |} in
  chunk_text text max_chunk_size
  = map str (chunks st ++ [join blank_line (current_chunk st)]).
Proof.
  intros Hne st. apply chunk_text_unfold; [exact Hne|].
  apply fold_place_current_nonempty. left. apply pieces_nonempty.
Qed.

(** *** Lengths *)

Lemma len_app (a b : list ascii) : len (a ++ b) = (len a + len b)%Z.
Proof. unfold len. rewrite length_app. lia. Qed.

Lemma len_nonneg (a : list ascii) : (0 <= len a)%Z.
Proof. unfold len. lia. Qed.

Lemma join_snoc (sep : list ascii) (items : list (list ascii)) (p : list ascii) :
  items <> [] -> join sep (items ++ [p]) = join sep items ++ sep ++ p.
Proof.
  induction items as [|x rest IH]; intros H; [congruence|].
  destruct rest as [|y rest]; [reflexivity|].
  change (join sep ((x :: y :: rest) ++ [p]))
    with (x ++ sep ++ join sep ((y :: rest) ++ [p])).
  rewrite IH by discriminate.
  change (join sep (x :: y :: rest)) with (x ++ sep ++ join sep (y :: rest)).
  now rewrite <- !app_assoc.
Qed.

Lemma len_join_snoc (items : list (list ascii)) (p : list ascii) :
  (len (join blank_line (items ++ [p]))
   <= len (join blank_line items) + len p + 2)%Z.
Proof.
  destruct items as [|x rest].
  - cbn. pose proof (len_nonneg p). change (len []) with 0%Z. lia.
  - rewrite join_snoc by discriminate. rewrite !len_app.
    change (len blank_line) with 2%Z. lia.
Qed.

(** *** No chunk too long *)

Lemma within_more (max_chunk_size : Z) (seen more : list (list ascii)) (st : state) :
  within max_chunk_size seen st -> within max_chunk_size (seen ++ more) st.
Proof.
  intros (H1 & H2 & H3). split; [exact H1|]. split.
  - destruct H2 as [H2|(p & E & Hin)]; [now left|].
    right. exists p. split; [exact E | apply in_app_iff; now left].
  - eapply List.Forall_impl; [|exact H3]. intros c [Hc|Hc]; [now left|].
    right. apply in_app_iff. now left.
Qed.

Lemma place_within (max_chunk_size : Z) (seen : list (list ascii)) (st : state)
    (piece : list ascii) :
  within max_chunk_size seen st ->
  within max_chunk_size (seen ++ [piece]) (place max_chunk_size st piece).
Proof.
  intros H. apply (within_more _ _ [piece]) in H.
  destruct H as (H1 & H2 & H3). unfold place.
  destruct (_ >? _)%Z eqn:E; split; cbn [chunks current_chunk current_size].
  - cbn. lia.
  - split.
    + right. exists piece. split; [reflexivity|]. apply in_app_iff.
      right. now left.
    + apply Forall_app. split; [exact H3|]. constructor; [|constructor].
      destruct H2 as [H2|(p & Ep & Hin)]; [left; lia|].
      right. now rewrite Ep.
  - pose proof (len_join_snoc (current_chunk st) piece). lia.
  - split; [|exact H3]. left. rewrite Z.gtb_ltb in E.
    apply Z.ltb_ge in E. lia.
Qed.

Lemma fold_place_within (max_chunk_size : Z) (items : list (list ascii)) :
  forall seen st,
    within max_chunk_size seen st ->
    within max_chunk_size (seen ++ items)
      (fold_left (place max_chunk_size) items st).
Proof.
  induction items as [|p ps IH]; intros seen st H; cbn [fold_left].
  - now rewrite app_nil_r.
  - replace (seen ++ p :: ps) with ((seen ++ [p]) ++ ps)
      by now rewrite <- app_assoc.
    apply IH, place_within, H.
Qed.

(** *** Nothing left out *)

Lemma substring_join (sep : list ascii) (items : list (list ascii)) (p : list ascii) :
  In p items -> substring p (join sep items).
Proof.
  induction items as [|x rest IH]; intros H; [contradiction|].
  destruct rest as [|y rest].
  - destruct H as [->|[]]. apply substring_refl.
  - change (join sep (x :: y :: rest)) with (x ++ sep ++ join sep (y :: rest)).
    destruct H as [->|H].
    + exists [], (sep ++ join sep (y :: rest)). reflexivity.
    + destruct (IH H) as (pre & post & E). rewrite E.
      exists (x ++ sep ++ pre), post. now rewrite <- !app_assoc.
Qed.

Lemma place_kept (max_chunk_size : Z) (seen : list (list ascii)) (st : state)
    (piece : list ascii) :
  kept seen st -> kept (seen ++ [piece]) (place max_chunk_size st piece).
Proof.
  intros H q Hq. unfold place.
  destruct (_ >? _)%Z; cbn [chunks current_chunk].
  - apply in_app_iff in Hq as [Hq|[<-|[]]]; [|right; now left].
    left. destruct (H q Hq) as [(c & Hc & Hs)|Hin].
    + exists c. split; [apply in_app_iff; now left | exact Hs].
    + exists (join blank_line (current_chunk st)). split.
      * apply in_app_iff. right. now left.
      * now apply substring_join.
  - apply in_app_iff in Hq as [Hq|[<-|[]]].
    + destruct (H q Hq) as [Hc|Hin]; [now left|].
      right. apply in_app_iff. now left.
    + right. apply in_app_iff. right. now left.
Qed.

Lemma fold_place_kept (max_chunk_size : Z) (items : list (list ascii)) :
  forall seen st,
    kept seen st ->
    kept (seen ++ items) (fold_left (place max_chunk_size) items st).
Proof.
  induction items as [|p ps IH]; intros seen st H; cbn [fold_left].
  - now rewrite app_nil_r.
  - replace (seen ++ p :: ps) with ((seen ++ [p]) ++ ps)
      by now rewrite <- app_assoc.
    apply IH, place_kept, H.
Qed.

End ChunkFacts.

Section ChunkClaims.

Import Chunks ChunkFacts.

(** X10. With a chunk size that is not negative, every chunk of a text
    that is not empty has at most that many characters, unless it is a
    single sentence or paragraph that is itself longer. *)
Theorem chunk_is_short_or_single_piece :
  forall (text : string) (max_chunk_size : Z) (chunk : string),
    text <> "" -> (0 <= max_chunk_size)%Z ->
    In chunk (chunk_text text max_chunk_size) ->
    (Z.of_nat (String.length chunk) <= max_chunk_size)%Z
    \/ In (chars chunk) (pieces text max_chunk_size).
Proof.
  intros text max_chunk_size chunk Hne Hmax Hin.
  rewrite chunk_text_chunks in Hin by exact Hne.
  pose proof (fold_place_within max_chunk_size (pieces text max_chunk_size) []
                {| chunks := []; current_chunk := []; current_size := 0 |})
    as H.
  destruct H as (H1 & H2 & H3).
  { split; [unfold len; cbn; lia|].
    split; [left; exact Hmax | constructor]. }
  cbn [app] in H1, H2, H3. apply in_map_iff in Hin as (c & <- & Hc).
  rewrite chars_str, length_str. fold (len c).
  apply in_app_iff in Hc as [Hc|[<-|[]]].
  - rewrite List.Forall_forall in H3. now apply H3.
  - destruct H2 as [H2|(p & Ep & Hp)]; [left; lia|].
    right. now rewrite Ep.
Qed.

Lemma chunk_is_short_or_single_piece_witness :
  (Z.of_nat (String.length "Three is longer.") <= 12)%Z
  \/ In (chars "Three is longer.") (pieces "One. Two. Three is longer." 12).
Proof.
  apply (chunk_is_short_or_single_piece "One. Two. Three is longer." 12
           "Three is longer.").
  - discriminate.
  - lia.
  - vm_compute. right. left. reflexivity.
Defined.

(** X11. No sentence or paragraph of the text is left out: each one is
    inside some chunk. *)
Theorem every_piece_is_in_a_chunk :
  forall (text : string) (max_chunk_size : Z) (piece : list ascii),
    text <> "" ->
    In piece (pieces text max_chunk_size) ->
    exists chunk, In chunk (chunk_text text max_chunk_size)
                  /\ substring piece (chars chunk).
Proof.
  intros text max_chunk_size piece Hne Hin.
  rewrite chunk_text_chunks by exact Hne.
  pose proof (fold_place_kept max_chunk_size (pieces text max_chunk_size) []
                {| chunks := []; current_chunk := []; current_size := 0 |})
    as H.
  cbn [app] in H. destruct (H (fun _ F => match F with end) piece Hin)
    as [(c & Hc & Hs)|Hcur].
  - exists (str c). split; [|now rewrite chars_str].
    apply in_map, in_app_iff. now left.
  - eexists (str _). split.
    + apply in_map, in_app_iff. right. left. reflexivity.
    + rewrite chars_str. now apply substring_join.
Qed.

Lemma every_piece_is_in_a_chunk_witness :
  exists chunk,
    In chunk (chunk_text "One. Two. Three is longer." 12)
    /\ substring (chars "Three is longer.") (chars chunk).
Proof.
  apply (every_piece_is_in_a_chunk "One. Two. Three is longer." 12
           (chars "Three is longer.")).
  - discriminate.
  - vm_compute. right. right. left. reflexivity.
Defined.

End ChunkClaims.

(** ** Short texts, first chunks and difficulty *)

Module ChunkRoundTrip.

Import Chunks ChunkFacts.

Lemma counted_cons (p : list ascii) (items : list (list ascii)) :
  counted (p :: items) = (len p + 2 + counted items)%Z.
Proof. reflexivity. Qed.

Lemma counted_nonneg (items : list (list ascii)) : (0 <= counted items)%Z.
Proof.
  induction items as [|p ps IH]; [cbn; lia|].
  rewrite counted_cons. pose proof (len_nonneg p). lia.
Qed.

Lemma counted_snoc (items : list (list ascii)) (p : list ascii) :
  counted (items ++ [p]) = (counted items + len p + 2)%Z.
Proof.
  induction items as [|x xs IH].
  - cbn [app]. rewrite counted_cons. cbn. lia.
  - cbn [app]. rewrite !counted_cons, IH. lia.
Qed.

Lemma split_blank_step (c d : ascii) (s : list ascii) :
  split_blank (c :: d :: s)
  = if Ascii.eqb c "010" && Ascii.eqb d "010"
    then [] :: split_blank s
    else add_head c (split_blank (d :: s)).
Proof. reflexivity. Qed.

Lemma join_cons (sep x : list ascii) (rest : list (list ascii)) :
  rest <> [] -> join sep (x :: rest) = x ++ sep ++ join sep rest.
Proof. destruct rest; [congruence | reflexivity]. Qed.

Lemma join_add_head (sep : list ascii) (c : ascii) (items : list (list ascii)) :
  items <> [] -> join sep (add_head c items) = c :: join sep items.
Proof.
  destruct items as [|p [|q ps]]; [congruence | reflexivity | reflexivity].
Qed.

Lemma counted_add_head (c : ascii) (items : list (list ascii)) :
  items <> [] -> counted (add_head c items) = (1 + counted items)%Z.
Proof.
  destruct items as [|p ps]; [congruence|]. intros _. cbn [add_head].
  rewrite !counted_cons. unfold len. cbn [length]. lia.
Qed.

(** Splitting at blank lines and joining with blank lines gives the text
    back, and the size counted for the paragraphs is two more than its
    length. *)
Lemma split_blank_round_trip (n : nat) :
  forall s, (length s <= n)%nat ->
    join blank_line (split_blank s) = s
    /\ counted (split_blank s) = (len s + 2)%Z.
Proof.
  induction n as [|n IH]; intros s Hn.
  - destruct s; [|cbn in Hn; lia]. split; reflexivity.
  - destruct s as [|c [|d s]]; [split; reflexivity | split; reflexivity |].
    rewrite split_blank_step. destruct (_ && _) eqn:E.
    + apply andb_true_iff in E as [Ec Ed].
      apply Ascii.eqb_eq in Ec, Ed. subst c d.
      destruct (IH s) as [Hj Hc]; [cbn in Hn; lia|].
      split.
      * rewrite join_cons by apply split_blank_nonempty. now rewrite Hj.
      * rewrite counted_cons, Hc. unfold len. cbn [length]. lia.
    + destruct (IH (d :: s)) as [Hj Hc]; [cbn in Hn |- *; lia|].
      split.
      * rewrite join_add_head by apply split_blank_nonempty. now rewrite Hj.
      * rewrite counted_add_head by apply split_blank_nonempty.
        rewrite Hc. unfold len. cbn [length]. lia.
Qed.

Lemma fold_place_all_fit (max_chunk_size : Z) (items : list (list ascii)) :
  forall st,
    chunks st = [] ->
    current_size st = counted (current_chunk st) ->
    (counted (current_chunk st) + counted items <= max_chunk_size)%Z ->
    let st' := fold_left (place_paragraph max_chunk_size) items st in
    chunks st' = [] /\ current_chunk st' = current_chunk st ++ items.
Proof.
  induction items as [|p ps IH]; intros st Hc Hs Hfit; cbn [fold_left].
  - split; [exact Hc | now rewrite app_nil_r].
  - rewrite counted_cons in Hfit.
    pose proof (counted_nonneg ps) as Hps. pose proof (len_nonneg p) as Hp.
    pose proof (counted_nonneg (current_chunk st)) as Hcur.
    assert (E : place_paragraph max_chunk_size st p
                = {| chunks := [];
                     current_chunk := current_chunk st ++ [p];
                     current_size := (current_size st + len p + 2)%Z |}).
    { unfold place_paragraph.
      replace (len p >? max_chunk_size)%Z with false
        by (symmetry; rewrite Z.gtb_ltb; apply Z.ltb_ge; lia).
      unfold place.
      replace (current_size st + len p + 2 >? max_chunk_size)%Z with false
        by (symmetry; rewrite Z.gtb_ltb; apply Z.ltb_ge; lia).
      now rewrite Hc. }
    rewrite E. destruct (IH {| chunks := [];
                               current_chunk := current_chunk st ++ [p];
                               current_size := (current_size st + len p + 2)%Z |})
      as [H1 H2]; cbn [chunks current_chunk current_size].
    + reflexivity.
    + rewrite counted_snoc. lia.
    + rewrite counted_snoc. lia.
    + split; [exact H1|]. rewrite H2. cbn [current_chunk].
      rewrite <- app_assoc. reflexivity.
Qed.

Lemma fold_place_chunks_grow (max_chunk_size : Z) (items : list (list ascii)) :
  forall st, exists more,
    chunks (fold_left (place max_chunk_size) items st) = chunks st ++ more.
Proof.
  induction items as [|p ps IH]; intros st; cbn [fold_left].
  - exists []. now rewrite app_nil_r.
  - destruct (IH (place max_chunk_size st p)) as [more E]. rewrite E.
    unfold place. destruct (_ >? _)%Z; cbn [chunks].
    + eexists. now rewrite <- app_assoc.
    + now exists more.
Qed.

End ChunkRoundTrip.

Section ChunkEdges.

Import Chunks ChunkFacts ChunkRoundTrip.

(** X12. A text that is not empty and whose length plus 2 is within the
    chunk size comes back as one chunk, the text itself. *)
Theorem short_text_is_one_chunk :
  forall (text : string) (max_chunk_size : Z),
    text <> "" ->
    (Z.of_nat (String.length text) + 2 <= max_chunk_size)%Z ->
    chunk_text text max_chunk_size = [text].
Proof.
  intros text max_chunk_size Hne Hfit. unfold chunk_text.
  destruct (String.eqb text "") eqn:E; [apply String.eqb_eq in E; congruence|].
  destruct (split_blank_round_trip (length (chars text)) (chars text))
    as [Hj Hc]; [lia|].
  destruct (fold_place_all_fit max_chunk_size (split_blank (chars text))
              {| chunks := []; current_chunk := []; current_size := 0 |})
    as [H1 H2]; cbn [chunks current_chunk current_size counted fold_right].
  - reflexivity.
  - reflexivity.
  - rewrite Hc. unfold len. rewrite length_chars. lia.
  - cbn zeta in H1, H2. rewrite H1, H2. cbn [app].
    pose proof (split_blank_nonempty (chars text)) as Hs.
    destruct (split_blank (chars text)) as [|p ps] eqn:Es; [congruence|].
    cbn [current_chunk app map]. rewrite Hj. f_equal. apply str_chars.
Qed.

Lemma short_text_is_one_chunk_witness :
  chunk_text "Vectors.

A vector has a size." 3000 = ["Vectors.

A vector has a size."].
Proof.
  apply short_text_is_one_chunk; [discriminate | cbn; lia].
Defined.

(** X13. When the first sentence or paragraph of the text does not fit an
    empty chunk (its length plus 2 is over the chunk size), the first
    chunk returned is empty. *)
Theorem first_chunk_is_empty_when_first_piece_does_not_fit :
  forall (text : string) (max_chunk_size : Z) (piece : list ascii),
    text <> "" ->
    hd_error (pieces text max_chunk_size) = Some piece ->
    (max_chunk_size < len piece + 2)%Z ->
    exists more, chunk_text text max_chunk_size = "" :: more.
Proof.
  intros text max_chunk_size piece Hne Hhd Hbig.
  rewrite chunk_text_chunks by exact Hne.
  destruct (pieces text max_chunk_size) as [|p ps]; [discriminate Hhd|].
  injection Hhd as ->. cbn [fold_left].
  destruct (fold_place_chunks_grow max_chunk_size ps
              (place max_chunk_size
                 {| chunks := []; current_chunk := []; current_size := 0 |}
                 piece)) as [more E].
  rewrite E. unfold place at 1. cbn [current_size chunks current_chunk].
  replace (0 + len piece + 2 >? max_chunk_size)%Z with true
    by (symmetry; rewrite Z.gtb_ltb; apply Z.ltb_lt; lia).
  cbn [chunks app join map]. eexists. reflexivity.
Qed.

Lemma first_chunk_is_empty_when_first_piece_does_not_fit_witness :
  exists more, chunk_text "A paragraph of thirty-one chars" 32 = "" :: more.
Proof.
  apply (first_chunk_is_empty_when_first_piece_does_not_fit
           "A paragraph of thirty-one chars" 32
           (chars "A paragraph of thirty-one chars")).
  - discriminate.
  - reflexivity.
  - unfold len. cbn. lia.
Defined.

Lemma filter_none {A : Type} (f : A -> bool) (l : list A) :
  (forall x, In x l -> f x = false) -> List.filter f l = [].
Proof.
  induction l as [|x l IH]; intros H; [reflexivity|].
  cbn [List.filter]. rewrite (H x) by now left.
  apply IH. intros y Hy. apply H. now right.
Qed.

(** X14. A question of more than 600 characters is Hard whatever its
    words; a question with none of the advanced terms is Easy up to 300
    characters and Medium from 301 to 600. *)
Theorem difficulty_by_length :
  forall question : string,
    ((600 < String.length question)%nat ->
     estimate_difficulty question = "Hard")
    /\ ((forall term, In term advanced_terms ->
           ~ substring (chars term) (lower (chars question))) ->
        ((String.length question <= 300)%nat ->
         estimate_difficulty question = "Easy")
        /\ ((300 < String.length question <= 600)%nat ->
            estimate_difficulty question = "Medium")).
Proof.
  intros question. unfold estimate_difficulty.
  set (count := length _). set (n := String.length question).
  split.
  - intros Hlen.
    replace (Pairing.gt (inject_Z (Z.of_nat count) + (Z.of_nat n # 200)) 3)
      with true; [reflexivity|].
    symmetry. apply PairingFacts.gt_spec.
    unfold Qlt, Qplus, inject_Z; cbn [Qnum Qden]. lia.
  - intros Hnone.
    assert (Hc : count = 0%nat).
    { subst count. rewrite filter_none; [reflexivity|].
      intros term Hin. apply not_true_is_false. intros E.
      apply contains_spec in E. now apply (Hnone term). }
    rewrite Hc. split; intros Hlen.
    + replace (Pairing.gt (inject_Z (Z.of_nat 0) + (Z.of_nat n # 200)) 3)
        with false.
      2:{ symmetry. apply not_true_is_false. intros H.
          apply PairingFacts.gt_spec in H. revert H.
          unfold Qlt, Qplus, inject_Z; cbn [Qnum Qden]. lia. }
      replace (Pairing.gt (inject_Z (Z.of_nat 0) + (Z.of_nat n # 200)) (15 # 10))
        with false; [reflexivity|].
      symmetry. apply not_true_is_false. intros H.
      apply PairingFacts.gt_spec in H. revert H.
      unfold Qlt, Qplus, inject_Z; cbn [Qnum Qden]. lia.
    + replace (Pairing.gt (inject_Z (Z.of_nat 0) + (Z.of_nat n # 200)) 3)
        with false.
      2:{ symmetry. apply not_true_is_false. intros H.
          apply PairingFacts.gt_spec in H. revert H.
          unfold Qlt, Qplus, inject_Z; cbn [Qnum Qden]. lia. }
      replace (Pairing.gt (inject_Z (Z.of_nat 0) + (Z.of_nat n # 200)) (15 # 10))
        with true; [reflexivity|].
      symmetry. apply PairingFacts.gt_spec.
      unfold Qlt, Qplus, inject_Z; cbn [Qnum Qden]. lia.
Qed.

End ChunkEdges.

(** ** Substitution of a class and of runs of a class *)

Module SubFacts.

Lemma consumed_one (c : ascii) (s : list ascii) : consumed (c :: s) s = 1%nat.
Proof. unfold consumed. cbn [length]. lia. Qed.

(** [re.sub] of a one-character class rewrites the characters one by one. *)
Lemma sub_class (p : ascii -> bool) (repl s : list ascii) :
  sub (Chr p) repl s = flat_map (fun c => if p c then repl else [c]) s.
Proof.
  unfold sub. generalize (@None ascii).
  induction s as [|c s IH]; intros prev; [reflexivity|].
  cbn [sub_from flat_map]. unfold match_at. cbn [rmatch].
  destruct (p c).
  - rewrite consumed_one. now rewrite IH.
  - now rewrite IH.
Qed.

Lemma starC_skips (p : ascii -> bool) (prev : option ascii) (s : list ascii) :
  starC p (fun _ rest => Some rest) prev s = Some (skip_class p s).
Proof.
  revert prev. induction s as [|c s IH]; intros prev; [reflexivity|].
  cbn [starC skip_class]. destruct (p c); [|reflexivity]. now rewrite IH.
Qed.

Lemma match_run (p : ascii -> bool) (prev : option ascii) (c : ascii)
    (s : list ascii) :
  match_at (plusC p) prev (c :: s)
  = if p c then Some (skip_class p s) else None.
Proof.
  unfold match_at, plusC. cbn [rmatch]. destruct (p c); [|reflexivity].
  apply starC_skips.
Qed.

Lemma skip_class_length (p : ascii -> bool) (s : list ascii) :
  (length (skip_class p s) <= length s)%nat.
Proof.
  induction s as [|c s IH]; [reflexivity|]. cbn [skip_class].
  destruct (p c); cbn [length]; lia.
Qed.

(** The characters still to drop do not depend on the character before. *)
Lemma sub_run_prev (p : ascii -> bool) (repl s : list ascii) :
  forall n prev prev',
    sub_from (plusC p) repl n prev s = sub_from (plusC p) repl n prev' s.
Proof.
  induction s as [|c s IH]; intros n prev prev'; [reflexivity|].
  cbn [sub_from]. destruct n as [|n]; [|apply IH].
  rewrite !match_run. reflexivity.
Qed.

Lemma sub_run_skip (p : ascii -> bool) (repl : list ascii) :
  forall n s prev,
    (n <= length s)%nat ->
    sub_from (plusC p) repl n prev s
    = sub_from (plusC p) repl 0 None (skipn n s).
Proof.
  induction n as [|n IH]; intros s prev Hn.
  - cbn [skipn]. apply sub_run_prev.
  - destruct s as [|c s]; [cbn in Hn; lia|].
    cbn [sub_from skipn]. apply IH. cbn in Hn. lia.
Qed.

Lemma skip_class_as_skipn (p : ascii -> bool) (s : list ascii) :
  skip_class p s = skipn (length s - length (skip_class p s)) s.
Proof.
  induction s as [|c s IH]; [reflexivity|]. cbn [skip_class].
  destruct (p c).
  - pose proof (skip_class_length p s).
    replace (length (c :: s) - length (skip_class p s))%nat
      with (S (length s - length (skip_class p s)))
      by (cbn [length]; lia).
    cbn [skipn]. exact IH.
  - now rewrite Nat.sub_diag.
Qed.

Lemma squeeze_in_run (p : ascii -> bool) (repl s : list ascii) :
  squeeze p repl true s = squeeze p repl false (skip_class p s).
Proof.
  induction s as [|c s IH]; [reflexivity|]. cbn [squeeze skip_class].
  destruct (p c) eqn:E; [exact IH|]. cbn [squeeze]. now rewrite E.
Qed.

(** [re.sub] of a run pattern puts one replacement for each run. *)
Lemma sub_runs (p : ascii -> bool) (repl s : list ascii) :
  sub (plusC p) repl s = squeeze p repl false s.
Proof.
  unfold sub. remember (length s) as n eqn:Hn.
  assert (Hle : (length s <= n)%nat) by lia. clear Hn.
  revert s Hle. induction n as [|n IH]; intros s Hle.
  - destruct s; [reflexivity | cbn in Hle; lia].
  - destruct s as [|c s]; [reflexivity|]. cbn [sub_from squeeze].
    rewrite match_run. destruct (p c) eqn:E.
    + pose proof (skip_class_length p s) as Hs.
      unfold consumed.
      replace (length (c :: s) - length (skip_class p s))%nat
        with (S (length s - length (skip_class p s)))
        by (cbn [length]; lia).
      rewrite sub_run_skip by lia. rewrite <- skip_class_as_skipn.
      rewrite IH by (cbn in Hle; lia). now rewrite squeeze_in_run.
    + rewrite (sub_run_prev p repl s 0 (Some c) None).
      rewrite IH by (cbn in Hle; lia). reflexivity.
Qed.

(** *** What a squeezed text is made of *)

Lemma squeeze_chars (p : ascii -> bool) (repl s : list ascii) (P : ascii -> Prop) :
  Forall P repl ->
  Forall (fun c => p c = false -> P c) s ->
  forall in_run, Forall P (squeeze p repl in_run s).
Proof.
  intros Hr Hs. induction Hs as [|c s Hc Hs IH]; intros in_run;
    [constructor|].
  cbn [squeeze]. destruct (p c) eqn:E.
  - destruct in_run; [apply IH|]. apply Forall_app. split; [exact Hr | apply IH].
  - constructor; [now apply Hc | apply IH].
Qed.

Lemma single_spaced_tail (a : ascii) (l : list ascii) :
  single_spaced (a :: l) -> single_spaced l.
Proof. destruct l; [intros _; exact I | now intros [_ H]]. Qed.

Lemma single_spaced_cons (a : ascii) (l : list ascii) :
  single_spaced l -> (a = " "%char -> head l <> Some " "%char) ->
  single_spaced (a :: l).
Proof.
  intros Hl Ha. destruct l as [|b l]; [exact I|].
  split; [|exact Hl]. intros [-> ->]. now apply Ha.
Qed.

(** White space squeezed to single spaces: no two in a row, and none at
    the start while inside a run. *)
Lemma squeeze_single_spaced (s : list ascii) :
  forall in_run,
    single_spaced (squeeze is_space [" "%char] in_run s)
    /\ (in_run = true ->
        head (squeeze is_space [" "%char] in_run s) <> Some " "%char).
Proof.
  induction s as [|c s IH]; intros in_run; [split; [exact I | discriminate]|].
  cbn [squeeze]. destruct (is_space c) eqn:E.
  - destruct in_run.
    + apply IH.
    + split; [|discriminate]. cbn [app].
      destruct (IH true) as [H1 H2]. apply single_spaced_cons; auto.
  - split.
    + destruct (IH false) as [H1 _]. apply single_spaced_cons; [exact H1|].
      intros ->. discriminate E.
    + intros _. cbn [head]. intros H. injection H as ->. discriminate E.
Qed.

Lemma single_spaced_app_r (a b : list ascii) :
  single_spaced (a ++ b) -> single_spaced b.
Proof.
  induction a as [|x a IH]; [auto|]. intros H. apply IH.
  now apply single_spaced_tail in H.
Qed.

Lemma single_spaced_app_l (a b : list ascii) :
  single_spaced (a ++ b) -> single_spaced a.
Proof.
  induction a as [|x a IH]; [intros _; exact I|]. intros H.
  destruct a as [|y a]; [exact I|]. cbn in H |- *. destruct H as [H1 H2].
  split; [exact H1|]. apply IH. exact H2.
Qed.

Lemma single_spaced_substring (a l : list ascii) :
  substring a l -> single_spaced l -> single_spaced a.
Proof.
  intros (pre & post & ->) H. apply single_spaced_app_r in H.
  now apply single_spaced_app_l in H.
Qed.

(** *** Stripping *)

Lemma lstrip_head (l : list ascii) (c : ascii) :
  head (lstrip l) = Some c -> is_space c = false.
Proof.
  induction l as [|x l IH]; [discriminate|]. cbn [lstrip].
  destruct (is_space x) eqn:E; [exact IH|]. cbn. intros H.
  injection H as <-. exact E.
Qed.

Lemma last_rev (l : list ascii) : last (rev l) = head l.
Proof.
  destruct l as [|x l]; [reflexivity|]. cbn [rev head]. apply last_snoc.
Qed.

Lemma head_rev (l : list ascii) : head (rev l) = last l.
Proof. rewrite <- (rev_involutive l) at 2. now rewrite last_rev. Qed.

Lemma rstrip_last (l : list ascii) (c : ascii) :
  last (rstrip l) = Some c -> is_space c = false.
Proof. unfold rstrip. rewrite last_rev. apply lstrip_head. Qed.

Lemma rstrip_prefix (l : list ascii) : exists post, l = rstrip l ++ post.
Proof.
  unfold rstrip. destruct (lstrip_suffix (rev l)) as [pre H].
  exists (rev pre). rewrite <- rev_app_distr, <- H. now rewrite rev_involutive.
Qed.

Lemma strip_ends (l : list ascii) :
  (forall c, head (strip l) = Some c -> is_space c = false)
  /\ (forall c, last (strip l) = Some c -> is_space c = false).
Proof.
  unfold strip. split; [|apply rstrip_last].
  intros c H. destruct (rstrip_prefix (lstrip l)) as [post E].
  apply (lstrip_head l). rewrite E.
  destruct (rstrip (lstrip l)); [discriminate H | exact H].
Qed.

Lemma Forall_substring (P : ascii -> Prop) (a l : list ascii) :
  substring a l -> Forall P l -> Forall P a.
Proof.
  intros (pre & post & ->) H. apply Forall_app in H as [_ H].
  now apply Forall_app in H as [H _].
Qed.

End SubFacts.

Section NameClaims.

Import SubFacts.

(** X15. A base name that [extract_base_name] returns is made of words
    separated by single spaces: it holds only letters, digits, underscores
    and spaces, it neither starts nor ends with a space, and it has no two
    spaces in a row.  The directory made from it by turning spaces into
    underscores holds word characters only. *)
Theorem base_name_is_spaced_words :
  forall filename : string,
    spaced_words (chars (OrganizePairs.extract_base_name filename))
    /\ Forall (fun c => is_word c = true)
         (chars (OrganizeFiles.base_dir_name
                   (OrganizePairs.extract_base_name filename))).
Proof.
  intros filename. unfold OrganizePairs.extract_base_name.
  set (b4 := sub OrganizePairs.suffix_indicator [] _).
  rewrite sub_runs, sub_class. rewrite chars_str.
  set (b5 := flat_map _ b4).
  set (b6 := squeeze is_space (chars " ") false b5).
  assert (H5 : Forall (fun c => is_space c = false -> is_word c = true) b5).
  { subst b5. apply Forall_flat_map, Forall_forall. intros c _.
    destruct (is_word c) eqn:Ew; cbn [orb negb].
    - constructor; [auto | constructor].
    - destruct (is_space c) eqn:Es; cbn [negb].
      + constructor; [congruence | constructor].
      + constructor; [discriminate | constructor]. }
  assert (H6 : Forall (fun c => is_word c = true \/ c = " "%char) b6).
  { subst b6. apply squeeze_chars.
    - constructor; [now right | constructor].
    - eapply List.Forall_impl; [|exact H5]. cbn. auto. }
  assert (Hsub : substring (strip b6) b6) by apply substring_strip.
  assert (Hall : Forall (fun c => is_word c = true \/ c = " "%char) (strip b6))
    by (eapply Forall_substring; eauto).
  destruct (strip_ends b6) as [Hh Hl].
  assert (Hword : forall c, In c (strip b6) -> is_space c = false ->
                            is_word c = true).
  { intros c Hin Hs. rewrite Forall_forall in Hall.
    destruct (Hall c) as [H| ->]; [now apply list_elem_of_In | exact H|].
    discriminate Hs. }
  split; [split; [exact Hall|]; split; [|split]|].
  - intros c Hc. apply Hword; [|now apply Hh].
    destruct (strip b6); [discriminate Hc|]. injection Hc as ->. now left.
  - intros c Hc. apply Hword; [|now apply Hl].
    apply list_elem_of_In. eapply last_Some_elem_of. exact Hc.
  - eapply single_spaced_substring; [exact Hsub|].
    apply (squeeze_single_spaced b5 false).
  - unfold OrganizeFiles.base_dir_name. rewrite !chars_str.
    apply Forall_map. eapply List.Forall_impl; [|exact Hall].
    intros c [H| ->]; [|reflexivity]. cbn.
    destruct (Ascii.eqb c " "); [reflexivity | exact H].
Qed.

(** X16. The name [organize_files] makes for the directory of a pair
    holds only letters, digits, underscores and hyphens: no dot, no slash
    and no white space, so the directory is a child of the pairs
    directory. *)
Theorem pair_name_is_one_path_component :
  forall first_file : string,
    Forall (fun c => is_word c = true \/ c = "-"%char)
      (chars (OrganizeFiles.pair_name first_file)).
Proof.
  intros first_file. unfold OrganizeFiles.pair_name.
  rewrite sub_runs, sub_class, chars_str. apply squeeze_chars.
  - constructor; [now left | constructor].
  - apply Forall_flat_map, Forall_forall. intros c _.
    destruct (is_word c) eqn:Ew; cbn [orb negb].
    + constructor; [auto | constructor].
    + destruct (is_space c) eqn:Es; cbn [orb negb].
      * constructor; [congruence | constructor].
      * unfold is_char. destruct (Ascii.eqb "-" c) eqn:Ec; cbn [negb].
        -- apply Ascii.eqb_eq in Ec. subst c.
           constructor; [now right | constructor].
        -- constructor.
Qed.

End NameClaims.

(** ** The paper codes of the last branch of [classify_document] *)

Section PaperCodes.

Import OrganizeDocuments.

Lemma match_code (k : cont) (prev : option ascii) (s : list ascii) :
  rmatch bmq_or_apq k prev s
  = match strip_prefix (chars "bmq") s with
    | Some rest => match k (last_or prev (chars "bmq")) rest with
                   | Some x => Some x
                   | None =>
                       match strip_prefix (chars "apq") s with
                       | Some rest' => k (last_or prev (chars "apq")) rest'
                       | None => None
                       end
                   end
    | None =>
        match strip_prefix (chars "apq") s with
        | Some rest' => k (last_or prev (chars "apq")) rest'
        | None => None
        end
    end.
Proof.
  unfold bmq_or_apq. cbn [rmatch]. rewrite !rmatch_lit.
  destruct (strip_prefix (chars "bmq") s); reflexivity.
Qed.

Lemma code_not_both (s r1 r2 : list ascii) :
  strip_prefix (chars "bmq") s = Some r1 ->
  strip_prefix (chars "apq") s = Some r2 -> False.
Proof.
  intros H1 H2. apply strip_prefix_spec in H1, H2. subst s. discriminate H2.
Qed.

Lemma code_found (prev : option ascii) (s : list ascii) :
  match_at code_then_sol prev s <> None \/ match_at code_without_sol prev s <> None
  <-> (exists rest, s = chars "bmq" ++ rest) \/ (exists rest, s = chars "apq" ++ rest).
Proof.
  unfold match_at, code_then_sol, code_without_sol.
  change (rmatch (Seq bmq_or_apq ?x) ?k prev s)
    with (rmatch bmq_or_apq (rmatch x k) prev s).
  cbn [rmatch]. rewrite !match_code.
  destruct (strip_prefix (chars "bmq") s) as [r1|] eqn:E1;
    destruct (strip_prefix (chars "apq") s) as [r2|] eqn:E2.
  - exfalso. eapply code_not_both; eauto.
  - apply strip_prefix_spec in E1. split; [intros _; left; now exists r1|].
    intros _. cbn [rmatch].
    destruct (starC dot _ _ r1); [left | right]; congruence.
  - apply strip_prefix_spec in E2. split; [intros _; right; now exists r2|].
    intros _. cbn [rmatch].
    destruct (starC dot _ _ r2); [left | right]; congruence.
  - split; [intros [H|H]; congruence|].
    intros [[rest H]|[rest H]]; apply strip_prefix_spec in H; congruence.
Qed.

(** X17. Among names without keywords, [classify_document] answers
    solution or question paper exactly for those that hold [bmq] or
    [apq]: with one of the two codes the answer is never a note or
    unknown, without them it is never a solution or a question paper. *)
Theorem paper_code_decides_question_or_solution :
  forall filename : string,
    (classify_by_pattern filename = solution
     \/ classify_by_pattern filename = question_paper)
    <-> (substring (chars "bmq") (lower (chars filename))
         \/ substring (chars "apq") (lower (chars filename))).
Proof.
  intros filename. unfold classify_by_pattern.
  set (name := lower (chars filename)).
  assert (H : search code_then_sol name = true
              \/ search code_without_sol name = true
              <-> substring (chars "bmq") name \/ substring (chars "apq") name).
  { unfold search. rewrite !search_from_spec. split.
    - intros [(pre & post & E & Hm)|(pre & post & E & Hm)];
        (destruct (proj1 (code_found (last_or None pre) post)) as [[r ->]|[r ->]];
         [auto | left; now exists pre, r | right; now exists pre, r]).
    - intros [(pre & post & E)|(pre & post & E)].
      + destruct (proj2 (code_found (last_or None pre) (chars "bmq" ++ post)))
          as [Hm|Hm]; [left; now exists post | left | right];
          exists pre, (chars "bmq" ++ post); auto.
      + destruct (proj2 (code_found (last_or None pre) (chars "apq" ++ post)))
          as [Hm|Hm]; [right; now exists post | left | right];
          exists pre, (chars "apq" ++ post); auto. }
  rewrite <- H.
  destruct (search code_then_sol name); [split; auto|].
  destruct (search code_without_sol name); [split; auto|].
  split; [|intros [F|F]; discriminate F].
  destruct (search chapter_then_digit name);
    [intros [F|F]; discriminate F|].
  destruct (search staff_word name); intros [F|F]; discriminate F.
Qed.

End PaperCodes.

(** ** The limit of a batch *)

Module BatchFacts.

Section Run.

Variable converts : Streamlined.job -> bool.
Variable max_files : Z.

Lemma run_prefix jobs c :
  exists rest, jobs = fst (Batch.run converts max_files jobs c) ++ rest.
Proof.
  revert c. induction jobs as [|j jobs IH]; intros c; cbn.
  - now exists [].
  - destruct (c >=? max_files)%Z.
    + now exists (j :: jobs).
    + destruct (IH (if converts j then c + 1 else c)%Z) as [rest E].
      destruct (Batch.run converts max_files jobs _) as [st n].
      exists rest. cbn in *. now f_equal.
Qed.

Lemma run_count jobs c :
  snd (Batch.run converts max_files jobs c)
  = (c + Z.of_nat (length (List.filter converts
                             (fst (Batch.run converts max_files jobs c)))))%Z.
Proof.
  revert c. induction jobs as [|j jobs IH]; intros c; cbn.
  - lia.
  - destruct (c >=? max_files)%Z; cbn; [lia|].
    specialize (IH (if converts j then c + 1 else c)%Z).
    destruct (Batch.run converts max_files jobs _) as [st n].
    cbn in *. destruct (converts j); cbn; lia.
Qed.

Lemma run_bound jobs c :
  (c <= max_files -> snd (Batch.run converts max_files jobs c) <= max_files)%Z.
Proof.
  revert c. induction jobs as [|j jobs IH]; intros c Hc; cbn; [exact Hc|].
  destruct (c >=? max_files)%Z eqn:E; cbn; [exact Hc|].
  rewrite Z.geb_leb in E. apply Z.leb_gt in E.
  specialize (IH (if converts j then c + 1 else c)%Z).
  destruct (Batch.run converts max_files jobs _) as [st n].
  cbn in *. apply IH. destruct (converts j); lia.
Qed.

Lemma run_all jobs c :
  (snd (Batch.run converts max_files jobs c) < max_files)%Z ->
  fst (Batch.run converts max_files jobs c) = jobs.
Proof.
  revert c. induction jobs as [|j jobs IH]; intros c; cbn; [reflexivity|].
  destruct (c >=? max_files)%Z eqn:E; cbn.
  - rewrite Z.geb_leb in E. apply Z.leb_le in E. lia.
  - specialize (IH (if converts j then c + 1 else c)%Z).
    destruct (Batch.run converts max_files jobs _) as [st n].
    cbn in *. intros H. f_equal. now apply IH.
Qed.

Lemma run_stopped jobs c :
  (max_files <= c)%Z -> Batch.run converts max_files jobs c = ([], c).
Proof.
  intros H. destruct jobs as [|j jobs]; cbn; [reflexivity|].
  destruct (c >=? max_files)%Z eqn:E; [reflexivity|].
  rewrite Z.geb_leb in E. apply Z.leb_gt in E. lia.
Qed.

(** The two loops behave as one loop over the pairs followed by the
    single files. *)
Lemma run_app l1 l2 c :
  Batch.run converts max_files (l1 ++ l2) c
  = (fst (Batch.run converts max_files l1 c)
       ++ fst (Batch.run converts max_files l2
                 (snd (Batch.run converts max_files l1 c))),
     snd (Batch.run converts max_files l2
            (snd (Batch.run converts max_files l1 c)))).
Proof.
  revert c. induction l1 as [|j l1 IH]; intros c; cbn.
  - now destruct (Batch.run converts max_files l2 c).
  - destruct (c >=? max_files)%Z eqn:E; cbn.
    + rewrite Z.geb_leb in E. apply Z.leb_le in E.
      now rewrite run_stopped.
    + rewrite IH.
      destruct (Batch.run converts max_files l1 _) as [st n]. reflexivity.
Qed.

Lemma process_batch_as_run file_list :
  Batch.process_batch converts max_files file_list
  = Batch.run converts max_files (Streamlined.process_batch file_list) 0.
Proof.
  unfold Batch.process_batch, Streamlined.process_batch.
  destruct (Streamlined.find_question_solution_pairs file_list (7 # 10))
    as [pairs unpaired].
  rewrite run_app.
  destruct (Batch.run converts max_files (map _ pairs) 0) as [s1 n1].
  cbn [fst snd].
  now destruct (Batch.run converts max_files (map _ unpaired) n1).
Qed.

End Run.

End BatchFacts.

Section BatchClaims.

(** X18.  [process_batch] starts the jobs in order, pairs before single
    files, and stops at the first job it reaches with [max_files] calls
    already returned: the jobs it starts are a prefix of all jobs, the final
    count is the number of started jobs whose call returned, it does not
    exceed a non-negative [max_files], and if it stays below [max_files]
    every job was started. *)
Theorem batch_stops_at_max_files :
  forall (converts : Streamlined.job -> bool) (max_files : Z)
         (file_list : list string),
    let jobs := Streamlined.process_batch file_list in
    let started := fst (Batch.process_batch converts max_files file_list) in
    let processed_count :=
      snd (Batch.process_batch converts max_files file_list) in
    (exists rest, jobs = started ++ rest)
    /\ processed_count = Z.of_nat (length (List.filter converts started))
    /\ ((0 <= max_files)%Z -> (processed_count <= max_files)%Z)
    /\ ((processed_count < max_files)%Z -> started = jobs).
Proof.
  intros converts max_files file_list. cbv zeta.
  rewrite BatchFacts.process_batch_as_run.
  split; [apply BatchFacts.run_prefix|].
  split; [rewrite BatchFacts.run_count; lia|].
  split; [apply BatchFacts.run_bound|apply BatchFacts.run_all].
Qed.

End BatchClaims.

(** ** Groups by base name *)

Module GroupFacts.

Import PairsByBaseName.

Lemma mem_spec f files : mem f files = true <-> In f files.
Proof.
  unfold mem. rewrite existsb_exists. split.
  - intros [x [Hx E]]. apply String.eqb_eq in E. now subst x.
  - intros H. exists f. split; [exact H|apply String.eqb_refl].
Qed.

Lemma append_to_files f key g d :
  In f (flat_map snd (append_to key g d)) <-> f = g \/ In f (flat_map snd d).
Proof.
  induction d as [|[k files] d IH]; cbn.
  - intuition.
  - destruct (String.eqb k key); cbn; rewrite !in_app_iff; cbn.
    + intuition.
    + rewrite IH. intuition.
Qed.

Lemma group_of_append_to k key g d :
  group_of k (append_to key g d)
  = if String.eqb key k then group_of k d ++ [g] else group_of k d.
Proof.
  induction d as [|[k0 files0] d IH]; cbn.
  - now destruct (String.eqb key k).
  - destruct (String.eqb k0 key) eqn:E; cbn.
    + apply String.eqb_eq in E. subst k0. now destruct (String.eqb key k).
    + rewrite IH. destruct (String.eqb k0 k) eqn:E0; [|reflexivity].
      apply String.eqb_eq in E0. subst k0. now rewrite String.eqb_sym, E.
Qed.

Lemma append_to_keeps key g d k f :
  In f (group_of k d) -> In f (group_of k (append_to key g d)).
Proof.
  rewrite group_of_append_to. destruct (String.eqb key k); [|easy].
  intros H. apply in_app_iff. now left.
Qed.

Lemma append_to_adds key g d : In g (group_of key (append_to key g d)).
Proof.
  rewrite group_of_append_to, String.eqb_refl. apply in_app_iff.
  right. now left.
Qed.

Lemma group_of_in k d : group_of k d <> [] -> In (k, group_of k d) d.
Proof.
  induction d as [|[k0 files0] d IH]; cbn; [easy|].
  destruct (String.eqb k0 k) eqn:E.
  - apply String.eqb_eq in E. subst k0. now left.
  - intros H. right. now apply IH.
Qed.

Lemma has_key_of_member k d f : In f (group_of k d) -> has_key k d = true.
Proof.
  intros H. unfold has_key. apply existsb_exists.
  exists (k, group_of k d). split; [|apply String.eqb_refl].
  apply group_of_in. intros E. now rewrite E in H.
Qed.

Lemma place_solution_appends d item :
  exists key, place_solution d item = append_to key (snd item) d.
Proof.
  unfold place_solution. destruct (has_key (fst item) d); [now eexists|].
  destruct (fst (fold_left _ _ _)) as [q_base|]; [|now eexists].
  destruct (Pairing.truthy _); now eexists.
Qed.

Lemma fold_place_files f items d :
  In f (flat_map snd (fold_left place_solution items d))
  <-> In f (map snd items) \/ In f (flat_map snd d).
Proof.
  revert d. induction items as [|item items IH]; intros d; cbn.
  - intuition.
  - rewrite IH. destruct (place_solution_appends d item) as [key ->].
    rewrite append_to_files. intuition.
Qed.

Lemma fold_place_keeps items d k f :
  In f (group_of k d) ->
  In f (group_of k (fold_left place_solution items d)).
Proof.
  revert d. induction items as [|item items IH]; intros d H; cbn;
    [exact H|].
  apply IH. destruct (place_solution_appends d item) as [key ->].
  now apply append_to_keeps.
Qed.

Lemma fold_place_joins items d k s q :
  In (k, s) items ->
  In q (group_of k d) ->
  In s (group_of k (fold_left place_solution items d)).
Proof.
  revert d. induction items as [|item items IH]; intros d Hin Hq; cbn;
    [contradiction|].
  destruct Hin as [->|Hin].
  - apply fold_place_keeps. unfold place_solution. cbn [fst snd].
    rewrite (has_key_of_member _ _ _ Hq). apply append_to_adds.
  - apply IH; [exact Hin|].
    destruct (place_solution_appends d item) as [key ->].
    now apply append_to_keeps.
Qed.

Lemma fold_questions_files f qs d :
  In f (flat_map snd
          (fold_left
             (fun d q_file =>
                append_to (OrganizePairs.extract_base_name q_file) q_file d)
             qs d))
  <-> In f qs \/ In f (flat_map snd d).
Proof.
  revert d. induction qs as [|q qs IH]; intros d; cbn.
  - intuition.
  - rewrite IH, append_to_files. intuition.
Qed.

Lemma fold_questions_keeps qs d k f :
  In f (group_of k d) ->
  In f (group_of k
          (fold_left
             (fun d q_file =>
                append_to (OrganizePairs.extract_base_name q_file) q_file d)
             qs d)).
Proof.
  revert d. induction qs as [|q qs IH]; intros d H; cbn; [exact H|].
  apply IH. now apply append_to_keeps.
Qed.

Lemma fold_questions_joins qs d q :
  In q qs ->
  In q (group_of (OrganizePairs.extract_base_name q)
          (fold_left
             (fun d q_file =>
                append_to (OrganizePairs.extract_base_name q_file) q_file d)
             qs d)).
Proof.
  revert d. induction qs as [|q0 qs IH]; intros d Hin; cbn; [contradiction|].
  destruct Hin as [->|Hin].
  - apply fold_questions_keeps, append_to_adds.
  - now apply IH.
Qed.

Lemma two_members (q s : string) files :
  In q files -> In s files -> q <> s -> (1 <? length files)%nat = true.
Proof.
  destruct files as [|a [|b t]]; cbn; [easy| |easy].
  intros [->|[]] [->|[]] H. now destruct H.
Qed.

(** *** The dict of the solution files *)

Lemma store_keys key v d k :
  In k (map fst (store key v d)) <-> k = key \/ In k (map fst d).
Proof.
  induction d as [|[k0 w] d IH]; cbn.
  - intuition.
  - destruct (String.eqb k0 key) eqn:E; cbn.
    + apply String.eqb_eq in E. subst k0. intuition.
    + rewrite IH. intuition.
Qed.

Lemma store_nodup key v d :
  List.NoDup (map fst d) -> List.NoDup (map fst (store key v d)).
Proof.
  induction d as [|[k0 w] d IH]; cbn; intros H.
  - constructor; [intros []|constructor].
  - inversion H as [|? ? Hk Hd]; subst.
    destruct (String.eqb k0 key) eqn:E; cbn.
    + now constructor.
    + apply String.eqb_neq in E. constructor; [|now apply IH].
      rewrite store_keys. intros [->|Hin]; [now apply E|now apply Hk].
Qed.

Lemma store_items key v d k w :
  List.NoDup (map fst d) ->
  In (k, w) (store key v d)
  <-> (k = key /\ w = v) \/ (k <> key /\ In (k, w) d).
Proof.
  induction d as [|[k0 w0] d IH]; cbn; intros H.
  - split.
    + intros [E|[]]. injection E as <- <-. now left.
    + intros [[-> ->]|[_ []]]. now left.
  - inversion H as [|? ? Hk Hd]; subst.
    destruct (String.eqb k0 key) eqn:E; cbn.
    + apply String.eqb_eq in E. subst k0. split.
      * intros [E|Hin]; [injection E as <- <-; now left|].
        right. split; [|now right].
        intros ->. apply Hk. now apply (in_map fst) in Hin.
      * intros [[-> ->]|[Hne [E|Hin]]];
          [now left|injection E as <- _; now destruct Hne|now right].
    + apply String.eqb_neq in E. rewrite (IH Hd). split.
      * intros [E'|[[-> ->]|[Hne Hin]]].
        -- injection E' as <- <-. right. split; [exact E|now left].
        -- now left.
        -- right. split; [exact Hne|now right].
      * intros [[-> ->]|[Hne [E'|Hin]]].
        -- right. now left.
        -- now left.
        -- right. right. now split.
Qed.

Lemma last_of_its_base_snoc v l f :
  last_of_its_base v (l ++ [f])
  <-> v = f
      \/ (OrganizePairs.extract_base_name f <> OrganizePairs.extract_base_name v
          /\ last_of_its_base v l).
Proof.
  split.
  - intros [before [after [E H]]].
    revert E H. induction after as [|x a' _] using rev_ind; intros E H.
    + left. apply (app_inj_tail l before f v) in E. symmetry. apply E.
    + right. change (before ++ v :: a' ++ [x])
        with (before ++ (v :: a') ++ [x]) in E.
      rewrite app_assoc in E. apply app_inj_tail in E. destruct E as [-> ->].
      split.
      * apply H, in_app_iff. right. now left.
      * exists before, a'. split; [reflexivity|].
        intros g Hg. apply H, in_app_iff. now left.
  - intros [->|[Hne [before [after [-> H]]]]].
    + exists l, []. split; [reflexivity|intros g []].
    + exists before, (after ++ [f]). split.
      * now rewrite <- app_assoc.
      * intros g Hg. apply in_app_iff in Hg.
        destruct Hg as [Hg|[<-|[]]]; [now apply H|exact Hne].
Qed.

Lemma solution_bases_snoc l f :
  solution_bases (l ++ [f])
  = store (OrganizePairs.extract_base_name f) f (solution_bases l).
Proof.
  unfold solution_bases. now rewrite fold_left_app.
Qed.

Lemma solution_bases_spec l :
  List.NoDup (map fst (solution_bases l))
  /\ forall k v,
       In (k, v) (solution_bases l)
       <-> k = OrganizePairs.extract_base_name v /\ last_of_its_base v l.
Proof.
  induction l as [|f l [IHn IH]] using rev_ind.
  - split; [constructor|]. intros k v. cbn. split; [intros []|].
    intros [_ [before [after [E _]]]]. now destruct before.
  - rewrite solution_bases_snoc. split; [now apply store_nodup|].
    intros k v. rewrite (store_items _ _ _ _ _ IHn), IH,
      last_of_its_base_snoc.
    split.
    + intros [[-> ->]|[Hne [-> Hl]]]; [split; [reflexivity|now left]|].
      split; [reflexivity|]. right. split; [|exact Hl].
      intros E. apply Hne. now symmetry.
    + intros [-> [->|[Hne Hl]]]; [now left|]. right.
      split; [|now split]. intros E. apply Hne. now symmetry.
Qed.

Lemma solution_bases_values l v :
  In v (map snd (solution_bases l)) <-> last_of_its_base v l.
Proof.
  rewrite in_map_iff. split.
  - intros [[k w] [E H]]. cbn in E. subst w.
    now apply (proj2 (solution_bases_spec l)) in H.
  - intros H. exists (OrganizePairs.extract_base_name v, v).
    split; [reflexivity|]. now apply (proj2 (solution_bases_spec l)).
Qed.

Lemma last_of_its_base_in v l : last_of_its_base v l -> In v l.
Proof.
  intros [before [after [-> _]]]. apply in_app_iff. right. now left.
Qed.

(** *** The groups *)

Lemma question_files_spec pdf_files f :
  In f (List.filter
          (fun f => negb (mem f (List.filter QuickOrganize.is_solution_file
                                   pdf_files)))
          pdf_files)
  <-> In f pdf_files /\ QuickOrganize.is_solution_file f = false.
Proof.
  rewrite filter_In. split; intros [Hin H]; split; try exact Hin.
  - destruct (QuickOrganize.is_solution_file f) eqn:E; [|reflexivity].
    apply negb_true_iff in H.
    assert (Hm : mem f (List.filter QuickOrganize.is_solution_file pdf_files)
                 = true)
      by (apply mem_spec, filter_In; now split).
    congruence.
  - apply negb_true_iff.
    destruct (mem f _) eqn:E; [|reflexivity].
    apply mem_spec, filter_In in E. destruct E as [_ E]. congruence.
Qed.

Lemma groups_files listing f :
  In f (flat_map snd (groups listing))
  <-> (In f (FindPairsAndClassify.pdf_files listing)
       /\ QuickOrganize.is_solution_file f = false)
      \/ last_of_its_base f
           (List.filter QuickOrganize.is_solution_file
              (FindPairsAndClassify.pdf_files listing)).
Proof.
  unfold groups. rewrite fold_place_files, fold_questions_files,
    solution_bases_values, question_files_spec. cbn. intuition.
Qed.

Lemma reported_spec d f :
  reported
    (List.filter (fun kv => (1 <? length (snd kv))%nat) d,
     flat_map (fun kv => match snd kv with [g] => [g] | _ => [] end) d) f
  <-> In f (flat_map snd d).
Proof.
  unfold reported. cbn [fst snd]. rewrite !in_flat_map. split.
  - intros [[kv [Hkv Hf]]|[kv [Hkv Hf]]].
    + apply filter_In in Hkv. exists kv. split; [apply Hkv|exact Hf].
    + exists kv. split; [exact Hkv|].
      destruct (snd kv) as [|a [|b t]]; [destruct Hf|exact Hf|destruct Hf].
  - intros [kv [Hkv Hf]]. destruct (snd kv) as [|a [|b t]] eqn:E.
    + destruct Hf.
    + right. exists kv. split; [exact Hkv|]. now rewrite E.
    + left. exists kv. split; [|now rewrite E].
      apply filter_In. split; [exact Hkv|]. now rewrite E.
Qed.

End GroupFacts.

Section GroupClaims.

Import PairsByBaseName.

(** X19.  [find_question_solution_pairs] of
    [organize_question_solution_pairs.py] reports, in a group or alone,
    exactly the PDF files without a solution keyword and, of the PDF files
    with one, the last of each base name: an earlier solution file with the
    same base name as a later one is left out of the result. *)
Theorem reported_files_of_the_groups :
  forall (listing : list string) (f : string),
    reported (find_question_solution_pairs listing) f
    <-> (In f (FindPairsAndClassify.pdf_files listing)
         /\ QuickOrganize.is_solution_file f = false)
        \/ last_of_its_base f
             (List.filter QuickOrganize.is_solution_file
                (FindPairsAndClassify.pdf_files listing)).
Proof.
  intros listing f. unfold find_question_solution_pairs.
  rewrite GroupFacts.reported_spec. apply GroupFacts.groups_files.
Qed.

(** X20.  A PDF file without a solution keyword and the last solution file
    of the same base name are returned together, in the group of that base
    name. *)
Theorem same_base_name_is_grouped :
  forall (listing : list string) (q s : string),
    In q (FindPairsAndClassify.pdf_files listing) ->
    QuickOrganize.is_solution_file q = false ->
    last_of_its_base s
      (List.filter QuickOrganize.is_solution_file
         (FindPairsAndClassify.pdf_files listing)) ->
    OrganizePairs.extract_base_name s = OrganizePairs.extract_base_name q ->
    exists files,
      In (OrganizePairs.extract_base_name q, files)
        (fst (find_question_solution_pairs listing))
      /\ In q files /\ In s files.
Proof.
  intros listing q s Hq Hnq Hs Hb.
  assert (Hne : q <> s).
  { intros ->. apply GroupFacts.last_of_its_base_in, filter_In in Hs.
    destruct Hs as [_ Hs]. congruence. }
  assert (Hqg : In q (group_of (OrganizePairs.extract_base_name q)
                        (groups listing))).
  { apply GroupFacts.fold_place_keeps, GroupFacts.fold_questions_joins.
    apply GroupFacts.question_files_spec. now split. }
  assert (Hsg : In s (group_of (OrganizePairs.extract_base_name q)
                        (groups listing))).
  { apply (GroupFacts.fold_place_joins _ _ _ s q).
    - apply (proj2 (GroupFacts.solution_bases_spec _)).
      split; [now symmetry|exact Hs].
    - apply GroupFacts.fold_questions_joins.
      apply GroupFacts.question_files_spec. now split. }
  exists (group_of (OrganizePairs.extract_base_name q) (groups listing)).
  split; [|now split].
  unfold find_question_solution_pairs. cbn [fst]. apply filter_In. split.
  - apply GroupFacts.group_of_in. intros E. now rewrite E in Hqg.
  - cbn [snd]. now apply (GroupFacts.two_members q s).
Qed.

End GroupClaims.

Lemma same_base_name_is_grouped_witness :
  exists files,
    In (OrganizePairs.extract_base_name "algebra.pdf", files)
      (fst (PairsByBaseName.find_question_solution_pairs
              ["algebra.pdf"; "algebra_sol.pdf"; "algebra_solution.pdf"]))
    /\ In "algebra.pdf" files /\ In "algebra_solution.pdf" files.
Proof.
  apply (same_base_name_is_grouped
           ["algebra.pdf"; "algebra_sol.pdf"; "algebra_solution.pdf"]
           "algebra.pdf" "algebra_solution.pdf").
  - vm_compute. now left.
  - vm_compute. reflexivity.
  - exists ["algebra_sol.pdf"], []. split; [vm_compute; reflexivity|].
    intros g [].
  - vm_compute. reflexivity.
Defined.

(** ** The solution of a question *)

Module SolutionFacts.

Import MatchingSolution.

Lemma substring_cons (x : list ascii) (c : ascii) (s : list ascii) :
  substring x s -> substring x (c :: s).
Proof. intros (pre & post & ->). now exists (c :: pre), post. Qed.

Lemma substring_nil (s : list ascii) : substring [] s.
Proof. now exists [], s. Qed.

Lemma substring_prefix (a b : list ascii) : substring a (a ++ b).
Proof. now exists [], b. Qed.

(** The pieces of [re.split] are pieces of the text. *)
Lemma split_from_pieces (r : regex) (s : list ascii) :
  forall skip prev piece x,
    In x (split_from r skip prev s piece) ->
    (skip = 0%nat ->
     (exists a b, s = a ++ b /\ x = piece ++ a) \/ substring x s)
    /\ (piece = [] -> substring x s).
Proof.
  induction s as [|c s IH]; intros skip prev piece x Hin.
  - cbn in Hin. destruct Hin as [<-|[]]. split.
    + intros _. left. exists [], [].
      split; [reflexivity|now rewrite app_nil_r].
    + intros ->. apply substring_nil.
  - cbn [split_from] in Hin. destruct skip as [|n].
    + assert (Hgo : In x (split_from r 0 (Some c) s (piece ++ [c])) ->
                    (exists a b, c :: s = a ++ b /\ x = piece ++ a)
                    \/ substring x (c :: s)).
      { intros H. destruct (proj1 (IH _ _ _ _ H) eq_refl)
          as [(a & b & -> & ->)|Hs].
        - left. exists (c :: a), b. split; [reflexivity|].
          now rewrite <- app_assoc.
        - right. now apply substring_cons. }
      assert (Hall : (exists a b, c :: s = a ++ b /\ x = piece ++ a)
                     \/ substring x (c :: s)).
      { destruct (match_at r prev (c :: s)) as [rest|]; [|now apply Hgo].
        destruct (consumed (c :: s) rest) as [|n]; [now apply Hgo|].
        destruct Hin as [<-|Hin].
        - left. exists [], (c :: s).
          split; [reflexivity|now rewrite app_nil_r].
        - right. apply substring_cons. now apply (IH _ _ _ _ Hin). }
      split; [intros _; exact Hall|].
      intros ->. destruct Hall as [(a & b & E & ->)|H]; [|exact H].
      rewrite E. apply substring_prefix.
    + split; [discriminate|]. intros ->. apply substring_cons.
      now apply (IH _ _ _ _ Hin).
Qed.

Lemma split_substring (r : regex) (s x : list ascii) :
  In x (split r s) -> substring x s.
Proof.
  intros H. now apply (split_from_pieces r s 0 None [] x H).
Qed.

(** *** The loop over the chunks *)

Lemma score_nonneg words chunk : (0 <= score words chunk)%Z.
Proof. unfold score. lia. Qed.

(** What the loop has after the chunks [l]: nothing, no chunk having a
    word, or the first of the chunks with the highest score. *)
Lemma scan_chunks_best words (l : list (list ascii)) :
  let best := fold_left (scan_chunk words) l ([], 0%Z) in
  (best = ([], 0%Z) /\ forall c, In c l -> (score words c <= 0)%Z)
  \/ exists before chunk after,
       l = before ++ chunk :: after
       /\ best = (chunk, score words chunk)
       /\ (0 < score words chunk)%Z
       /\ (forall c, In c before -> (score words c < score words chunk)%Z)
       /\ (forall c, In c after -> (score words c <= score words chunk)%Z).
Proof.
  induction l as [|c l IH] using rev_ind; cbn zeta.
  - left. split; [reflexivity|intros c []].
  - rewrite fold_left_app. cbn [fold_left]. cbn zeta in IH.
    remember (fold_left (scan_chunk words) l ([], 0%Z)) as b eqn:Eb.
    clear Eb. unfold scan_chunk.
    destruct (score words c >? snd b)%Z eqn:E.
    + right. exists l, c, []. split; [reflexivity|]. split; [reflexivity|].
      rewrite Z.gtb_ltb in E. apply Z.ltb_lt in E.
      destruct IH as [[Hb Hl]|(before & chunk & after & -> & Hb & Hp & H1 & H2)];
        rewrite Hb in E; cbn [snd] in E.
      * split; [exact E|]. split; [|intros x []].
        intros x Hx. specialize (Hl x Hx). lia.
      * split; [lia|]. split; [|intros x []].
        intros x Hx. apply in_app_iff in Hx. destruct Hx as [Hx|[<-|Hx]].
        -- specialize (H1 x Hx). lia.
        -- exact E.
        -- specialize (H2 x Hx). lia.
    + rewrite Z.gtb_ltb in E. apply Z.ltb_ge in E.
      destruct IH as [[Hb Hl]|(before & chunk & after & -> & Hb & Hp & H1 & H2)];
        rewrite Hb in E |- *; cbn [snd] in E.
      * left. split; [reflexivity|]. intros x Hx. apply in_app_iff in Hx.
        destruct Hx as [Hx|[<-|[]]]; [now apply Hl|exact E].
      * right. exists before, chunk, (after ++ [c]).
        split; [now rewrite <- app_assoc|]. split; [reflexivity|].
        split; [exact Hp|]. split; [exact H1|].
        intros x Hx. apply in_app_iff in Hx.
        destruct Hx as [Hx|[<-|[]]]; [now apply H2|exact E].
Qed.

Lemma enough_nonneg words : (0 <= enough words)%Q.
Proof.
  unfold enough. destruct (Pairing.gt _ _).
  - unfold Qle. cbn. lia.
  - unfold Qle. cbn. lia.
Qed.

(** *** Words inside a stripped chunk *)

Lemma is_space_lower_char (c : ascii) : is_space (lower_char c) = is_space c.
Proof. destruct c as [[] [] [] [] [] [] [] []]; reflexivity. Qed.

Lemma lstrip_spaces (l : list ascii) :
  exists pre, l = pre ++ lstrip l /\ forallb is_space pre = true.
Proof.
  induction l as [|c l (pre & IH & Hpre)]; [now exists []|]. cbn [lstrip].
  destruct (is_space c) eqn:E; [|now exists []].
  exists (c :: pre). split; [cbn; now f_equal|]. cbn. now rewrite E.
Qed.

Lemma strip_spaces (l : list ascii) :
  exists pre post,
    l = pre ++ strip l ++ post
    /\ forallb is_space pre = true /\ forallb is_space post = true.
Proof.
  unfold strip, rstrip. destruct (lstrip_spaces l) as (pre & Hl & Hpre).
  destruct (lstrip_spaces (rev (lstrip l))) as (post & Hr & Hpost).
  exists pre, (rev post). split; [|split].
  - rewrite Hl at 1. f_equal.
    rewrite <- rev_app_distr, <- Hr. now rewrite rev_involutive.
  - exact Hpre.
  - rewrite forallb_forall in Hpost |- *. intros x Hx. apply Hpost.
    now apply in_rev.
Qed.

(** A word without white space that lies in a text lies in the text
    without the white space around it. *)
Lemma substring_drop_head (w : list ascii) (c : ascii) (l : list ascii) :
  w <> [] -> forallb (fun x => negb (is_space x)) w = true ->
  is_space c = true ->
  substring w (c :: l) -> substring w l.
Proof.
  intros Hne Hw Hc (pre & post & E). destruct pre as [|p pre].
  - destruct w as [|x w]; [now destruct Hne|]. cbn in E.
    injection E as -> _. cbn in Hw. now rewrite Hc in Hw.
  - cbn in E. injection E as _ ->. now exists pre, post.
Qed.

Lemma substring_drop_last (w : list ascii) (c : ascii) (l : list ascii) :
  w <> [] -> forallb (fun x => negb (is_space x)) w = true ->
  is_space c = true ->
  substring w (l ++ [c]) -> substring w l.
Proof.
  intros Hne Hw Hc (pre & post & E).
  induction post as [|p post _] using rev_ind.
  - rewrite app_nil_r in E.
    induction w as [|x w _] using rev_ind; [now destruct Hne|].
    rewrite app_assoc in E. apply app_inj_tail in E. destruct E as [_ ->].
    rewrite forallb_app in Hw. cbn in Hw. rewrite Hc in Hw.
    now rewrite andb_false_r in Hw.
  - rewrite !app_assoc in E. apply app_inj_tail in E. destruct E as [-> _].
    exists pre, post. now rewrite <- app_assoc.
Qed.

Lemma substring_between (w pre mid post : list ascii) :
  w <> [] -> forallb (fun x => negb (is_space x)) w = true ->
  forallb is_space pre = true -> forallb is_space post = true ->
  substring w (pre ++ mid ++ post) -> substring w mid.
Proof.
  intros Hne Hw Hpre Hpost.
  induction pre as [|c pre IH]; cbn [app].
  - clear Hpre. induction post as [|c post IH] using rev_ind.
    + now rewrite app_nil_r.
    + rewrite forallb_app in Hpost. apply andb_true_iff in Hpost.
      destruct Hpost as [Hpost Hc]. cbn in Hc. rewrite andb_true_r in Hc.
      rewrite app_assoc. intros H. apply IH; [exact Hpost|].
      now apply (substring_drop_last w c).
  - cbn in Hpre. apply andb_true_iff in Hpre. destruct Hpre as [Hc Hpre].
    intros H. apply IH; [exact Hpre|]. now apply (substring_drop_head w c).
Qed.

Lemma substring_map (f : ascii -> ascii) (a l : list ascii) :
  substring a l -> substring (map f a) (map f l).
Proof.
  intros (pre & post & ->). exists (map f pre), (map f post).
  now rewrite !map_app.
Qed.

Lemma forallb_space_lower (l : list ascii) :
  forallb is_space (lower l) = forallb is_space l.
Proof.
  unfold lower. induction l as [|c l IH]; [reflexivity|].
  cbn [map forallb]. now rewrite is_space_lower_char, IH.
Qed.

Lemma contains_strip (w chunk : list ascii) :
  w <> [] -> forallb (fun x => negb (is_space x)) w = true ->
  contains w (lower (strip chunk)) = contains w (lower chunk).
Proof.
  intros Hne Hw.
  destruct (strip_spaces chunk) as (pre & post & E & Hpre & Hpost).
  apply eq_true_iff_eq. rewrite !contains_spec. split.
  - intros H. apply (substring_trans _ _ _ H).
    apply substring_map, substring_strip.
  - intros H. rewrite E in H. unfold lower in H. rewrite !map_app in H.
    apply (substring_between w (map lower_char pre) _ (map lower_char post));
      try assumption.
    + fold (lower pre). now rewrite forallb_space_lower.
    + fold (lower post). now rewrite forallb_space_lower.
Qed.

(** The words of [str.split] have a character and no white space. *)
Lemma skipped_run (p : ascii -> bool) (s : list ascii) :
  forallb p (firstn (length s - length (skip_class p s)) s) = true.
Proof.
  induction s as [|c s IH]; [reflexivity|]. cbn [skip_class].
  destruct (p c) eqn:E.
  - pose proof (SubFacts.skip_class_length p s).
    replace (length (c :: s) - length (skip_class p s))%nat
      with (S (length s - length (skip_class p s)))
      by (cbn [length]; lia).
    cbn [firstn forallb]. now rewrite E, IH.
  - now rewrite Nat.sub_diag.
Qed.

Lemma findall_runs (p : ascii -> bool) (s : list ascii) :
  forall skip prev w,
    In w (findall_from (plusC p) skip prev s) ->
    w <> [] /\ forallb p w = true.
Proof.
  induction s as [|c s IH]; intros skip prev w Hin; [destruct Hin|].
  cbn [findall_from] in Hin. destruct skip as [|n]; [|now apply IH in Hin].
  rewrite SubFacts.match_run in Hin. destruct (p c) eqn:E;
    [|now apply IH in Hin].
  destruct (consumed (c :: s) (skip_class p s)) as [|n] eqn:En;
    [now apply IH in Hin|].
  destruct Hin as [<-|Hin]; [|now apply IH in Hin].
  split; [discriminate|].
  pose proof (skipped_run p (c :: s)) as H. cbn [skip_class] in H.
  rewrite E in H. unfold consumed in En. now rewrite En in H.
Qed.

Lemma significant_words_shape question w :
  In w (significant_words question) ->
  w <> [] /\ forallb (fun x => negb (is_space x)) w = true.
Proof.
  unfold significant_words, question_words. intros H.
  apply filter_In in H. destruct H as [H _].
  now apply (findall_runs _ _ _ _ _ H).
Qed.

Lemma score_strip question chunk :
  score (significant_words question) (strip chunk)
  = score (significant_words question) chunk.
Proof.
  unfold score. f_equal. f_equal. apply filter_ext_in. intros w Hw.
  apply significant_words_shape in Hw. destruct Hw as [Hne Hw].
  now apply contains_strip.
Qed.

End SolutionFacts.

Section SolutionClaims.

Import MatchingSolution.

(** X21.  What [find_matching_solution] returns is a piece of the
    solution text: nothing is made up or put together. *)
Theorem returned_solution_is_part_of_the_text :
  forall question solution_text : string,
    substring (chars (find_matching_solution question solution_text))
      (chars solution_text).
Proof.
  intros question solution_text. unfold find_matching_solution.
  destruct (Pairing.gt _ _); [|apply SolutionFacts.substring_nil].
  rewrite chars_str. apply (substring_trans _ _ _ (substring_strip _)).
  destruct (SolutionFacts.scan_chunks_best (significant_words question)
              (solution_chunks solution_text))
    as [[-> _]|(before & chunk & after & E & -> & _)].
  - apply SolutionFacts.substring_nil.
  - cbn [fst]. apply (SolutionFacts.split_substring chunk_break).
    change (In chunk (solution_chunks solution_text)).
    rewrite E. apply in_app_iff. right. now left.
Qed.

(** X22.  [find_matching_solution] returns the empty string when no chunk
    of the solution text has more than [min(3, n / 2)] of the [n]
    significant words of the question; otherwise it returns, stripped, the
    first of the chunks that have the most of them. *)
Theorem returned_solution_is_first_best_chunk :
  forall question solution_text : string,
    let words := significant_words question in
    (find_matching_solution question solution_text = ""
     /\ forall c, In c (solution_chunks solution_text) ->
          (inject_Z (score words c) <= enough words)%Q)
    \/ exists before chunk after,
         solution_chunks solution_text = before ++ chunk :: after
         /\ find_matching_solution question solution_text = str (strip chunk)
         /\ (enough words < inject_Z (score words chunk))%Q
         /\ (forall c, In c before -> (score words c < score words chunk)%Z)
         /\ (forall c, In c after -> (score words c <= score words chunk)%Z).
Proof.
  intros question solution_text words. unfold find_matching_solution.
  fold words.
  destruct (SolutionFacts.scan_chunks_best words
              (solution_chunks solution_text))
    as [[Hb Hl]|(before & chunk & after & E & Hb & Hp & H1 & H2)];
    cbn zeta in Hb; rewrite Hb; cbn [fst snd].
  - left. assert (G : Pairing.gt (inject_Z 0) (enough words) = false).
    { destruct (Pairing.gt _ _) eqn:G; [|reflexivity].
      apply PairingFacts.gt_spec in G.
      pose proof (SolutionFacts.enough_nonneg words) as H.
      exfalso. eapply Qlt_not_le; eauto. }
    rewrite G. split; [reflexivity|]. intros c Hc.
    apply Qle_trans with (inject_Z 0);
      [|apply SolutionFacts.enough_nonneg].
    rewrite <- Zle_Qle. now apply Hl.
  - destruct (Pairing.gt _ _) eqn:G.
    + right. exists before, chunk, after. apply PairingFacts.gt_spec in G.
      now repeat split.
    + left. split; [reflexivity|]. apply PairingChoice.gt_false_le in G.
      intros c Hc. apply Qle_trans with (inject_Z (score words chunk));
        [|exact G].
      rewrite <- Zle_Qle. rewrite E in Hc. apply in_app_iff in Hc.
      destruct Hc as [Hc|[<-|Hc]].
      * specialize (H1 c Hc). lia.
      * lia.
      * now apply H2.
Qed.

(** X23.  A solution that [find_matching_solution] returns holds, in any
    case of the letters, more than [min(3, n / 2)] of the [n] significant
    words of the question: stripping the chunk loses none of them. *)
Theorem returned_solution_has_enough_words :
  forall question solution_text : string,
    let words := significant_words question in
    find_matching_solution question solution_text = ""
    \/ (enough words
        < inject_Z
            (score words
               (chars (find_matching_solution question solution_text))))%Q.
Proof.
  intros question solution_text words. unfold find_matching_solution.
  fold words.
  destruct (Pairing.gt _ _) eqn:G; [|now left]. right.
  rewrite chars_str. unfold words. rewrite SolutionFacts.score_strip.
  fold words. apply PairingFacts.gt_spec in G.
  destruct (SolutionFacts.scan_chunks_best words
              (solution_chunks solution_text))
    as [[Hb Hl]|(before & chunk & after & E & Hb & Hp & H1 & H2)];
    cbn zeta in Hb; rewrite Hb in G |- *; cbn [fst snd] in G |- *.
  - exfalso. pose proof (SolutionFacts.enough_nonneg words) as H.
    eapply Qlt_not_le; eauto.
  - exact G.
Qed.

End SolutionClaims.

(** ** The record of a pair *)

Section PairRecordClaims.

Import JsonRecovery QuestionSolutionPair.

Variable json_loads : string -> option json.
Variable rewrite_text : string -> string.
Variable content_group : string -> option string.
Variable scraped_concepts scraped_questions : string -> list json.
Variable extract_questions : string -> list string.

(** X24.  [process_question_solution_pair] returns what
    [process_with_deepseek] returned for its prompt and metadata, whatever
    the model did: that result is a dict with the key [metadata], so it is
    never empty, and neither the structured fallback, with the questions
    and solutions matched by pattern, nor the basic fallback is ever
    returned. *)
Theorem pair_record_is_the_model_record :
  forall (run : run_result)
         (question_path solution_path question_text solution_text : string)
         (extracted : list (string * json)),
    process_question_solution_pair json_loads rewrite_text content_group
      scraped_concepts scraped_questions extract_questions run
      question_path solution_path question_text solution_text extracted
    = process_with_deepseek json_loads rewrite_text content_group
        scraped_concepts scraped_questions run
        (pair_prompt question_text solution_text)
        (pair_metadata question_path solution_path extracted).
Proof.
  intros run question_path solution_path question_text solution_text
    extracted.
  unfold process_question_solution_pair.
  pose proof (process_with_deepseek_has_metadata json_loads rewrite_text
                content_group scraped_concepts scraped_questions run
                (pair_prompt question_text solution_text)
                (pair_metadata question_path solution_path extracted)) as H.
  destruct (process_with_deepseek _ _ _ _ _ _ _ _) as [| | | | |fields];
    try discriminate H.
  cbn [extract_json_from_value]. destruct fields as [|field fields].
  - discriminate H.
  - reflexivity.
Qed.

End PairRecordClaims.
